(** * ZenFlow icon generators: a shallow embedding and its properties

    The repository holds two stand-alone Python scripts that draw the
    app icon at every size the asset catalog needs:

    - [Scripts/generate_app_icons.py] (module [GenerateAppIcons] below):
      the "Breathing Circles" design on a vertical gradient, with a
      [Contents.json] manifest and a per-entry try/except in the writer;
    - [generate_icons.py] (module [GenerateIcons] below): concentric
      circles on a radial gradient, with a plain writer loop.

    Python values are modelled as the code has them: [int] is [Z],
    [float] is the kernel's IEEE-754 binary64 ([PrimFloat]), tuples of
    channels are lists, exceptions are an error monad, and the images of
    the imaging library live in a store that the drawing calls mutate. *)

From Stdlib Require Import ZArith QArith Qround Floats Lia List Ascii.
From stdpp Require Import gmap strings list pretty.

Local Open Scope Z_scope.

(** ** Python numbers and exceptions *)

Module Py.

(** Exceptions raised by the code or by the libraries it calls.  All of
    them derive from Python's [Exception]. *)
Inductive exn : Type :=
| ZeroDivisionError (msg : string)
| IndexError (msg : string)
| ValueError (msg : string)
| OSError (msg : string).

Definition exn_msg (e : exn) : string :=
  match e with
  | ZeroDivisionError m | IndexError m | ValueError m | OSError m => m
  end.

Inductive result (A : Type) : Type :=
| Ok (a : A)
| Raise (e : exn).
Arguments Ok {A} a.
Arguments Raise {A} e.

Definition is_ok {A} (r : result A) : bool :=
  match r with Ok _ => true | Raise _ => false end.

(** [float(z)]: the binary64 value nearest to the integer [z].  Below
    2^53, which covers every size of the tables, the conversion is
    exact and is the primitive one. *)
Definition Z2F (z : Z) : float :=
  if Z.abs z <? 2 ^ 53 then
    let f := PrimFloat.of_uint63 (Uint63Axioms.of_Z (Z.abs z)) in
    if z <? 0 then PrimFloat.opp f else f
  else SF2Prim (binary_normalize prec emax z 0 false).

(** [int(f)]: truncation towards zero.  Python raises on a NaN or an
    infinity; the programs below only pass finite values, and the
    model returns 0 there. *)
Definition py_int (f : float) : Z :=
  match Prim2SF f with
  | S754_finite s m e =>
      let a := match e with
               | Z0 => Zpos m
               | Zpos p => Z.shiftl (Zpos m) (Zpos p)
               | Zneg p => Z.shiftr (Zpos m) (Zpos p)
               end in
      if s then - a else a
  | _ => 0
  end.

(** A number that is an [int] or a [float] at run time, as the base
    sizes of [ICON_SPECS] are. *)
Inductive num : Type :=
| Int (z : Z)
| Float (f : float).

Definition to_float (a : num) : float :=
  match a with Int z => Z2F z | Float f => f end.

(** [a * b] with Python's coercion: [int * int] stays an [int], a
    [float] operand makes the product a [float]. *)
Definition mul (a b : num) : num :=
  match a, b with
  | Int x, Int y => Int (x * y)
  | _, _ => Float (PrimFloat.mul (to_float a) (to_float b))
  end.

(** [int(a)] on a number. *)
Definition int (a : num) : Z :=
  match a with Int z => z | Float f => py_int f end.

(** A value that [json.dump] can write: the dict and list literals of
    [CONTENTS_JSON].  A dict keeps its keys in insertion order. *)
#[local] Unset Elimination Schemes.
Inductive json : Type :=
| JStr (s : string)
| JInt (z : Z)
| JList (l : list json)
| JDict (d : list (string * json)).
#[local] Set Elimination Schemes.

(** [d[key]] on a dict literal. *)
Definition dict_get (key : string) (d : json) : option json :=
  match d with
  | JDict kvs => snd <$> List.find (fun kv => String.eqb (fst kv) key) kvs
  | _ => None
  end.

Definition list_items (v : json) : list json :=
  match v with JList l => l | _ => [] end.

(** [range(n)]: 0, 1, ..., n-1 (empty when [n <= 0]). *)
Definition range (n : Z) : list Z := seqZ 0 n.

(** The arithmetic the drawing code is written in.  The scripts run it
    on binary64 floats; the same expressions read over the rationals
    give the real-valued quantities that the design is stated in. *)
Class Arith (F : Type) : Type := {
  of_int : Z -> F;          (* float(z), and literals such as 1024.0 *)
  dec : Z -> Z -> F;        (* the literal m/d, e.g. 0.4 = dec 4 10 *)
  add : F -> F -> F;
  sub : F -> F -> F;
  mult : F -> F -> F;
  div : F -> F -> F;
  trunc : F -> Z            (* int(x) *)
}.

#[export] Instance float_arith : Arith float := {
  of_int := Z2F;
  dec m d := PrimFloat.div (Z2F m) (Z2F d);
  add := PrimFloat.add;
  sub := PrimFloat.sub;
  mult := PrimFloat.mul;
  div := PrimFloat.div;
  trunc := py_int
}.

#[export] Instance Q_arith : Arith Q := {
  of_int := inject_Z;
  dec m d := Qdiv (inject_Z m) (inject_Z d);
  add := Qplus;
  sub := Qminus;
  mult := Qmult;
  div := Qdiv;
  trunc q := Z.quot (Qnum q) (Zpos (Qden q))
}.

End Py.

Import Py.

Declare Scope py_scope.
Delimit Scope py_scope with py.
Infix "+" := Py.add : py_scope.
Infix "-" := Py.sub : py_scope.
Infix "*" := Py.mult : py_scope.
Infix "/" := Py.div : py_scope.

(** ** The imaging library (PIL)

    Only what the two scripts call.  An image is its mode, its size, the
    colour it was created with and the pixels written since: a
    coordinate absent from [im_data] still holds the creation colour. *)

Module PIL.

Inductive mode : Type := RGB | RGBA.

#[export] Instance mode_eq_dec : EqDecision mode.
Proof. solve_decision. Defined.

Record image : Type := Image {
  im_mode : mode;
  im_size : Z * Z;
  im_fill : list Z;
  im_data : gmap (Z * Z) (list Z)
}.

(** [Image.new(mode, size, color)]; [color] defaults to 0 (black, and
    transparent when the mode has an alpha band). *)
Definition new (m : mode) (size : Z * Z) (color : option (list Z)) : image :=
  {| im_mode := m;
     im_size := size;
     im_fill := match color with
                | Some c => c
                | None => match m with RGB => [0; 0; 0] | RGBA => [0; 0; 0; 0] end
                end;
     im_data := ∅ |}.

Definition in_image (im : image) (p : Z * Z) : Prop :=
  0 <= p.1 < (im_size im).1 /\ 0 <= p.2 < (im_size im).2.

#[export] Instance in_image_dec im p : Decision (in_image im p).
Proof. unfold in_image. apply _. Defined.

Definition getpixel (im : image) (p : Z * Z) : list Z :=
  default (im_fill im) (im_data im !! p).

(** Every pixel of the image has been written since its creation. *)
Definition fully_assigned (im : image) : Prop :=
  forall p, in_image im p -> is_Some (im_data im !! p).

(** [img.putpixel(xy, value)]: a negative index counts from the far
    edge; a coordinate outside the image raises [IndexError]. *)
Definition setpixel (xy : Z * Z) (value : list Z) (im : image) : image :=
  {| im_mode := im_mode im; im_size := im_size im; im_fill := im_fill im;
     im_data := <[xy := value]> (im_data im) |}.

Definition putpixel (xy : Z * Z) (value : list Z) (im : image) : result image :=
  let x := if decide (xy.1 < 0) then (im_size im).1 + xy.1 else xy.1 in
  let y := if decide (xy.2 < 0) then (im_size im).2 + xy.2 else xy.2 in
  if decide (in_image im (x, y)) then Ok (setpixel (x, y) value im)
  else Raise (IndexError "image index out of range").

(** The coordinates of a [w] by [h] image, row by row. *)
Definition coords (w h : Z) : list (Z * Z) :=
  y ← range h; x ← range w; [(x, y)].

(** A drawing call changes the image in place, pixel by pixel: [f]
    gives the new value of a pixel from its coordinate and its old
    value, or [None] where the call leaves the pixel alone. *)
Definition pointwise (f : Z * Z -> list Z -> option (list Z)) (im : image) : image :=
  {| im_mode := im_mode im; im_size := im_size im; im_fill := im_fill im;
     im_data :=
       foldr (fun p m => match f p (getpixel im p) with
                         | Some c => <[p := c]> m
                         | None => m
                         end)
             (im_data im) (coords (im_size im).1 (im_size im).2) |}.

(** The part of the library that is not in the repository: how an
    ink is blended over a pixel, which pixels an ellipse covers and
    with which value, and how a masked paste combines two pixels. *)
Class Rasterizer : Type := {
  (* the pixel after drawing [ink] over [old]; the first argument
     tells whether the draw object blends (mode 'RGBA') *)
  blend : bool -> mode -> list Z -> list Z -> list Z;
  (* a segment that is not horizontal, at one pixel *)
  line_px : bool -> Z * Z -> Z * Z -> list Z -> Z * Z -> list Z -> option (list Z);
  (* [draw.ellipse(bbox, fill, outline, width)] at one pixel *)
  ellipse_px : bool -> list float -> option (list Z) -> option (list Z) -> Z ->
               Z * Z -> list Z -> option (list Z);
  (* [dst.paste(src, box, mask)] at one pixel: source, mask, old value *)
  paste_px : mode -> list Z -> list Z -> list Z -> list Z
}.

(** [ImageDraw.Draw(im, mode)]: a handle that draws into the image;
    with mode 'RGBA' on an RGB image, inks are blended by their alpha. *)
Record draw (ref : Type) : Type := Draw {
  draw_im : ref;
  draw_blend : bool
}.
Arguments Draw {ref} draw_im draw_blend.
Arguments draw_im {ref} d.
Arguments draw_blend {ref} d.

Section Drawing.
Context `{Rasterizer}.

(** The value an ink leaves on a pixel: a three-channel ink on an
    RGB image is opaque and replaces the pixel; any other ink goes
    through the library's blending. *)
Definition paint (blending : bool) (im : image) (ink old : list Z) : list Z :=
  match ink, im_mode im with
  | [r; g; b], RGB => [r; g; b]
  | _, _ => blend blending (im_mode im) ink old
  end.

(** [draw.line([p0, p1], fill)].  A horizontal segment, the only
    kind the scripts draw, covers the pixels of its row from one end
    to the other, both included, clipped to the image; the trace of
    any other segment is the library's. *)
Definition line (blending : bool) (p0 p1 : Z * Z) (fill : list Z) (im : image) : image :=
  pointwise (fun p old =>
               if decide (p0.2 = p1.2)
               then if decide (p.2 = p0.2 /\ Z.min p0.1 p1.1 <= p.1 <= Z.max p0.1 p1.1)
                    then Some (paint blending im fill old) else None
               else line_px blending p0 p1 fill p old) im.

(** [draw.ellipse(bbox, fill=..., outline=..., width=...)]. *)
Definition ellipse (blending : bool) (bbox : list float)
    (fill outline : option (list Z)) (width : Z) (im : image) : image :=
  pointwise (ellipse_px blending bbox fill outline width) im.

(** [dst.paste(src, (0, 0), mask)]: every pixel of [dst] that the
    source covers is rewritten from the source, the mask and the
    old value. *)
Definition paste (src mask : image) (im : image) : image :=
  pointwise (fun p old =>
               if decide (in_image src p)
               then Some (paste_px (im_mode im) (getpixel src p) (getpixel mask p) old)
               else None) im.
End Drawing.

(** Mode, size and creation colour: what no drawing call changes. *)
Definition shape (im : image) : mode * (Z * Z) * list Z :=
  (im_mode im, im_size im, im_fill im).

Lemma elem_of_coords w h p :
  p ∈ coords w h <-> (0 <= p.1 < w /\ 0 <= p.2 < h).
Proof.
  unfold coords, range. rewrite list_elem_of_bind. split.
  - intros (y & Hp & Hy). apply list_elem_of_bind in Hp as (x & Hp & Hx).
    apply list_elem_of_singleton in Hp as ->.
    apply elem_of_seqZ in Hx, Hy. simpl. lia.
  - intros [Hx Hy]. exists p.2. split; [| apply elem_of_seqZ; lia].
    apply list_elem_of_bind. exists p.1. split; [| apply elem_of_seqZ; lia].
    destruct p. apply list_elem_of_singleton. reflexivity.
Qed.

Lemma pointwise_fold_lookup (g : Z * Z -> option (list Z))
    (m : gmap (Z * Z) (list Z)) (l : list (Z * Z)) (p : Z * Z) :
  foldr (fun q acc => match g q with Some c => <[q := c]> acc | None => acc end) m l !! p
  = if decide (p ∈ l)
    then match g p with Some c => Some c | None => m !! p end
    else m !! p.
Proof.
  induction l as [| q l IH]; simpl.
  - reflexivity.
  - destruct (decide (q = p)) as [-> | Hne].
    + rewrite (decide_True (P := p ∈ p :: l)) by apply list_elem_of_here.
      destruct (g p) as [c |] eqn:Hg.
      * apply lookup_insert_eq.
      * rewrite IH. destruct (decide (p ∈ l)); reflexivity.
    + assert (Hl : p ∈ q :: l <-> p ∈ l).
      { rewrite elem_of_cons. split; [intros [Heq | Hin]; [congruence | exact Hin] |].
        intros Hin. right. exact Hin. }
      transitivity (foldr (fun q acc => match g q with
                                        | Some c => <[q := c]> acc
                                        | None => acc
                                        end) m l !! p).
      { destruct (g q); [apply lookup_insert_ne; exact Hne | reflexivity]. }
      rewrite IH. destruct (decide (p ∈ l)) as [Hin | Hin].
      * rewrite decide_True by (apply Hl; exact Hin). reflexivity.
      * rewrite decide_False by (rewrite Hl; exact Hin). reflexivity.
Qed.

(** What a drawing call leaves at a coordinate. *)
Lemma pointwise_lookup f im p :
  im_data (pointwise f im) !! p
  = if decide (in_image im p)
    then match f p (getpixel im p) with
         | Some c => Some c
         | None => im_data im !! p
         end
    else im_data im !! p.
Proof.
  unfold pointwise; simpl.
  rewrite (pointwise_fold_lookup (fun q => f q (getpixel im q))).
  destruct (decide (in_image im p)) as [Hin | Hout].
  - rewrite decide_True by (apply elem_of_coords; exact Hin). reflexivity.
  - rewrite decide_False by (rewrite elem_of_coords; exact Hout). reflexivity.
Qed.

Lemma pointwise_shape f im : shape (pointwise f im) = shape im.
Proof. reflexivity. Qed.

(** A drawing call never takes a written pixel back to "unwritten". *)
Lemma pointwise_assigned f im p :
  is_Some (im_data im !! p) -> is_Some (im_data (pointwise f im) !! p).
Proof.
  intros Hp. rewrite pointwise_lookup.
  destruct (decide (in_image im p)); [| exact Hp].
  destruct (f p (getpixel im p)); [eexists; reflexivity | exact Hp].
Qed.

(** An image transformation that keeps the shape and every written
    pixel written: what all drawing calls are. *)
Definition monotone (f : image -> image) : Prop :=
  forall im, shape (f im) = shape im
             /\ forall p, is_Some (im_data im !! p) -> is_Some (im_data (f im) !! p).

Lemma monotone_pointwise (g : image -> Z * Z -> list Z -> option (list Z)) :
  monotone (fun im => pointwise (g im) im).
Proof. intros im. split; [reflexivity | intros p; apply pointwise_assigned]. Qed.

Lemma monotone_id : monotone (fun im => im).
Proof. intros im. split; [reflexivity | intros p Hp; exact Hp]. Qed.

Lemma monotone_compose f g :
  monotone f -> monotone g -> monotone (fun im => g (f im)).
Proof.
  intros Hf Hg im. destruct (Hf im) as [Hs Ha], (Hg (f im)) as [Hs' Ha'].
  split; [congruence | intros p Hp; apply Ha', Ha, Hp].
Qed.

Lemma monotone_foldl {A} (f : A -> image -> image) (l : list A) :
  (forall a, a ∈ l -> monotone (f a)) ->
  monotone (fun im => foldl (fun acc a => f a acc) im l).
Proof.
  induction l as [| a l IH]; intros Hl; simpl.
  - apply monotone_id.
  - apply (monotone_compose (f a) (fun im => foldl (fun acc a => f a acc) im l)).
    + apply Hl, list_elem_of_here.
    + apply IH. intros b Hb. apply Hl, list_elem_of_further, Hb.
Qed.

Lemma fully_assigned_monotone f im :
  monotone f -> fully_assigned im -> fully_assigned (f im).
Proof.
  intros Hf Him p Hp. destruct (Hf im) as [Hs Ha]. apply Ha, Him.
  unfold in_image in *. unfold shape in Hs.
  assert (im_size (f im) = im_size im) as <- by congruence. exact Hp.
Qed.

End PIL.

(** ** The interpreter state

    Images are objects: [Image.new] allocates one, the drawing calls
    mutate it through its reference, and a script sees the output stream
    and the files on disk.  A computation takes the state and returns a
    value or a raised exception, with the state it leaves. *)

Module Store.
Import PIL.

Inductive file : Type :=
| PngFile (im : image)
| JsonFile (doc : json).

Record world : Type := World {
  heap : gmap nat image;
  next : nat;
  stdout : list string;
  disk : gmap string file
}.

Definition M (A : Type) : Type := world -> result A * world.

#[export] Instance M_ret : MRet M := fun A a w => (Ok a, w).

#[export] Instance M_bind : MBind M := fun A B f c w =>
  match c w with
  | (Ok a, w') => f a w'
  | (Raise e, w') => (Raise e, w')
  end.

Definition raise {A} (e : exn) : M A := fun w => (Raise e, w).

(** [try: c  except Exception as e: handler(e)]. *)
Definition try_except {A} (c : M A) (handler : exn -> M A) : M A := fun w =>
  match c w with
  | (Ok a, w') => (Ok a, w')
  | (Raise e, w') => handler e w'
  end.

(** [for a in l: body(a)]; an exception raised by the body ends the loop. *)
Fixpoint for_each {A} (l : list A) (body : A -> M unit) : M unit :=
  match l with
  | [] => mret tt
  | a :: l' => body a ;; for_each l' body
  end.

(** A [for] loop that updates local variables: [s] holds their values
    and [body] returns the new ones. *)
Fixpoint for_fold {A S} (l : list A) (s : S) (body : S -> A -> M S) : M S :=
  match l with
  | [] => mret s
  | a :: l' => s' ← body s a; for_fold l' s' body
  end.

Definition add_line (s : string) (w : world) : world :=
  {| heap := heap w; next := next w; stdout := stdout w ++ [s]; disk := disk w |}.

Definition print (s : string) : M unit := fun w => (Ok tt, add_line s w).

Definition set_heap (h : gmap nat image) (w : world) : world :=
  {| heap := h; next := next w; stdout := stdout w; disk := disk w |}.

(** [a / b] on two ints. *)
Definition truediv (a b : Z) : M float :=
  if decide (b = 0) then raise (ZeroDivisionError "division by zero")
  else mret (PrimFloat.div (Z2F a) (Z2F b)).

(** [a / b] on two floats. *)
Definition fdiv (a b : float) : M float :=
  if PrimFloat.eqb b 0 then raise (ZeroDivisionError "float division by zero")
  else mret (PrimFloat.div a b).

(** [t[i]] on a tuple or a list, for [i >= 0]. *)
Definition getitem {A} (t : list A) (i : Z) : M A :=
  match t !! Z.to_nat i with
  | Some v => mret v
  | None => raise (IndexError "tuple index out of range")
  end.

(** [Image.new(mode, size, color)]: a fresh object; a negative width or
    height is refused.  The library also refuses a width or a height
    from [2^31] on, and an image that does not fit in memory; those
    refusals are not modelled, and the statements below about calls that
    return an image are made for bounded sizes where they depend on it. *)
Definition Image_new (m : mode) (size : Z * Z) (color : option (list Z)) : M nat :=
  if decide (size.1 < 0 \/ size.2 < 0)
  then raise (ValueError "Width and height must be >= 0")
  else fun w =>
    (Ok (next w),
     {| heap := <[next w := new m size color]> (heap w); next := S (next w);
        stdout := stdout w; disk := disk w |}).

(** A call that changes the object behind a reference in place. *)
Definition modify (ref : nat) (f : image -> image) : M unit := fun w =>
  match heap w !! ref with
  | Some im => (Ok tt, set_heap (<[ref := f im]> (heap w)) w)
  | None => (Ok tt, w)
  end.

Definition Image_putpixel (ref : nat) (xy : Z * Z) (value : list Z) : M unit := fun w =>
  match heap w !! ref with
  | Some im =>
      match putpixel xy value im with
      | Ok im' => (Ok tt, set_heap (<[ref := im']> (heap w)) w)
      | Raise e => (Raise e, w)
      end
  | None => (Ok tt, w)
  end.

Section Calls.
Context `{Rasterizer}.

Definition Draw_line (d : draw nat) (p0 p1 : Z * Z) (fill : list Z) : M unit :=
  modify (draw_im d) (line (draw_blend d) p0 p1 fill).

(** [draw.ellipse(bbox, fill, outline, width)].  The library refuses a
    box [x0, y0, x1, y1] with [x1 < x0] or [y1 < y0]; the model draws
    whatever the box is.  The boxes that the two renderers pass are
    shown to be well-formed in [DesignNumbers] below. *)
Definition Draw_ellipse (d : draw nat) (bbox : list float)
    (fill outline : option (list Z)) (width : Z) : M unit :=
  modify (draw_im d) (ellipse (draw_blend d) bbox fill outline width).

(** [dst.paste(src, (0, 0), mask)]. *)
Definition Image_paste (dst src mask : nat) : M unit := fun w =>
  match heap w !! src, heap w !! mask with
  | Some s, Some m => modify dst (paste s m) w
  | _, _ => (Ok tt, w)
  end.

End Calls.

(** What the operating system may refuse: creating the directory,
    writing an image file, writing a text file.  [None] means the call
    succeeds. *)
Class OS : Type := {
  mkdir_fault : string -> world -> option exn;
  save_fault : string -> image -> world -> option exn;
  write_fault : string -> world -> option exn
}.

Section Files.
Context `{OS}.

Definition set_disk (d : gmap string file) (w : world) : world :=
  {| heap := heap w; next := next w; stdout := stdout w; disk := d |}.

(** [os.makedirs(path, exist_ok=True)] and [Path.mkdir(parents=True,
    exist_ok=True)]. *)
Definition makedirs (path : string) : M unit := fun w =>
  match mkdir_fault path w with
  | Some e => (Raise e, w)
  | None => (Ok tt, w)
  end.

(** [icon.save(path, 'PNG')].  A save that the system refuses is taken
    to leave the files as they were; the real call may already have
    created or emptied the file at [path] when it fails, so a statement
    about the file of a refused save holds under that reading only. *)
Definition Image_save (ref : nat) (path : string) : M unit := fun w =>
  match heap w !! ref with
  | Some im =>
      match save_fault path im w with
      | Some e => (Raise e, w)
      | None => (Ok tt, set_disk (<[path := PngFile im]> (disk w)) w)
      end
  | None => (Ok tt, w)
  end.

(** [with open(path, 'w') as f: json.dump(doc, f, indent=2)], as one
    step: the file holds the document, or the step is refused.  As for
    [Image_save], a refused write is taken to leave the files as they
    were, while the real [open] may already have emptied the file. *)
Definition json_dump (doc : json) (path : string) : M unit := fun w =>
  match write_fault path w with
  | Some e => (Raise e, w)
  | None => (Ok tt, set_disk (<[path := JsonFile doc]> (disk w)) w)
  end.

End Files.

(** [f"{s:25}"]: [s] padded with spaces on the right to a width. *)
Definition ljust (width : nat) (s : string) : string :=
  s +:+ String.concat "" (replicate (width - String.length s) " ")%string.

(** [str(n)]. *)
Definition str (n : Z) : string := pretty n.

(** [Path(dir) / name] as the string that [open] and [save] receive, on
    a POSIX system and for a [name] that is a single plain component, as
    every file name of the two scripts is.  [Path(dir)] keeps the root
    of [dir] ([/], or [//] when [dir] starts with exactly two slashes)
    and those of its components that are neither empty nor [.]; so
    [Path("") / name] is [name], and a doubled slash or a slash at the
    end of [dir] changes nothing. *)
Fixpoint components (s : string) : list string :=
  match s with
  | EmptyString => [EmptyString]
  | String c rest =>
      if Ascii.eqb c "/" then EmptyString :: components rest
      else match components rest with
           | first :: others => String c first :: others
           | [] => [String c EmptyString]
           end
  end.

Definition starts_with_slash (s : string) : bool :=
  match s with
  | String c _ => Ascii.eqb c "/"
  | EmptyString => false
  end.

Definition path_root (dir : string) : string :=
  match dir with
  | String _ rest =>
      if starts_with_slash dir then
        if starts_with_slash rest
           && negb (match rest with String _ rest' => starts_with_slash rest' | _ => false end)
        then "//" else "/"
      else ""
  | EmptyString => ""
  end.

Definition path_parts (dir : string) : list string :=
  List.filter (fun c => negb (String.eqb c "" || String.eqb c ".")) (components dir).

Definition path_div (dir name : string) : string :=
  path_root dir +:+ String.concat "" (map (fun c => c +:+ "/") (path_parts dir)) +:+ name.

(** [os.path.join(dir, name)] for a relative [name]: a separator is
    added unless [dir] is empty or ends with one. *)
Fixpoint ends_with_slash (s : string) : bool :=
  match s with
  | EmptyString => false
  | String c EmptyString => Ascii.eqb c "/"%char
  | String _ rest => ends_with_slash rest
  end.

Definition path_join (dir name : string) : string :=
  if String.eqb dir "" || ends_with_slash dir then dir +:+ name
  else dir +:+ "/" +:+ name.

(** *** Reasoning about calls

    [creates c im]: from any state, [c] returns a fresh reference to the
    image [im] and leaves the objects, the output and the files that
    were there untouched.  [acts sh c ref f]: on an object of shape [sh]
    behind [ref], [c] returns normally and has turned the object [im]
    into [f im], touching nothing else that existed. *)

Definition frame (w w' : world) : Prop :=
  (next w <= next w')%nat /\ stdout w' = stdout w /\ disk w' = disk w
  /\ forall i, (i < next w)%nat -> heap w' !! i = heap w !! i.

Definition frame_but (ref : nat) (w w' : world) : Prop :=
  (next w <= next w')%nat /\ stdout w' = stdout w /\ disk w' = disk w
  /\ forall i, (i < next w)%nat -> i <> ref -> heap w' !! i = heap w !! i.

Definition creates (c : M nat) (im : image) : Prop :=
  forall w, exists w',
    c w = (Ok (next w), w') /\ heap w' !! next w = Some im
    /\ (next w < next w')%nat /\ frame w w'.

Definition acts (sh : mode * (Z * Z) * list Z) (c : M unit) (ref : nat)
    (f : image -> image) : Prop :=
  forall w im, heap w !! ref = Some im -> shape im = sh -> (ref < next w)%nat ->
    exists w',
      c w = (Ok tt, w') /\ heap w' !! ref = Some (f im) /\ shape (f im) = sh
      /\ frame_but ref w w'.

Lemma bind_ret_l {A B} (a : A) (k : A -> M B) : (mret a ≫= k) = k a.
Proof. reflexivity. Qed.

Lemma bind_ok {A B} (c : M A) (k : A -> M B) (w w' : world) (a : A) :
  c w = (Ok a, w') -> (c ≫= k) w = k a w'.
Proof. intros E. unfold mbind, M_bind. rewrite E. reflexivity. Qed.

Lemma bind_raise {A B} (c : M A) (k : A -> M B) (w w' : world) (e : exn) :
  c w = (Raise e, w') -> (c ≫= k) w = (Raise e, w').
Proof. intros E. unfold mbind, M_bind. rewrite E. reflexivity. Qed.

Lemma print_seq {B} (s : string) (k : M B) (w : world) :
  (print s ;; k) w = k (add_line s w).
Proof. reflexivity. Qed.

Lemma truediv_ok (a b : Z) :
  b <> 0 -> truediv a b = mret (PrimFloat.div (Z2F a) (Z2F b)).
Proof. intros Hb. unfold truediv. rewrite decide_False by exact Hb. reflexivity. Qed.

Lemma fdiv_ok (a b : float) :
  PrimFloat.eqb b 0 = false -> fdiv a b = mret (PrimFloat.div a b).
Proof. intros Hb. unfold fdiv. rewrite Hb. reflexivity. Qed.

Lemma getitem_ok {A} (t : list A) (i : Z) (v : A) :
  t !! Z.to_nat i = Some v -> getitem t i = mret v.
Proof. intros Hv. unfold getitem. rewrite Hv. reflexivity. Qed.

Lemma frame_but_refl ref w : frame_but ref w w.
Proof. repeat split; auto. Qed.

Lemma frame_but_trans ref w1 w2 w3 :
  frame_but ref w1 w2 -> frame_but ref w2 w3 -> frame_but ref w1 w3.
Proof.
  intros (Hn & Ho & Hd & Hh) (Hn' & Ho' & Hd' & Hh').
  repeat split; [lia | congruence | congruence |].
  intros i Hi Hne. rewrite Hh' by (lia || exact Hne). apply Hh; assumption.
Qed.

Lemma acts_ret sh ref : acts sh (mret tt) ref (fun im => im).
Proof.
  intros w im Him Hsh Href. exists w.
  repeat split; auto.
Qed.

Lemma acts_modify sh ref (f : image -> image) :
  (forall im, shape im = sh -> shape (f im) = sh) ->
  acts sh (modify ref f) ref f.
Proof.
  intros Hf w im Him Hsh Href. unfold modify. rewrite Him.
  eexists. split; [reflexivity |]. simpl.
  split; [apply lookup_insert_eq |]. split; [apply Hf, Hsh |].
  repeat split; auto. intros i _ Hne. apply lookup_insert_ne. congruence.
Qed.

Lemma acts_putpixel sh ref (xy : Z * Z) (value : list Z) :
  0 <= xy.1 < sh.1.2.1 -> 0 <= xy.2 < sh.1.2.2 ->
  acts sh (Image_putpixel ref xy value) ref (setpixel xy value).
Proof.
  intros Hx Hy w im Him Hsh Href. unfold Image_putpixel, putpixel. rewrite Him.
  assert (Hsz : im_size im = sh.1.2) by (rewrite <- Hsh; reflexivity).
  rewrite (decide_False (P := xy.1 < 0)) by lia.
  rewrite (decide_False (P := xy.2 < 0)) by lia.
  rewrite decide_True by (unfold in_image; rewrite Hsz; simpl; lia).
  destruct xy as [x y]. simpl.
  eexists. split; [reflexivity |]. simpl.
  split; [apply lookup_insert_eq |]. split; [exact Hsh |].
  repeat split; auto. intros i _ Hne. apply lookup_insert_ne. congruence.
Qed.

Lemma acts_seq sh ref (c c' : M unit) f g :
  acts sh c ref f -> acts sh c' ref g ->
  acts sh (c ;; c') ref (fun im => g (f im)).
Proof.
  intros Hc Hc' w im Him Hsh Href.
  destruct (Hc w im Him Hsh Href) as (w1 & E1 & Him1 & Hsh1 & Hfr1).
  assert (Href1 : (ref < next w1)%nat) by (destruct Hfr1; lia).
  destruct (Hc' w1 (f im) Him1 Hsh1 Href1) as (w2 & E2 & Him2 & Hsh2 & Hfr2).
  exists w2. unfold mbind, M_bind. rewrite E1.
  split; [exact E2 |]. split; [exact Him2 |]. split; [exact Hsh2 |].
  eapply frame_but_trans; eassumption.
Qed.

Lemma acts_for_each {A} sh ref (l : list A) (body : A -> M unit)
    (f : A -> image -> image) :
  (forall a, a ∈ l -> acts sh (body a) ref (f a)) ->
  acts sh (for_each l body) ref (fun im => foldl (fun acc a => f a acc) im l).
Proof.
  induction l as [| a l IH]; intros Hbody; simpl.
  - apply acts_ret.
  - apply (acts_seq sh ref (body a) (for_each l body) (f a)
             (fun im => foldl (fun acc a => f a acc) im l)).
    + apply Hbody, list_elem_of_here.
    + apply IH. intros b Hb. apply Hbody, list_elem_of_further, Hb.
Qed.

Lemma acts_ext sh c ref f g :
  (forall im, f im = g im) -> acts sh c ref f -> acts sh c ref g.
Proof.
  intros Hfg Hc w im Him Hsh Href.
  destruct (Hc w im Him Hsh Href) as (w' & E & Him' & Hsh' & Hfr).
  exists w'. rewrite <- Hfg. auto.
Qed.

Lemma creates_new m size color :
  0 <= size.1 -> 0 <= size.2 -> creates (Image_new m size color) (new m size color).
Proof.
  intros Hw Hh w. unfold Image_new. rewrite decide_False by lia.
  eexists. split; [reflexivity |]. simpl.
  split; [apply lookup_insert_eq |]. split; [lia |].
  repeat split; simpl; [lia |]. intros i Hi. apply lookup_insert_ne. lia.
Qed.

(** Allocate, draw into the new object, return it. *)
Lemma creates_then (c0 : M nat) (k : nat -> M unit) im0 f :
  creates c0 im0 ->
  (forall ref, acts (shape im0) (k ref) ref f) ->
  creates (ref ← c0; k ref ;; mret ref) (f im0).
Proof.
  intros Hc0 Hk w.
  destruct (Hc0 w) as (w1 & E1 & Him1 & Hlt & Hn1 & Ho1 & Hd1 & Hh1).
  destruct (Hk (next w) w1 im0 Him1 eq_refl Hlt)
    as (w2 & E2 & Him2 & Hsh2 & Hn2 & Ho2 & Hd2 & Hh2).
  exists w2. unfold mbind, M_bind. rewrite E1, E2.
  split; [reflexivity |]. split; [exact Him2 |]. split; [lia |].
  repeat split; [lia | congruence | congruence |].
  intros i Hi. rewrite Hh2 by lia. apply Hh1, Hi.
Qed.

(** [finishes sh c ref f]: [c] is the rest of a function that holds
    the object [im] of shape [sh] behind [ref]; it turns it into [f im]
    and returns [ref]. *)
Definition finishes (sh : mode * (Z * Z) * list Z) (c : M nat) (ref : nat)
    (f : image -> image) : Prop :=
  forall w im, heap w !! ref = Some im -> shape im = sh -> (ref < next w)%nat ->
    exists w',
      c w = (Ok ref, w') /\ heap w' !! ref = Some (f im) /\ shape (f im) = sh
      /\ frame_but ref w w'.

Lemma finishes_ret sh ref : finishes sh (mret ref) ref (fun im => im).
Proof.
  intros w im Him Hsh Href. exists w.
  repeat split; auto.
Qed.

Lemma finishes_seq sh ref (c : M unit) (k : M nat) f g :
  acts sh c ref f -> finishes sh k ref g ->
  finishes sh (c ;; k) ref (fun im => g (f im)).
Proof.
  intros Hc Hk w im Him Hsh Href.
  destruct (Hc w im Him Hsh Href) as (w1 & E1 & Him1 & Hsh1 & Hfr1).
  assert (Href1 : (ref < next w1)%nat) by (destruct Hfr1; lia).
  destruct (Hk w1 (f im) Him1 Hsh1 Href1) as (w2 & E2 & Him2 & Hsh2 & Hfr2).
  exists w2. unfold mbind, M_bind. rewrite E1.
  split; [exact E2 |]. split; [exact Him2 |]. split; [exact Hsh2 |].
  eapply frame_but_trans; eassumption.
Qed.

Lemma finishes_ext sh c ref f g :
  (forall im, f im = g im) -> finishes sh c ref f -> finishes sh c ref g.
Proof.
  intros Hfg Hc w im Him Hsh Href.
  destruct (Hc w im Him Hsh Href) as (w' & E & Him' & Hsh' & Hfr).
  exists w'. rewrite <- Hfg. auto.
Qed.

(** Allocate, then run the rest of the function on the new object. *)
Lemma creates_finishes (c0 : M nat) (k : nat -> M nat) im0 f :
  creates c0 im0 ->
  (forall ref, finishes (shape im0) (k ref) ref f) ->
  creates (ref ← c0; k ref) (f im0).
Proof.
  intros Hc0 Hk w.
  destruct (Hc0 w) as (w1 & E1 & Him1 & Hlt & Hn1 & Ho1 & Hd1 & Hh1).
  destruct (Hk (next w) w1 im0 Him1 eq_refl Hlt)
    as (w2 & E2 & Him2 & Hsh2 & Hn2 & Ho2 & Hd2 & Hh2).
  exists w2. unfold mbind, M_bind. rewrite E1, E2.
  split; [reflexivity |]. split; [exact Him2 |]. split; [lia |].
  repeat split; [lia | congruence | congruence |].
  intros i Hi. rewrite Hh2 by lia. apply Hh1, Hi.
Qed.

(** [computes c r]: the outcome of [c] does not depend on the state it
    starts from.  Either it always returns a fresh reference to the
    same image, or it always raises the same exception; what existed
    before the call is left as it was. *)
Definition computes (c : M nat) (r : result image) : Prop :=
  forall w, exists w',
    c w = (match r with Ok _ => Ok (next w) | Raise e => Raise e end, w')
    /\ frame w w'
    /\ match r with
       | Ok im => heap w' !! next w = Some im /\ (next w < next w')%nat
       | Raise _ => True
       end.

Lemma creates_computes c im : creates c im -> computes c (Ok im).
Proof.
  intros Hc w. destruct (Hc w) as (w' & E & Him & Hlt & Hfr).
  exists w'. auto.
Qed.

(** Two calls agree when both raise the same exception or both return
    an image with the same mode, size and pixels. *)
Definition agree (c : M nat) (w1 w2 : world) : Prop :=
  match c w1, c w2 with
  | (Ok i1, v1), (Ok i2, v2) =>
      exists im, heap v1 !! i1 = Some im /\ heap v2 !! i2 = Some im
  | (Raise e1, _), (Raise e2, _) => e1 = e2
  | _, _ => False
  end.

(** A second call leaves the image returned by the first one alone and
    returns another object. *)
Definition second_call_is_separate (c : M nat) (w : world) : Prop :=
  match c w with
  | (Ok i1, w1) =>
      match c w1 with
      | (Ok i2, w2) => i1 <> i2 /\ heap w2 !! i1 = heap w1 !! i1
      | (Raise _, _) => True
      end
  | (Raise _, _) => True
  end.

Lemma computes_agree c r w1 w2 : computes c r -> agree c w1 w2.
Proof.
  intros Hc. unfold agree.
  destruct (Hc w1) as (v1 & E1 & _ & H1), (Hc w2) as (v2 & E2 & _ & H2).
  rewrite E1, E2. destruct r as [im | e]; [| reflexivity].
  exists im. split; [apply H1 | apply H2].
Qed.

Lemma computes_separate c r w : computes c r -> second_call_is_separate c w.
Proof.
  intros Hc. unfold second_call_is_separate.
  destruct (Hc w) as (w1 & E1 & Hfr1 & H1). rewrite E1.
  destruct r as [im | e]; [| exact I].
  destruct (Hc w1) as (w2 & E2 & (Hn & _ & _ & Hh) & H2). rewrite E2.
  destruct H1 as [_ Hlt]. split; [lia |]. apply Hh, Hlt.
Qed.

Section CallRules.
Context `{Rasterizer}.

(** Build a temporary image, paste it over the object behind [ref] with
    itself as the mask, and go on. *)
Lemma finishes_create_paste sh ref (c : M nat) (g : image) (k : M nat) f :
  creates c g -> finishes sh k ref f ->
  finishes sh (tmp ← c; Image_paste ref tmp tmp ;; k) ref
    (fun im => f (paste g g im)).
Proof.
  intros Hc Hk w im Him Hsh Href.
  destruct (Hc w) as (w1 & E1 & Hg & Hlt & Hn1 & Ho1 & Hd1 & Hh1).
  assert (Him1 : heap w1 !! ref = Some im) by (rewrite Hh1 by exact Href; exact Him).
  set (w2 := set_heap (<[ref := paste g g im]> (heap w1)) w1).
  assert (Him2 : heap w2 !! ref = Some (paste g g im)) by apply lookup_insert_eq.
  destruct (Hk w2 (paste g g im) Him2 Hsh) as (w3 & E3 & Him3 & Hsh3 & Hn3 & Ho3 & Hd3 & Hh3).
  { simpl. lia. }
  exists w3. unfold mbind, M_bind. rewrite E1.
  unfold Image_paste, modify. rewrite Hg, Him1. fold w2.
  split; [exact E3 |]. split; [exact Him3 |]. split; [exact Hsh3 |].
  simpl in *. repeat split; [lia | congruence | congruence |].
  intros i Hi Hne. rewrite Hh3 by (lia || exact Hne).
  rewrite lookup_insert_ne by congruence. apply Hh1, Hi.
Qed.

(** Build a temporary image and paste it over the object behind [ref],
    with itself as the mask. *)
Lemma acts_create_paste sh ref (c : M nat) (g : image) :
  creates c g ->
  acts sh (tmp ← c; Image_paste ref tmp tmp) ref (paste g g).
Proof.
  intros Hc w im Him Hsh Href.
  destruct (Hc w) as (w1 & E1 & Hg & Hlt & Hn1 & Ho1 & Hd1 & Hh1).
  assert (Him1 : heap w1 !! ref = Some im) by (rewrite Hh1 by exact Href; exact Him).
  unfold mbind, M_bind. rewrite E1. unfold Image_paste, modify. rewrite Hg, Him1.
  eexists. split; [reflexivity |]. simpl.
  split; [apply lookup_insert_eq |]. split; [exact Hsh |].
  repeat split; simpl; [lia | congruence | congruence |].
  intros i Hi Hne. rewrite lookup_insert_ne by congruence. apply Hh1, Hi.
Qed.

Lemma acts_line sh (d : draw nat) p0 p1 fill :
  acts sh (Draw_line d p0 p1 fill) (draw_im d) (line (draw_blend d) p0 p1 fill).
Proof. apply acts_modify. intros im Him. exact Him. Qed.

Lemma acts_ellipse sh (d : draw nat) bbox fill outline width :
  acts sh (Draw_ellipse d bbox fill outline width) (draw_im d)
    (ellipse (draw_blend d) bbox fill outline width).
Proof. apply acts_modify. intros im Him. exact Him. Qed.

End CallRules.

End Store.

(** ** Scripts/generate_app_icons.py *)

Module GenerateAppIcons.
Import PIL Store.

(** Icon colours (from ZenTheme): RGB tuples. *)
Definition CALM_BLUE : list Z := [89; 115; 217].
Definition SERENE_PURPLE : list Z := [128; 89; 217].
Definition SOFT_PURPLE : list Z := [115; 89; 166].
Definition DEEP_INDIGO : list Z := [46; 38; 89].
Definition LIGHTER_INDIGO : list Z := [64; 56; 107].

(** iOS icon sizes: (filename, pixel size). *)
Definition ICON_SIZES : list (string * Z) :=
  [ ("icon-20@2x.png", 40);
    ("icon-20@3x.png", 60);
    ("icon-29@2x.png", 58);
    ("icon-29@3x.png", 87);
    ("icon-40@2x.png", 80);
    ("icon-40@3x.png", 120);
    ("icon-60@2x.png", 120);
    ("icon-60@3x.png", 180);
    ("icon-20.png", 20);
    ("icon-20@2x-ipad.png", 40);
    ("icon-29.png", 29);
    ("icon-29@2x-ipad.png", 58);
    ("icon-40.png", 40);
    ("icon-40@2x-ipad.png", 80);
    ("icon-76.png", 76);
    ("icon-76@2x.png", 152);
    ("icon-83.5@2x.png", 167);
    ("icon-1024.png", 1024) ]%string.

(** One record of the manifest's [images] list, as the dict literal
    [{"filename": ..., "idiom": ..., "scale": ..., "size": ...}]. *)
Definition image_record (filename idiom scale size : string) : json :=
  JDict [ ("filename", JStr filename); ("idiom", JStr idiom);
          ("scale", JStr scale); ("size", JStr size) ]%string.

(** The [Contents.json] template. *)
Definition CONTENTS_JSON : json :=
  JDict
    [ ("images",
       JList
         [ image_record "icon-20@2x.png" "iphone" "2x" "20x20";
           image_record "icon-20@3x.png" "iphone" "3x" "20x20";
           image_record "icon-29@2x.png" "iphone" "2x" "29x29";
           image_record "icon-29@3x.png" "iphone" "3x" "29x29";
           image_record "icon-40@2x.png" "iphone" "2x" "40x40";
           image_record "icon-40@3x.png" "iphone" "3x" "40x40";
           image_record "icon-60@2x.png" "iphone" "2x" "60x60";
           image_record "icon-60@3x.png" "iphone" "3x" "60x60";
           image_record "icon-20.png" "ipad" "1x" "20x20";
           image_record "icon-20@2x-ipad.png" "ipad" "2x" "20x20";
           image_record "icon-29.png" "ipad" "1x" "29x29";
           image_record "icon-29@2x-ipad.png" "ipad" "2x" "29x29";
           image_record "icon-40.png" "ipad" "1x" "40x40";
           image_record "icon-40@2x-ipad.png" "ipad" "2x" "40x40";
           image_record "icon-76.png" "ipad" "1x" "76x76";
           image_record "icon-76@2x.png" "ipad" "2x" "76x76";
           image_record "icon-83.5@2x.png" "ipad" "2x" "83.5x83.5";
           image_record "icon-1024.png" "ios-marketing" "1x" "1024x1024" ]);
      ("info", JDict [ ("author", JStr "xcode"); ("version", JInt 1) ]) ]%string.

(** The manifest's [images] list and the filename of each record. *)
Definition manifest_images : list json :=
  list_items (default (JList []) (dict_get "images" CONTENTS_JSON)).

Definition record_filename (r : json) : option string :=
  match dict_get "filename" r with
  | Some (JStr s) => Some s
  | _ => None
  end.

(** *** The numbers of the design

    Every length of the drawing is a constant times
    [scale = size / 1024.0].  The expressions are the script's; they are
    stated over any arithmetic so that they can be read on floats (what
    runs) and on rationals (the real-valued design). *)
Section Design.
Context {F : Type} `{Arith F}.

(** [int(a + (b - a) * progress)]: one channel of a colour between two
    colours. *)
Definition lerp_channel (a b : Z) (progress : F) : Z :=
  trunc (of_int a + of_int (b - a) * progress)%py.

(** [start_radius + (end_radius - start_radius) * progress]. *)
Definition lerp_radius (start_radius end_radius : Z) (progress : F) : F :=
  (of_int start_radius + of_int (end_radius - start_radius) * progress)%py.

(** [scale = size / 1024.0]. *)
Definition scale_of (size : Z) : F := (of_int size / of_int 1024)%py.

(** The outer glow runs from [int(100 * scale)] to [int(300 * scale)]. *)
Definition glow_radii (scale : F) : F * F :=
  ((of_int 100 * scale)%py, (of_int 300 * scale)%py).

(** The concentric circles: (radius, width, colour). *)
Definition circles (scale : F) : list (F * F * list Z) :=
  [ ((of_int 400 * scale)%py, (of_int 3 * scale)%py, SOFT_PURPLE ++ [102]);
    ((of_int 330 * scale)%py, (of_int 4 * scale)%py, SOFT_PURPLE ++ [128]);
    ((of_int 260 * scale)%py, (of_int 5 * scale)%py, CALM_BLUE ++ [153]);
    ((of_int 190 * scale)%py, (of_int 6 * scale)%py, CALM_BLUE ++ [179]);
    ((of_int 120 * scale)%py, (of_int 7 * scale)%py, CALM_BLUE ++ [204]) ].

(** The layers of the centre gradient: (radius, colour). *)
Definition gradient_steps (scale : F) : list (F * list Z) :=
  [ ((of_int 5 * scale)%py, [255; 255; 255; 230]);
    ((of_int 25 * scale)%py, CALM_BLUE ++ [204]);
    ((of_int 40 * scale)%py, SERENE_PURPLE ++ [179]) ].

(** [center_radius = int(40 * scale)], before [int]. *)
Definition center_radius (scale : F) : F := (of_int 40 * scale)%py.

(** [stroke_width = max(1, int(2 * scale))]. *)
Definition stroke (scale : F) : F := (of_int 2 * scale)%py.
Definition stroke_width (scale : F) : Z := Z.max 1 (trunc (stroke scale)).

(** The box of a circle of radius [r] around [center]. *)
Definition bbox_around (center : Z * Z) (r : F) : list F :=
  [ (of_int center.1 - r)%py; (of_int center.2 - r)%py;
    (of_int center.1 + r)%py; (of_int center.2 + r)%py ].

End Design.

Section Render.
Context `{Rasterizer}.

(** [create_radial_gradient]: a transparent image with one filled disc
    per step, the colours going from [start_color] to [end_color]. *)
Definition create_radial_gradient (size : Z) (center : Z * Z)
    (start_radius end_radius : Z) (start_color end_color : list Z) : M nat :=
  img ← Image_new RGBA (size, size) (Some [0; 0; 0; 0]);
  let draw := Draw img false in
  let steps := end_radius - start_radius in
  for_each (range steps) (fun i =>
    progress ← truediv i steps;
    let radius : float := lerp_radius start_radius end_radius progress in
    (* Interpolate colors *)
    s0 ← getitem start_color 0; e0 ← getitem end_color 0;
    let r := lerp_channel s0 e0 progress in
    s1 ← getitem start_color 1; e1 ← getitem end_color 1;
    let g := lerp_channel s1 e1 progress in
    s2 ← getitem start_color 2; e2 ← getitem end_color 2;
    let b := lerp_channel s2 e2 progress in
    a ← (if decide (3 < length start_color)%nat
         then s3 ← getitem start_color 3; e3 ← getitem end_color 3;
              mret (lerp_channel s3 e3 progress)
         else mret 255);
    Draw_ellipse draw (bbox_around center radius) (Some [r; g; b; a]) None 1) ;;
  mret img.

(** The background: one horizontal line per row, from [LIGHTER_INDIGO]
    at the top to [DEEP_INDIGO] at the bottom. *)
Definition background (draw : PIL.draw nat) (size : Z) : M unit :=
  for_each (range size) (fun y =>
    progress ← truediv y size;
    let r := lerp_channel (LIGHTER_INDIGO !!! 0%nat) (DEEP_INDIGO !!! 0%nat) progress in
    let g := lerp_channel (LIGHTER_INDIGO !!! 1%nat) (DEEP_INDIGO !!! 1%nat) progress in
    let b := lerp_channel (LIGHTER_INDIGO !!! 2%nat) (DEEP_INDIGO !!! 2%nat) progress in
    Draw_line draw (0, y) (size, y) [r; g; b]).

(** [draw_breathing_circles_icon]: the Breathing Circles design. *)
Definition draw_breathing_circles_icon (size : Z) : M nat :=
  (* Create image with background gradient *)
  img ← Image_new RGB (size, size) None;
  let draw := Draw img true in
  background draw size ;;
  (* Calculate scale *)
  let scale : float := scale_of size in
  let center := (size `div` 2, size `div` 2) in
  (* Outer glow *)
  let glow_start := SERENE_PURPLE ++ [76] in
  let glow_end := [0; 0; 0; 0] in
  glow ← create_radial_gradient size center
           (trunc (glow_radii scale).1) (trunc (glow_radii scale).2)
           glow_start glow_end;
  Image_paste img glow glow ;;
  (* Draw concentric circles *)
  let draw_with_alpha := Draw img true in
  for_each (circles scale) (fun '(radius, width, color) =>
    for_each (range (trunc width)) (fun i =>
      let r := (radius - of_int i / of_int 2)%py in
      Draw_ellipse draw_with_alpha (bbox_around center r) None (Some color) 1)) ;;
  (* Center filled circle with radial gradient *)
  let center_radius := trunc (center_radius scale) in
  let gradient_steps := gradient_steps scale in
  for_each (range (Z.of_nat (length gradient_steps) - 1)) (fun i =>
    '(start_r, start_c) ← getitem gradient_steps i;
    '(end_r, end_c) ← getitem gradient_steps (i + 1);
    gradient ← create_radial_gradient size center
                 (trunc start_r) (trunc end_r) start_c end_c;
    Image_paste img gradient gradient) ;;
  (* Center circle stroke *)
  let stroke_width := stroke_width scale in
  for_each (range stroke_width) (fun i =>
    let r := (of_int center_radius - of_int i / of_int 2)%py in
    Draw_ellipse draw_with_alpha (bbox_around center r) None
      (Some (CALM_BLUE ++ [255])) 1) ;;
  mret img.

End Render.

(** *** The writer

    The messages are the script's, with the pictograph that starts most
    of them written as an ASCII tag and the rule drawn with dashes. *)

Definition rule : string := String.concat "" (replicate 42 "-"%string).

Definition ok_line (filename : string) (pixel_size : Z) : string :=
  "[ok] " +:+ ljust 25 filename +:+ " (" +:+ str pixel_size +:+ "x"
    +:+ str pixel_size +:+ "px)".

Definition failed_line (filename : string) (e : exn) : string :=
  "[x] Failed: " +:+ filename +:+ " - " +:+ exn_msg e.

Definition tally_line (success_count : Z) : string :=
  "Success: " +:+ str success_count +:+ "/"
    +:+ str (Z.of_nat (length ICON_SIZES)) +:+ " icons".

Section Writer.
Context `{Rasterizer} `{OS}.

(** One iteration of the loop over [ICON_SIZES]: the [try] block and
    its [except Exception] handler, on the two counters. *)
Definition icon_step (output_path : string) (counts : Z * Z) (entry : string * Z)
    : M (Z * Z) :=
  let '(success_count, fail_count) := counts in
  let '(filename, pixel_size) := entry in
  try_except
    (icon ← draw_breathing_circles_icon pixel_size;
     Image_save icon (path_div output_path filename) ;;
     print (ok_line filename pixel_size) ;;
     mret (success_count + 1, fail_count))
    (fun e =>
       print (failed_line filename e) ;;
       mret (success_count, fail_count + 1)).

(** Generate each icon size. *)
Definition icon_loop (output_path : string) : M (Z * Z) :=
  for_fold ICON_SIZES (0, 0) (icon_step output_path).

(** Write Contents.json. *)
Definition write_contents (output_path : string) (fail_count : Z) : M Z :=
  try_except
    (json_dump CONTENTS_JSON (path_div output_path "Contents.json") ;;
     print "[ok] Contents.json" ;;
     mret fail_count)
    (fun e =>
       print ("[x] Failed to write Contents.json: " +:+ exn_msg e) ;;
       mret (fail_count + 1)).

(** The lines printed after the manifest step. *)
Definition summary (success_count fail_count : Z) : M unit :=
  print "" ;;
  print rule ;;
  print "Generation complete!" ;;
  print (tally_line success_count) ;;
  (if decide (fail_count > 0) then print ("Failed: " +:+ str fail_count)
   else mret tt) ;;
  print "" ;;
  print "Ready for Xcode build and App Store submission".

(** [generate_all_icons]: generate all iOS icon sizes. *)
Definition generate_all_icons (output_dir : string) : M unit :=
  print "ZenFlow App Icon Generator" ;;
  print rule ;;
  print "Design: Breathing Circles" ;;
  print ("Output: " +:+ output_dir) ;;
  print "" ;;
  (* Create output directory *)
  let output_path := output_dir in
  makedirs output_path ;;
  '(success_count, fail_count) ← icon_loop output_path;
  fail_count ← write_contents output_path fail_count;
  summary success_count fail_count.

End Writer.

End GenerateAppIcons.

(** ** generate_icons.py *)

Module GenerateIcons.
Import PIL Store.

(** Icon sizes needed: (size, scale, filename).  The base size is an
    [int] except for the 83.5-point iPad icon. *)
Definition ICON_SPECS : list (num * Z * string) :=
  [ (Int 20, 2, "icon-20@2x.png");
    (Int 20, 3, "icon-20@3x.png");
    (Int 29, 2, "icon-29@2x.png");
    (Int 29, 3, "icon-29@3x.png");
    (Int 40, 2, "icon-40@2x.png");
    (Int 40, 3, "icon-40@3x.png");
    (Int 60, 2, "icon-60@2x.png");
    (Int 60, 3, "icon-60@3x.png");
    (Int 20, 1, "icon-20.png");
    (Int 20, 2, "icon-20@2x-ipad.png");
    (Int 29, 1, "icon-29.png");
    (Int 29, 2, "icon-29@2x-ipad.png");
    (Int 40, 1, "icon-40.png");
    (Int 40, 2, "icon-40@2x-ipad.png");
    (Int 76, 1, "icon-76.png");
    (Int 76, 2, "icon-76@2x.png");
    (Float 83.5%float, 2, "icon-83.5@2x.png");
    (Int 1024, 1, "icon-1024.png") ]%string.

(** [pixel_size = int(base_size * scale)], the first statement of the
    writer loop's body. *)
Definition pixel_size (base_size : num) (scale : Z) : Z :=
  Py.int (Py.mul base_size (Int scale)).

(** *** The numbers of the design *)
Section Design.
Context {F : Type} `{Arith F}.

Definition num_circles : Z := 5.

(** [max_circle_radius = size * 0.4]. *)
Definition max_circle_radius (size : Z) : F := (of_int size * dec 4 10)%py.

(** [radius = max_circle_radius * (i + 1) / num_circles]. *)
Definition circle_radius (size i : Z) : F :=
  (max_circle_radius size * of_int (i + 1) / of_int num_circles)%py.

(** [opacity = int(255 * (1 - i / num_circles) * 0.5)], given
    [i / num_circles]. *)
Definition opacity (quotient : F) : Z :=
  trunc (of_int 255 * (of_int 1 - quotient) * dec 5 10)%py.

(** [width = max(1, size // 100)]. *)
Definition outline_width (size : Z) : Z := Z.max 1 (size `div` 100).

(** [center_radius = size * 0.08]. *)
Definition center_radius (size : Z) : F := (of_int size * dec 8 100)%py.

(** [[center_x - r, center_y - r, center_x + r, center_y + r]]. *)
Definition bbox_around (center_x center_y : Z) (r : F) : list F :=
  [ (of_int center_x - r)%py; (of_int center_y - r)%py;
    (of_int center_x + r)%py; (of_int center_y + r)%py ].

End Design.

(** [math.sqrt(n)] on a non-negative int. *)
Definition math_sqrt (n : Z) : float := PrimFloat.sqrt (Z2F n).

(** The gradient from soft blue to purple at [ratio]. *)
Definition gradient_color (ratio : float) : list Z :=
  [ py_int (Z2F 100 + ratio * Z2F 80)%float;      (* 100-180 *)
    py_int (Z2F 150 - ratio * Z2F 70)%float;      (* 150-80 *)
    py_int (Z2F 220 - ratio * Z2F 20)%float ].    (* 220-200 *)

Section Render.
Context `{Rasterizer}.

(** The radial gradient background: every pixel is set from its
    distance to the centre, relative to [max_radius]. *)
Definition background (img : nat) (size center_x center_y : Z) (max_radius : float) : M unit :=
  for_each (range size) (fun y =>
    for_each (range size) (fun x =>
      (* Calculate distance from center *)
      let distance := math_sqrt ((x - center_x) ^ 2 + (y - center_y) ^ 2) in
      ratio ← fdiv distance max_radius;
      Image_putpixel img (x, y) (gradient_color ratio))).

(** [create_zen_icon]: a zen-themed icon with concentric circles. *)
Definition create_zen_icon (size : Z) : M nat :=
  (* Create image with gradient background *)
  img ← Image_new RGB (size, size) None;
  let draw := Draw img false in
  (* Create radial gradient background *)
  let center_x := size `div` 2 in
  let center_y := size `div` 2 in
  let max_radius := math_sqrt (center_x ^ 2 + center_y ^ 2) in
  background img size center_x center_y max_radius ;;
  (* Draw concentric circles (breathing waves) *)
  for_each (range num_circles) (fun i =>
    (* Calculate radius with spacing *)
    let radius : float := circle_radius size i in
    (* Calculate opacity (inner circles more opaque) *)
    quotient ← truediv i num_circles;
    let opacity := opacity quotient in
    (* Draw circle outline *)
    Draw_ellipse draw (bbox_around center_x center_y radius) None
      (Some [255; 255; 255; opacity]) (outline_width size)) ;;
  (* Draw center dot *)
  let center_radius : float := center_radius size in
  Draw_ellipse draw (bbox_around center_x center_y center_radius)
    (Some [255; 255; 255; 230]) None 1 ;;
  mret img.

End Render.

(** *** The writer *)

Definition creating_line (filename : string) (pixel_size : Z) : string :=
  "  Creating " +:+ filename +:+ " (" +:+ str pixel_size +:+ "x"
    +:+ str pixel_size +:+ ")...".

Definition done_line : string :=
  "Successfully generated " +:+ str (Z.of_nat (length ICON_SPECS)) +:+ " icons!".

Section Writer.
Context `{Rasterizer} `{OS}.

(** The body of the loop over [ICON_SPECS]. *)
Definition icon_step (output_dir : string) (spec : num * Z * string) : M unit :=
  let '(base_size, scale, filename) := spec in
  let pixel_size := pixel_size base_size scale in
  print (creating_line filename pixel_size) ;;
  icon ← create_zen_icon pixel_size;
  let output_path := path_join output_dir filename in
  Image_save icon output_path.

(** [generate_all_icons]: generate all required icon sizes. *)
Definition generate_all_icons (output_dir : string) : M unit :=
  makedirs output_dir ;;
  print "Generating ZenFlow app icons..." ;;
  for_each ICON_SPECS (icon_step output_dir) ;;
  print done_line ;;
  print ("Icons saved to: " +:+ output_dir).

End Writer.

End GenerateIcons.

(** ** The Breathing Circles renderer as a function on images

    What [draw_breathing_circles_icon] leaves in the object it returns,
    written as a composition of drawing steps on an image value, and
    the proof that the script computes exactly that. *)

Module BreathingCircles.
Import PIL Store GenerateAppIcons.

(** The colour of row [y] of the background of a [size]-pixel icon:
    [progress = y / size] and the three interpolated channels. *)
Definition row_color {F : Type} `{Arith F} (size y : Z) : list Z :=
  let progress := (of_int y / of_int size)%py in
  [ lerp_channel (LIGHTER_INDIGO !!! 0%nat) (DEEP_INDIGO !!! 0%nat) progress;
    lerp_channel (LIGHTER_INDIGO !!! 1%nat) (DEEP_INDIGO !!! 1%nat) progress;
    lerp_channel (LIGHTER_INDIGO !!! 2%nat) (DEEP_INDIGO !!! 2%nat) progress ].

Section Images.
Context `{Rasterizer}.

Definition background_image (size : Z) (im : image) : image :=
  foldl (fun acc y => line true (0, y) (size, y) (row_color (F := float) size y) acc)
        im (range size).

(** One disc of a radial gradient. *)
Definition gradient_disc (center : Z * Z) (start_radius end_radius : Z)
    (start_color end_color : list Z) (i : Z) : image -> image :=
  let progress := PrimFloat.div (Z2F i) (Z2F (end_radius - start_radius)) in
  let channel (k : nat) :=
    lerp_channel (start_color !!! k) (end_color !!! k) progress in
  let a := if decide (3 < length start_color)%nat then channel 3%nat else 255 in
  ellipse false (bbox_around center (lerp_radius start_radius end_radius progress))
    (Some [channel 0%nat; channel 1%nat; channel 2%nat; a]) None 1.

Definition radial_gradient_image (size : Z) (center : Z * Z)
    (start_radius end_radius : Z) (start_color end_color : list Z) : image :=
  foldl (fun acc i => gradient_disc center start_radius end_radius
                        start_color end_color i acc)
        (new RGBA (size, size) (Some [0; 0; 0; 0]))
        (range (end_radius - start_radius)).

(** One concentric circle: [int(width)] outlines, half a pixel apart. *)
Definition ring (center : Z * Z) (c : float * float * list Z) (im : image) : image :=
  let '(radius, width, color) := c in
  foldl (fun acc i =>
           ellipse true (bbox_around center (radius - of_int i / of_int 2)%py)
             None (Some color) 1 acc)
        im (range (trunc width)).

(** One layer of the centre gradient, between steps [i] and [i + 1]. *)
Definition center_layer (size : Z) (center : Z * Z)
    (steps : list (float * list Z)) (i : Z) (im : image) : image :=
  match steps !! Z.to_nat i, steps !! Z.to_nat (i + 1) with
  | Some (start_r, start_c), Some (end_r, end_c) =>
      let gradient := radial_gradient_image size center
                        (trunc start_r) (trunc end_r) start_c end_c in
      paste gradient gradient im
  | _, _ => im
  end.

Definition center_stroke (center : Z * Z) (scale : float) (im : image) : image :=
  foldl (fun acc i =>
           ellipse true
             (bbox_around center
                (of_int (trunc (center_radius scale)) - of_int i / of_int 2)%py)
             None (Some (CALM_BLUE ++ [255])) 1 acc)
        im (range (stroke_width scale)).

(** Everything drawn over the background. *)
Definition decoration (size : Z) (im : image) : image :=
  let scale : float := scale_of size in
  let center := (size `div` 2, size `div` 2) in
  let glow := radial_gradient_image size center
                (trunc (glow_radii scale).1) (trunc (glow_radii scale).2)
                (SERENE_PURPLE ++ [76]) [0; 0; 0; 0] in
  let im := paste glow glow im in
  let im := foldl (fun acc c => ring center c acc) im (circles scale) in
  let im := foldl (fun acc i => center_layer size center (gradient_steps scale) i acc)
                  im (range (Z.of_nat (length (gradient_steps scale)) - 1)) in
  center_stroke center scale im.

(** The icon of a given size. *)
Definition icon_image (size : Z) : image :=
  decoration size (background_image size (new RGB (size, size) None)).

Lemma background_acts sh ref size :
  acts sh (background (Draw ref true) size) ref (background_image size).
Proof.
  unfold background, background_image.
  apply (acts_for_each sh ref (range size) _
           (fun y => line true (0, y) (size, y) (row_color (F := float) size y))).
  intros y Hy. apply elem_of_seqZ in Hy.
  rewrite truediv_ok by lia. rewrite bind_ret_l.
  apply (acts_line sh (Draw ref true)).
Qed.

Lemma gradient_body_acts sh ref center start_radius end_radius start_color end_color i :
  (3 <= length start_color)%nat -> (3 <= length end_color)%nat ->
  ((3 < length start_color)%nat -> (3 < length end_color)%nat) ->
  end_radius - start_radius <> 0 ->
  acts sh
    (progress ← truediv i (end_radius - start_radius);
     let radius : float := lerp_radius start_radius end_radius progress in
     s0 ← getitem start_color 0; e0 ← getitem end_color 0;
     let r := lerp_channel s0 e0 progress in
     s1 ← getitem start_color 1; e1 ← getitem end_color 1;
     let g := lerp_channel s1 e1 progress in
     s2 ← getitem start_color 2; e2 ← getitem end_color 2;
     let b := lerp_channel s2 e2 progress in
     a ← (if decide (3 < length start_color)%nat
          then s3 ← getitem start_color 3; e3 ← getitem end_color 3;
               mret (lerp_channel s3 e3 progress)
          else mret 255);
     Draw_ellipse (Draw ref false) (bbox_around center radius)
       (Some [r; g; b; a]) None 1)
    ref (gradient_disc center start_radius end_radius start_color end_color i).
Proof.
  intros Hs He Hse Hsteps.
  rewrite truediv_ok by exact Hsteps. rewrite bind_ret_l.
  assert (Hget : forall (t : list Z) (k : Z), (Z.to_nat k < length t)%nat ->
            getitem t k = mret (t !!! Z.to_nat k)).
  { intros t k Hk. apply getitem_ok. apply list_lookup_lookup_total_lt, Hk. }
  cbv zeta.
  rewrite (Hget start_color 0), (Hget end_color 0) by (simpl; lia).
  rewrite (Hget start_color 1), (Hget end_color 1) by (simpl; lia).
  rewrite (Hget start_color 2), (Hget end_color 2) by (simpl; lia).
  rewrite !bind_ret_l.
  unfold gradient_disc. destruct (decide (3 < length start_color)%nat) as [Hlong | Hshort].
  - rewrite (Hget start_color 3), (Hget end_color 3) by (simpl; auto).
    rewrite !bind_ret_l. apply (acts_ellipse sh (Draw ref false)).
  - rewrite bind_ret_l. apply (acts_ellipse sh (Draw ref false)).
Qed.

(** [create_radial_gradient] returns a fresh image holding the
    gradient.  The colours need three channels (and the end colour an
    alpha when the start colour has one) only when there is a step to
    draw. *)
Lemma create_radial_gradient_creates size center start_radius end_radius
    start_color end_color :
  0 <= size ->
  (start_radius < end_radius ->
   (3 <= length start_color)%nat /\ (3 <= length end_color)%nat
   /\ ((3 < length start_color)%nat -> (3 < length end_color)%nat)) ->
  creates (create_radial_gradient size center start_radius end_radius
             start_color end_color)
    (radial_gradient_image size center start_radius end_radius start_color end_color).
Proof.
  intros Hsize Hcolors. unfold create_radial_gradient, radial_gradient_image.
  apply (creates_then (Image_new RGBA (size, size) (Some [0; 0; 0; 0])) _
           (new RGBA (size, size) (Some [0; 0; 0; 0]))
           (fun im => foldl (fun acc i => gradient_disc center start_radius end_radius
                                            start_color end_color i acc)
                            im (range (end_radius - start_radius)))).
  - apply creates_new; simpl; lia.
  - intros ref.
    apply (acts_for_each _ ref (range (end_radius - start_radius)) _
             (gradient_disc center start_radius end_radius start_color end_color)).
    intros i Hi. apply elem_of_seqZ in Hi.
    destruct Hcolors as (Hs & He & Hse); [lia |].
    apply gradient_body_acts; auto; lia.
Qed.

Lemma ring_acts sh ref center c :
  acts sh
    (let '(radius, width, color) := c in
     for_each (range (trunc width)) (fun i =>
       let r := (radius - of_int i / of_int 2)%py in
       Draw_ellipse (Draw ref true) (bbox_around center r) None (Some color) 1))
    ref (ring center c).
Proof.
  destruct c as [[radius width] color]. unfold ring.
  apply (acts_for_each sh ref (range (trunc width)) _
           (fun i => ellipse true (bbox_around center (radius - of_int i / of_int 2)%py)
                       None (Some color) 1)).
  intros i _. apply (acts_ellipse sh (Draw ref true)).
Qed.

Lemma center_layer_acts sh ref size center (scale : float) i :
  0 <= size -> 0 <= i < 2 ->
  acts sh
    ('(start_r, start_c) ← getitem (gradient_steps scale) i;
     '(end_r, end_c) ← getitem (gradient_steps scale) (i + 1);
     gradient ← create_radial_gradient size center
                  (trunc start_r) (trunc end_r) start_c end_c;
     Image_paste ref gradient gradient)
    ref (center_layer size center (gradient_steps scale) i).
Proof.
  intros Hsize Hi.
  assert (Hcases : i = 0 \/ i = 1) by lia.
  destruct Hcases as [-> | ->]; unfold center_layer; simpl;
    apply acts_create_paste, create_radial_gradient_creates;
    try exact Hsize; intros _; simpl; lia.
Qed.

Lemma center_stroke_acts sh ref center (scale : float) :
  acts sh
    (for_each (range (stroke_width scale)) (fun i =>
       let r := (of_int (trunc (center_radius scale)) - of_int i / of_int 2)%py in
       Draw_ellipse (Draw ref true) (bbox_around center r) None
         (Some (CALM_BLUE ++ [255])) 1))
    ref (center_stroke center scale).
Proof.
  unfold center_stroke.
  apply (acts_for_each sh ref (range (stroke_width scale)) _
           (fun i => ellipse true
                       (bbox_around center
                          (of_int (trunc (center_radius scale)) - of_int i / of_int 2)%py)
                       None (Some (CALM_BLUE ++ [255])) 1)).
  intros i _. apply (acts_ellipse sh (Draw ref true)).
Qed.

(** The script computes [icon_image]: from any state, a call returns a
    fresh reference to it and disturbs nothing that existed. *)
Lemma render_creates size :
  0 <= size -> creates (draw_breathing_circles_icon size) (icon_image size).
Proof.
  intros Hsize. unfold draw_breathing_circles_icon, icon_image.
  apply (creates_finishes (Image_new RGB (size, size) None) _
           (new RGB (size, size) None)
           (fun im => decoration size (background_image size im))).
  { apply creates_new; simpl; lia. }
  intros ref. cbv zeta.
  apply (finishes_seq _ ref _ _ (background_image size) (decoration size));
    [apply background_acts |].
  unfold decoration. cbv zeta.
  eapply finishes_ext;
    [| eapply finishes_create_paste;
       [ apply create_radial_gradient_creates; [exact Hsize | intros _; simpl; lia]
       | eapply finishes_seq;
         [ apply (acts_for_each _ ref (circles (scale_of size)) _
                    (ring (size `div` 2, size `div` 2)));
           intros c _; apply ring_acts
         | eapply finishes_seq;
           [ apply (acts_for_each _ ref _ _
                      (center_layer size (size `div` 2, size `div` 2)
                         (gradient_steps (scale_of size))));
             intros i Hi; apply elem_of_seqZ in Hi; simpl in Hi;
             apply center_layer_acts; [exact Hsize | lia]
           | eapply finishes_seq;
             [ apply center_stroke_acts | apply finishes_ret ] ] ] ] ].
  intros im. reflexivity.
Qed.

(** A negative size is refused before anything is allocated. *)
Lemma render_negative size w :
  size < 0 ->
  draw_breathing_circles_icon size w
  = (Raise (ValueError "Width and height must be >= 0"), w).
Proof.
  intros Hsize. unfold draw_breathing_circles_icon, Image_new, mbind, M_bind.
  rewrite decide_True by (simpl; lia). reflexivity.
Qed.

(** The outcome of a call, for any size: a function of the size alone. *)
Definition icon_result (size : Z) : result image :=
  if decide (size < 0) then Raise (ValueError "Width and height must be >= 0")
  else Ok (icon_image size).

Lemma render_computes size :
  computes (draw_breathing_circles_icon size) (icon_result size).
Proof.
  unfold icon_result. destruct (decide (size < 0)) as [Hneg | Hpos].
  - intros w. exists w. rewrite render_negative by exact Hneg.
    repeat split; auto.
  - apply creates_computes, render_creates. lia.
Qed.

(** *** The image itself *)

Lemma row_color_channels {F : Type} `{Arith F} size y :
  exists r g b, row_color (F := F) size y = [r; g; b].
Proof. unfold row_color. eauto. Qed.

(** After the background pass every pixel of row [y] holds the colour
    of row [y], whatever order the rows were drawn in. *)
Lemma rows_lookup size (l : list Z) im (p : Z * Z) :
  im_mode im = RGB -> im_size im = (size, size) ->
  0 <= p.1 < size -> 0 <= p.2 < size ->
  im_data (foldl (fun acc y => line true (0, y) (size, y)
                                 (row_color (F := float) size y) acc) im l) !! p
  = if decide (p.2 ∈ l) then Some (row_color (F := float) size p.2)
    else im_data im !! p.
Proof.
  revert im. induction l as [| a l IH]; intros im Hmode Hsz Hx Hy; simpl.
  - reflexivity.
  - rewrite IH by assumption.
    assert (Hstep : im_data (line true (0, a) (size, a) (row_color (F := float) size a) im) !! p
                    = if decide (p.2 = a) then Some (row_color (F := float) size a)
                      else im_data im !! p).
    { unfold line. rewrite pointwise_lookup.
      rewrite decide_True by (unfold in_image; rewrite Hsz; simpl; lia).
      cbn [fst snd]. rewrite (decide_True (P := a = a)) by reflexivity.
      destruct (decide (p.2 = a)) as [Ha | Ha].
      - rewrite decide_True by lia.
        destruct (row_color_channels (F := float) size a) as (r & g & b & ->).
        unfold paint. rewrite Hmode. reflexivity.
      - rewrite decide_False by (intros [? _]; contradiction). reflexivity. }
    rewrite Hstep.
    destruct (decide (p.2 ∈ l)) as [Hl | Hl].
    + rewrite decide_True by (apply list_elem_of_further, Hl). reflexivity.
    + destruct (decide (p.2 = a)) as [Ha | Ha].
      * rewrite decide_True by (rewrite Ha; apply list_elem_of_here).
        rewrite Ha. reflexivity.
      * rewrite decide_False; [reflexivity |].
        rewrite elem_of_cons. intros [? | ?]; contradiction.
Qed.

Lemma background_lookup size im x y :
  im_mode im = RGB -> im_size im = (size, size) ->
  0 <= x < size -> 0 <= y < size ->
  im_data (background_image size im) !! (x, y) = Some (row_color (F := float) size y).
Proof.
  intros Hmode Hsz Hx Hy. unfold background_image.
  rewrite (rows_lookup size (range size) im (x, y)) by assumption.
  simpl. rewrite decide_True; [reflexivity |].
  apply elem_of_seqZ. lia.
Qed.

Lemma monotone_line blending p0 p1 fill : monotone (line blending p0 p1 fill).
Proof.
  apply (monotone_pointwise (fun im p old =>
    if decide (p0.2 = p1.2)
    then if decide (p.2 = p0.2 /\ Z.min p0.1 p1.1 <= p.1 <= Z.max p0.1 p1.1)
         then Some (paint blending im fill old) else None
    else line_px blending p0 p1 fill p old)).
Qed.

Lemma monotone_ellipse blending bbox fill outline width :
  monotone (ellipse blending bbox fill outline width).
Proof.
  apply (monotone_pointwise (fun _ => ellipse_px blending bbox fill outline width)).
Qed.

Lemma monotone_paste src mask : monotone (paste src mask).
Proof.
  apply (monotone_pointwise (fun im p old =>
    if decide (in_image src p)
    then Some (paste_px (im_mode im) (getpixel src p) (getpixel mask p) old)
    else None)).
Qed.

Lemma monotone_background size : monotone (background_image size).
Proof.
  apply (monotone_foldl (fun y => line true (0, y) (size, y) (row_color (F := float) size y))).
  intros y _. apply monotone_line.
Qed.

Lemma monotone_ring center c : monotone (ring center c).
Proof.
  destruct c as [[radius width] color].
  apply (monotone_foldl (fun i => ellipse true
           (bbox_around center (radius - of_int i / of_int 2)%py) None (Some color) 1)).
  intros i _. apply monotone_ellipse.
Qed.

Lemma monotone_center_layer size center steps i :
  monotone (center_layer size center steps i).
Proof.
  unfold center_layer.
  destruct (steps !! Z.to_nat i) as [[start_r start_c] |]; [| apply monotone_id].
  destruct (steps !! Z.to_nat (i + 1)) as [[end_r end_c] |]; [| apply monotone_id].
  apply monotone_paste.
Qed.

Lemma monotone_center_stroke center scale : monotone (center_stroke center scale).
Proof.
  apply (monotone_foldl (fun i => ellipse true
           (bbox_around center
              (of_int (trunc (center_radius scale)) - of_int i / of_int 2)%py)
           None (Some (CALM_BLUE ++ [255])) 1)).
  intros i _. apply monotone_ellipse.
Qed.

(** The decoration keeps the shape of the image and every written pixel. *)
Lemma monotone_decoration size : monotone (decoration size).
Proof.
  unfold decoration. cbv zeta.
  set (center := (size `div` 2, size `div` 2)).
  set (scale := scale_of size : float).
  set (glow := radial_gradient_image size center _ _ _ _).
  pose (rings := fun im => foldl (fun acc c => ring center c acc) im (circles scale)).
  pose (layers := fun im =>
          foldl (fun acc i => center_layer size center (gradient_steps scale) i acc) im
                (range (Z.of_nat (length (gradient_steps scale)) - 1))).
  apply (monotone_compose (fun im => layers (rings (paste glow glow im)))
           (center_stroke center scale)); [| apply monotone_center_stroke].
  apply (monotone_compose (fun im => rings (paste glow glow im)) layers).
  - apply (monotone_compose (paste glow glow) rings); [apply monotone_paste |].
    apply (monotone_foldl (ring center)). intros c _. apply monotone_ring.
  - apply (monotone_foldl (center_layer size center (gradient_steps scale))).
    intros i _. apply monotone_center_layer.
Qed.

(** The icon is a [size] by [size] RGB image with every pixel written. *)
Lemma icon_image_shape size : shape (icon_image size) = (RGB, (size, size), [0; 0; 0]).
Proof.
  unfold icon_image.
  destruct (monotone_decoration size (background_image size (new RGB (size, size) None)))
    as [-> _].
  destruct (monotone_background size (new RGB (size, size) None)) as [-> _].
  reflexivity.
Qed.

Lemma icon_image_fully_assigned size : fully_assigned (icon_image size).
Proof.
  unfold icon_image. apply fully_assigned_monotone; [apply monotone_decoration |].
  intros [x y] [Hx Hy].
  destruct (monotone_background size (new RGB (size, size) None)) as [Hsh _].
  assert (Hsz : im_size (background_image size (new RGB (size, size) None)) = (size, size)).
  { apply (f_equal (fun sh => sh.1.2)) in Hsh. exact Hsh. }
  rewrite Hsz in Hx, Hy. simpl in Hx, Hy.
  rewrite background_lookup by (reflexivity || assumption).
  eexists. reflexivity.
Qed.

End Images.

End BreathingCircles.

(** ** The zen icon renderer as a function on images *)

Module ZenIcon.
Import PIL Store GenerateIcons.

(** [max_radius] of a [size]-pixel icon, and the colour that the
    background loop gives to pixel [(x, y)]. *)
Definition max_radius (size : Z) : float :=
  math_sqrt ((size `div` 2) ^ 2 + (size `div` 2) ^ 2).

Definition pixel_color (size x y : Z) : list Z :=
  let distance := math_sqrt ((x - size `div` 2) ^ 2 + (y - size `div` 2) ^ 2) in
  gradient_color (PrimFloat.div distance (max_radius size)).

Section Images.
Context `{Rasterizer}.

Definition background_image (size : Z) (im : image) : image :=
  foldl (fun acc y =>
           foldl (fun acc' x => setpixel (x, y) (pixel_color size x y) acc')
                 acc (range size))
        im (range size).

Definition circle (size i : Z) : image -> image :=
  ellipse false
    (bbox_around (size `div` 2) (size `div` 2) (circle_radius (F := float) size i))
    None
    (Some [255; 255; 255; opacity (PrimFloat.div (Z2F i) (Z2F num_circles))])
    (outline_width size).

Definition decoration (size : Z) (im : image) : image :=
  ellipse false
    (bbox_around (size `div` 2) (size `div` 2) (center_radius (F := float) size))
    (Some [255; 255; 255; 230]) None 1
    (foldl (fun acc i => circle size i acc) im (range num_circles)).

Definition zen_image (size : Z) : image :=
  decoration size (background_image size (new RGB (size, size) None)).

Lemma zen_background_acts ref size :
  (0 < size -> PrimFloat.eqb (max_radius size) 0 = false) ->
  acts (RGB, (size, size), [0; 0; 0])
    (background ref size (size `div` 2) (size `div` 2) (max_radius size))
    ref (background_image size).
Proof.
  intros Hmax. unfold background, background_image.
  apply (acts_for_each _ ref (range size) _
           (fun y im => foldl (fun acc' x => setpixel (x, y) (pixel_color size x y) acc')
                              im (range size))).
  intros y Hy. apply elem_of_seqZ in Hy.
  apply (acts_for_each _ ref (range size) _
           (fun x => setpixel (x, y) (pixel_color size x y))).
  intros x Hx. apply elem_of_seqZ in Hx.
  rewrite fdiv_ok by (apply Hmax; lia). rewrite bind_ret_l.
  apply acts_putpixel; simpl; lia.
Qed.

Lemma circle_acts sh ref size i :
  acts sh
    (let radius : float := circle_radius size i in
     quotient ← truediv i num_circles;
     let opacity := opacity quotient in
     Draw_ellipse (Draw ref false)
       (bbox_around (size `div` 2) (size `div` 2) radius) None
       (Some [255; 255; 255; opacity]) (outline_width size))
    ref (circle size i).
Proof.
  cbv zeta. rewrite truediv_ok by (unfold num_circles; lia). rewrite bind_ret_l.
  apply (acts_ellipse sh (Draw ref false)).
Qed.

(** When [max_radius] is not zero the script computes [zen_image]. *)
Lemma zen_render_creates size :
  0 <= size -> (0 < size -> PrimFloat.eqb (max_radius size) 0 = false) ->
  creates (create_zen_icon size) (zen_image size).
Proof.
  intros Hsize Hmax. unfold create_zen_icon, zen_image.
  apply (creates_finishes (Image_new RGB (size, size) None) _
           (new RGB (size, size) None)
           (fun im => decoration size (background_image size im))).
  { apply creates_new; simpl; lia. }
  intros ref. cbv zeta.
  apply (finishes_seq _ ref _ _ (background_image size) (decoration size));
    [apply zen_background_acts, Hmax |].
  unfold decoration.
  eapply finishes_ext;
    [| eapply finishes_seq;
       [ apply (acts_for_each _ ref (range num_circles) _ (circle size));
         intros i _; apply circle_acts
       | eapply finishes_seq;
         [ apply (acts_ellipse _ (Draw ref false)) | apply finishes_ret ] ] ].
  intros im. reflexivity.
Qed.

(** A negative size is refused before anything is allocated. *)
Lemma zen_render_negative size w :
  size < 0 ->
  create_zen_icon size w = (Raise (ValueError "Width and height must be >= 0"), w).
Proof.
  intros Hsize. unfold create_zen_icon, Image_new, mbind, M_bind.
  rewrite decide_True by (simpl; lia). reflexivity.
Qed.

(** When [max_radius] is zero the division at the first pixel raises:
    the fresh image has been allocated and nothing else has changed. *)
Lemma zen_render_raises size w :
  0 < size -> PrimFloat.eqb (max_radius size) 0 = true ->
  create_zen_icon size w
  = (Raise (ZeroDivisionError "float division by zero"),
     {| heap := <[next w := new RGB (size, size) None]> (heap w);
        next := S (next w); stdout := stdout w; disk := disk w |}).
Proof.
  intros Hsize Hmax. unfold create_zen_icon, Image_new, mbind, M_bind.
  rewrite decide_False by (simpl; lia).
  unfold background, range. rewrite (seqZ_cons 0 size) by exact Hsize.
  cbn [for_each]. unfold mbind, M_bind.
  cbn [for_each]. unfold mbind, M_bind.
  fold (max_radius size). unfold fdiv. rewrite Hmax. reflexivity.
Qed.

(** The outcome of a call, for any size: a function of the size alone. *)
Definition zen_result (size : Z) : result image :=
  if decide (size < 0) then Raise (ValueError "Width and height must be >= 0")
  else if bool_decide (0 < size) && PrimFloat.eqb (max_radius size) 0
       then Raise (ZeroDivisionError "float division by zero")
       else Ok (zen_image size).

Lemma zen_render_computes size : computes (create_zen_icon size) (zen_result size).
Proof.
  unfold zen_result. destruct (decide (size < 0)) as [Hneg | Hpos].
  { intros w. exists w. rewrite zen_render_negative by exact Hneg.
    repeat split; auto. }
  destruct (decide (0 < size)) as [Hsize | Hzero];
    [rewrite bool_decide_eq_true_2 by exact Hsize
    | rewrite bool_decide_eq_false_2 by exact Hzero]; simpl.
  - destruct (PrimFloat.eqb (max_radius size) 0) eqn:Hmax.
    + intros w. eexists. rewrite zen_render_raises by assumption.
      split; [reflexivity |]. split; [| exact I].
      repeat split; simpl; [lia |]. intros i Hi. apply lookup_insert_ne. lia.
    + apply creates_computes, zen_render_creates; [lia | intros _; exact Hmax].
  - apply creates_computes, zen_render_creates; [lia | intros Hsize; lia].
Qed.

(** *** The image itself *)

Lemma row_lookup size y (xs : list Z) im (p : Z * Z) :
  im_data (foldl (fun acc' x => setpixel (x, y) (pixel_color size x y) acc') im xs) !! p
  = if decide (p.2 = y /\ p.1 ∈ xs) then Some (pixel_color size p.1 p.2)
    else im_data im !! p.
Proof.
  revert im. induction xs as [| a xs IH]; intros im; simpl.
  - destruct (decide (p.2 = y /\ p.1 ∈ [])) as [[_ Hin] | _]; [inversion Hin | reflexivity].
  - rewrite IH. destruct p as [px py]. simpl.
    destruct (decide (py = y /\ px ∈ xs)) as [[Hy Hin] | Hno].
    + rewrite decide_True; [reflexivity |].
      split; [exact Hy | apply list_elem_of_further, Hin].
    + destruct (decide (px = a /\ py = y)) as [[-> ->] | Hne].
      * rewrite decide_True by (split; [reflexivity | apply list_elem_of_here]).
        apply lookup_insert_eq.
      * rewrite lookup_insert_ne by (intros [= ? ?]; apply Hne; auto).
        rewrite decide_False; [reflexivity |].
        intros [Hy Hin]. apply elem_of_cons in Hin as [Ha | Hin]; [apply Hne | apply Hno]; auto.
Qed.

Lemma grid_lookup size (ys : list Z) im (p : Z * Z) :
  im_data (foldl (fun acc y =>
                    foldl (fun acc' x => setpixel (x, y) (pixel_color size x y) acc')
                          acc (range size)) im ys) !! p
  = if decide (p.2 ∈ ys /\ p.1 ∈ range size) then Some (pixel_color size p.1 p.2)
    else im_data im !! p.
Proof.
  revert im. induction ys as [| a ys IH]; intros im; simpl.
  - destruct (decide (p.2 ∈ [] /\ p.1 ∈ range size)) as [[Hin _] | _];
      [inversion Hin | reflexivity].
  - rewrite IH, row_lookup.
    destruct (decide (p.2 ∈ ys /\ p.1 ∈ range size)) as [[Hy Hx] | Hno].
    + rewrite decide_True; [reflexivity |].
      split; [apply list_elem_of_further, Hy | exact Hx].
    + destruct (decide (p.2 = a /\ p.1 ∈ range size)) as [[Hy Hx] | Hne].
      * rewrite decide_True; [reflexivity |].
        split; [rewrite Hy; apply list_elem_of_here | exact Hx].
      * rewrite decide_False; [reflexivity |].
        intros [Hy Hx]. apply elem_of_cons in Hy as [Hy | Hy]; [apply Hne | apply Hno]; auto.
Qed.

(** After the background loop, pixel [(x, y)] holds [pixel_color]. *)
Lemma zen_background_lookup size im x y :
  0 <= x < size -> 0 <= y < size ->
  im_data (background_image size im) !! (x, y) = Some (pixel_color size x y).
Proof.
  intros Hx Hy. unfold background_image. rewrite grid_lookup. simpl.
  rewrite decide_True; [reflexivity |].
  unfold range. rewrite !elem_of_seqZ. lia.
Qed.

Lemma monotone_setpixel xy value : monotone (setpixel xy value).
Proof.
  intros im. split; [reflexivity |]. intros p Hp. simpl.
  destruct (decide (xy = p)) as [-> | Hne].
  - rewrite lookup_insert_eq. eexists. reflexivity.
  - rewrite lookup_insert_ne by exact Hne. exact Hp.
Qed.

Lemma zen_monotone_background size : monotone (background_image size).
Proof.
  apply (monotone_foldl (fun y im =>
           foldl (fun acc' x => setpixel (x, y) (pixel_color size x y) acc') im (range size))).
  intros y _.
  apply (monotone_foldl (fun x => setpixel (x, y) (pixel_color size x y))).
  intros x _. apply monotone_setpixel.
Qed.

Lemma zen_monotone_decoration size : monotone (decoration size).
Proof.
  unfold decoration.
  apply (monotone_compose (fun im => foldl (fun acc i => circle size i acc) im (range num_circles))
           (ellipse false _ (Some [255; 255; 255; 230]) None 1)).
  - apply (monotone_foldl (circle size)). intros i _.
    apply BreathingCircles.monotone_ellipse.
  - apply BreathingCircles.monotone_ellipse.
Qed.

Lemma zen_image_shape size : shape (zen_image size) = (RGB, (size, size), [0; 0; 0]).
Proof.
  unfold zen_image.
  destruct (zen_monotone_decoration size (background_image size (new RGB (size, size) None)))
    as [-> _].
  destruct (zen_monotone_background size (new RGB (size, size) None)) as [-> _].
  reflexivity.
Qed.

Lemma zen_image_fully_assigned size : fully_assigned (zen_image size).
Proof.
  unfold zen_image. apply fully_assigned_monotone; [apply zen_monotone_decoration |].
  intros [x y] [Hx Hy].
  destruct (zen_monotone_background size (new RGB (size, size) None)) as [Hsh _].
  assert (Hsz : im_size (background_image size (new RGB (size, size) None)) = (size, size)).
  { apply (f_equal (fun sh => sh.1.2)) in Hsh. exact Hsh. }
  rewrite Hsz in Hx, Hy. simpl in Hx, Hy.
  rewrite zen_background_lookup by assumption.
  eexists. reflexivity.
Qed.

End Images.

End ZenIcon.

(** ** Concrete backends

    A coarse rasterizer (an ellipse paints its bounding box, a paste
    copies the source where its alpha is not zero) and two operating
    systems, one where every call succeeds and one with a full disk.
    They serve as test inputs. *)

Module Example.
Import PIL Store.

Definition in_box (bbox : list float) (p : Z * Z) : bool :=
  match bbox with
  | [x0; y0; x1; y1] =>
      PrimFloat.leb x0 (Z2F p.1) && PrimFloat.leb (Z2F p.1) x1
      && PrimFloat.leb y0 (Z2F p.2) && PrimFloat.leb (Z2F p.2) y1
  | _ => false
  end.

Definition box_rasterizer : Rasterizer :=
  {| blend := fun _ _ ink _ => take 3 ink;
     line_px := fun _ _ _ _ _ _ => None;
     ellipse_px := fun _ bbox fill outline _ p _ =>
       if in_box bbox p
       then match fill, outline with
            | Some c, _ => Some (take 3 c)
            | None, Some c => Some (take 3 c)
            | None, None => None
            end
       else None;
     paste_px := fun _ src mask old =>
       if bool_decide (mask !! 3%nat = Some 0) then old else take 3 src |}.

Definition reliable : OS :=
  {| mkdir_fault := fun _ _ => None;
     save_fault := fun _ _ _ => None;
     write_fault := fun _ _ => None |}.

Definition full_disk : OS :=
  {| mkdir_fault := fun _ _ => None;
     save_fault := fun _ _ _ => Some (OSError "[Errno 28] No space left on device");
     write_fault := fun _ _ => Some (OSError "[Errno 28] No space left on device") |}.

Definition empty_world : world :=
  {| heap := ∅; next := 0; stdout := []; disk := ∅ |}.

End Example.

(** ** Checking a property on every integer of an interval *)

Module Interval.

Fixpoint all_from (fuel : nat) (z : Z) (P : Z -> bool) : bool :=
  match fuel with
  | O => true
  | S fuel' => if P z then all_from fuel' (Z.succ z) P else false
  end.

Definition all_between (lo hi : Z) (P : Z -> bool) : bool :=
  all_from (Z.to_nat (hi - lo + 1)) lo P.

Lemma all_from_spec fuel z P :
  all_from fuel z P = true ->
  forall x, z <= x < z + Z.of_nat fuel -> P x = true.
Proof.
  revert z. induction fuel as [| fuel IH]; intros z Hall x Hx.
  - lia.
  - simpl in Hall. destruct (P z) eqn:Hz; [| discriminate].
    destruct (decide (x = z)) as [-> | Hne]; [exact Hz |].
    apply (IH (Z.succ z) Hall). lia.
Qed.

Lemma all_between_spec lo hi P :
  all_between lo hi P = true -> forall x, lo <= x <= hi -> P x = true.
Proof.
  intros Hall x Hx. apply (all_from_spec _ _ _ Hall). lia.
Qed.

End Interval.

(** * Properties *)

Import PIL Store.

(** ** The tables *)

(** C3: the manifest's [images] list has as many records as the size
    table has entries (18), and the filenames of the records, in order,
    are the filenames of the size table. *)
Theorem manifest_filenames_match_size_table :
  length GenerateAppIcons.manifest_images = length GenerateAppIcons.ICON_SIZES
  /\ length GenerateAppIcons.ICON_SIZES = 18%nat
  /\ map GenerateAppIcons.record_filename GenerateAppIcons.manifest_images
     = map (fun entry => Some entry.1) GenerateAppIcons.ICON_SIZES.
Proof. repeat split. Qed.

(** C9: the two size tables describe the same files at the same pixel
    dimensions in the same order: both have 18 entries, and at every
    index the filenames agree and the first table's pixel dimension is
    [int(base_size * scale)] of the second table's entry. *)
Theorem size_tables_equivalent :
  length GenerateAppIcons.ICON_SIZES = 18%nat
  /\ length GenerateIcons.ICON_SPECS = 18%nat
  /\ forall (i : nat) (name : string) (px : Z),
       GenerateAppIcons.ICON_SIZES !! i = Some (name, px) <->
       exists base scale,
         GenerateIcons.ICON_SPECS !! i = Some (base, scale, name)
         /\ px = GenerateIcons.pixel_size base scale.
Proof.
  split; [reflexivity | split; [reflexivity |]].
  intros i name px.
  do 18 (destruct i as [| i];
    [ cbn [lookup list_lookup GenerateAppIcons.ICON_SIZES
             GenerateIcons.ICON_SPECS]; split;
      [ intros [= <- <-]; eexists _, _; split;
        [ reflexivity | vm_compute; reflexivity ]
      | intros (base & scale & [= <- <- <-] & ->);
        vm_compute; reflexivity ]
    | ]).
  split; [ intros Hi; discriminate Hi | intros (? & ? & Hi & _); discriminate Hi ].
Qed.

(** Every pixel dimension of the tables is positive. *)
Lemma icon_sizes_positive name px :
  (name, px) ∈ GenerateAppIcons.ICON_SIZES -> 0 < px.
Proof.
  intros Hin.
  assert (Hall : Forall (fun entry => 0 < entry.2) GenerateAppIcons.ICON_SIZES)
    by (repeat constructor).
  rewrite Forall_forall in Hall. apply (Hall _ Hin).
Qed.

(** ** The renderers *)

(** C2: a renderer is a function of the pixel dimension alone.  For
    every dimension and any two states of the interpreter (in
    particular the state before a first call and the state it leaves),
    the two calls raise the same exception or return images with the
    same mode, size and pixels; and a second call returns another
    object and leaves the first image as it was.  This holds for both
    renderers and for any behaviour of the imaging library. *)
Theorem renderers_are_deterministic `{Rasterizer} (n : Z) (w1 w2 : world) :
  agree (GenerateAppIcons.draw_breathing_circles_icon n) w1 w2
  /\ agree (GenerateIcons.create_zen_icon n) w1 w2
  /\ second_call_is_separate (GenerateAppIcons.draw_breathing_circles_icon n) w1
  /\ second_call_is_separate (GenerateIcons.create_zen_icon n) w1.
Proof.
  split; [apply (computes_agree _ _ _ _ (BreathingCircles.render_computes n)) |].
  split; [apply (computes_agree _ _ _ _ (ZenIcon.zen_render_computes n)) |].
  split; [apply (computes_separate _ _ _ (BreathingCircles.render_computes n)) |].
  apply (computes_separate _ _ _ (ZenIcon.zen_render_computes n)).
Qed.

(** The Breathing Circles renderer returns, for every positive
    dimension, a square RGB image with every pixel written. *)
Lemma breathing_icon_is_full_square `{Rasterizer} (n : Z) (w : world) :
  0 < n ->
  exists w' im,
    GenerateAppIcons.draw_breathing_circles_icon n w = (Ok (next w), w')
    /\ heap w' !! next w = Some im
    /\ im_mode im = RGB /\ im_size im = (n, n) /\ fully_assigned im.
Proof.
  intros Hn.
  destruct (BreathingCircles.render_creates n (ltac:(lia)) w)
    as (w' & E & Him & _ & _).
  exists w', (BreathingCircles.icon_image n).
  pose proof (BreathingCircles.icon_image_shape n) as Hsh.
  split; [exact E |]. split; [exact Him |].
  split; [exact (f_equal (fun sh => sh.1.1) Hsh) |].
  split; [exact (f_equal (fun sh => sh.1.2) Hsh) |].
  apply BreathingCircles.icon_image_fully_assigned.
Qed.

(** [max_radius] is not zero for the dimensions from 2 to 65536. *)
Definition max_radius_nonzero (n : Z) : bool :=
  negb (PrimFloat.eqb (ZenIcon.max_radius n) 0).

Lemma max_radius_checked : Interval.all_between 2 65536 max_radius_nonzero = true.
Proof. vm_compute. reflexivity. Qed.

Lemma max_radius_ok (n : Z) :
  2 <= n <= 65536 -> PrimFloat.eqb (ZenIcon.max_radius n) 0 = false.
Proof.
  intros Hn.
  pose proof (Interval.all_between_spec _ _ _ max_radius_checked n Hn) as Hok.
  unfold max_radius_nonzero in Hok. apply negb_true_iff in Hok. exact Hok.
Qed.

(** The zen renderer returns a square RGB image with every pixel
    written for the dimensions from 2 to 65536. *)
Lemma zen_icon_is_full_square `{Rasterizer} (n : Z) (w : world) :
  2 <= n <= 65536 ->
  exists w' im,
    GenerateIcons.create_zen_icon n w = (Ok (next w), w')
    /\ heap w' !! next w = Some im
    /\ im_mode im = RGB /\ im_size im = (n, n) /\ fully_assigned im.
Proof.
  intros Hn.
  destruct (ZenIcon.zen_render_creates n (ltac:(lia)) (fun _ => max_radius_ok n Hn) w)
    as (w' & E & Him & _ & _).
  exists w', (ZenIcon.zen_image n).
  pose proof (ZenIcon.zen_image_shape n) as Hsh.
  split; [exact E |]. split; [exact Him |].
  split; [exact (f_equal (fun sh => sh.1.1) Hsh) |].
  split; [exact (f_equal (fun sh => sh.1.2) Hsh) |].
  apply ZenIcon.zen_image_fully_assigned.
Qed.

(** C4, at the input where the code departs from it: asked for a
    one-pixel icon, [create_zen_icon] raises [ZeroDivisionError] at the
    first pixel ([max_radius] is [sqrt(0 + 0)]) instead of returning a
    one by one image, from any state and for any imaging library. *)
Theorem zen_icon_of_one_pixel_raises `{Rasterizer} (w : world) :
  fst (GenerateIcons.create_zen_icon 1 w)
  = Raise (ZeroDivisionError "float division by zero").
Proof.
  rewrite ZenIcon.zen_render_raises; [reflexivity | lia | vm_compute; reflexivity].
Qed.

(** [create_radial_gradient] with no step to draw ([end_radius] not
    above [start_radius]) returns the transparent image it created:
    the loop body, and with it the division by [steps], does not run,
    whatever the colours and whatever the imaging library does. *)
Lemma gradient_without_steps `{Rasterizer} size center start_radius end_radius
    start_color end_color :
  0 <= size -> end_radius - start_radius <= 0 ->
  creates (GenerateAppIcons.create_radial_gradient size center start_radius end_radius
             start_color end_color)
    (new RGBA (size, size) (Some [0; 0; 0; 0])).
Proof.
  intros Hsize Hsteps.
  pose proof (BreathingCircles.create_radial_gradient_creates size center
                start_radius end_radius start_color end_color Hsize) as Hc.
  unfold BreathingCircles.radial_gradient_image, range in Hc.
  rewrite seqZ_nil in Hc by exact Hsteps. apply Hc. intros Hlt. lia.
Qed.

(** The stroke of the centre circle is at least one pixel wide. *)
Lemma stroke_width_at_least_one {F : Type} `{Arith F} (scale : F) :
  1 <= GenerateAppIcons.stroke_width scale.
Proof. unfold GenerateAppIcons.stroke_width. lia. Qed.

(** The integers that the Breathing Circles design is drawn with at a
    given size: the radii of the glow, the widths of the five circles,
    the radii of the centre gradient, the centre radius and the stroke
    width. *)
Definition rounded_parameters {F : Type} `{Arith F} (size : Z) : list Z :=
  let scale : F := GenerateAppIcons.scale_of size in
  [ trunc (GenerateAppIcons.glow_radii scale).1;
    trunc (GenerateAppIcons.glow_radii scale).2 ]
  ++ map (fun c => trunc c.1.2) (GenerateAppIcons.circles scale)
  ++ map (fun s => trunc s.1) (GenerateAppIcons.gradient_steps scale)
  ++ [ trunc (GenerateAppIcons.center_radius scale);
       GenerateAppIcons.stroke_width scale ].

(** C6: rendering at 20 pixels, the smallest dimension of the table,
    returns a 20 by 20 image from any state and for any imaging library.
    At that size the glow has 4 steps and both layers of the centre
    gradient have none (their radii round to 0); a gradient without
    steps never runs its loop body, so never divides by [steps]; every
    circle width rounds to 0 and draws nothing; and the stroke width,
    [max(1, int(2 * scale))], is 1 there and at least 1 everywhere. *)
Theorem smallest_size_renders `{Rasterizer} :
  (forall w, exists w' im,
      GenerateAppIcons.draw_breathing_circles_icon 20 w = (Ok (next w), w')
      /\ heap w' !! next w = Some im /\ im_size im = (20, 20))
  /\ (forall size center start_radius end_radius start_color end_color,
        0 <= size -> end_radius - start_radius <= 0 ->
        creates (GenerateAppIcons.create_radial_gradient size center start_radius
                   end_radius start_color end_color)
          (new RGBA (size, size) (Some [0; 0; 0; 0])))
  /\ (forall scale : float, 1 <= GenerateAppIcons.stroke_width scale)
  /\ rounded_parameters (F := float) 20 = [1; 5; 0; 0; 0; 0; 0; 0; 0; 0; 0; 1]
  /\ trunc (GenerateAppIcons.stroke (GenerateAppIcons.scale_of (F := float) 20)) = 0.
Proof.
  split.
  { intros w. destruct (breathing_icon_is_full_square 20 w) as (w' & im & E & Him & _ & Hsz & _);
      [lia |]. exists w', im. auto. }
  split; [intros; apply gradient_without_steps; assumption |].
  split; [intros scale; apply stroke_width_at_least_one |].
  split; vm_compute; reflexivity.
Qed.

(** ** Binary64 arithmetic

    What the vertical gradient needs of the float operations, from
    their specification in the standard library ([SpecFloat], linked to
    the kernel's floats by [FloatAxioms]): rounding is faithful, the
    float of a small integer is exact, and [int(s - 18 * (y / n))] on
    floats is the floor of the exact value for every image of less than
    [2^31] pixels. *)

Module Binary64.

(** ** Mantissas *)

Lemma digits2_pos_bounds (m : positive) :
  2 ^ (Zpos (digits2_pos m) - 1) <= Zpos m < 2 ^ Zpos (digits2_pos m).
Proof.
  induction m as [m IH | m IH |]; cbn [digits2_pos].
  - rewrite Pos2Z.inj_succ. change (Zpos m~1) with (2 * Zpos m + 1).
    replace (Z.succ (Zpos (digits2_pos m)) - 1) with (Z.succ (Zpos (digits2_pos m) - 1)) by lia.
    rewrite !Z.pow_succ_r by lia.
    set (a := 2 ^ (Zpos (digits2_pos m) - 1)) in *.
    set (b := 2 ^ Zpos (digits2_pos m)) in *. lia.
  - rewrite Pos2Z.inj_succ. change (Zpos m~0) with (2 * Zpos m).
    replace (Z.succ (Zpos (digits2_pos m)) - 1) with (Z.succ (Zpos (digits2_pos m) - 1)) by lia.
    rewrite !Z.pow_succ_r by lia.
    set (a := 2 ^ (Zpos (digits2_pos m) - 1)) in *.
    set (b := 2 ^ Zpos (digits2_pos m)) in *. lia.
  - simpl. lia.
Qed.

Lemma digits2_pos_unique (m : positive) (d : Z) :
  2 ^ (d - 1) <= Zpos m < 2 ^ d -> Zpos (digits2_pos m) = d.
Proof.
  intros [Hlo Hhi]. pose proof (digits2_pos_bounds m) as [Hlo' Hhi'].
  assert (Hd : 0 < d).
  { destruct (Z_lt_le_dec 0 d) as [Hd | Hd]; [exact Hd |].
    exfalso. destruct (Z.eq_dec d 0) as [-> | Hne]; [simpl in Hhi; lia |].
    rewrite Z.pow_neg_r in Hhi by lia. lia. }
  destruct (Z_lt_le_dec (Zpos (digits2_pos m)) d) as [Hlt | Hge].
  - exfalso. assert (2 ^ Zpos (digits2_pos m) <= 2 ^ (d - 1))
      by (apply Z.pow_le_mono_r; lia). lia.
  - destruct (Z_lt_le_dec d (Zpos (digits2_pos m))) as [Hlt | Hle]; [| lia].
    exfalso. assert (2 ^ d <= 2 ^ (Zpos (digits2_pos m) - 1))
      by (apply Z.pow_le_mono_r; lia). lia.
Qed.

(** ** Shifting a mantissa to the right *)

Lemma shr_1_m (mrs : shr_record) :
  0 <= shr_m mrs -> shr_m (shr_1 mrs) = shr_m mrs / 2.
Proof.
  destruct mrs as [m r s]. cbn [shr_m]. intros Hm.
  destruct m as [| [p | p |] | p]; cbn [shr_1 shr_m]; try lia.
  - reflexivity.
  - change (Zpos p~1) with (2 * Zpos p + 1). apply (Z.div_unique _ _ _ 1); lia.
  - change (Zpos p~0) with (2 * Zpos p). apply (Z.div_unique _ _ _ 0); lia.
  - reflexivity.
Qed.

Lemma iter_pos_shr_1 (p : positive) (mrs : shr_record) :
  0 <= shr_m mrs ->
  shr_m (SpecFloat.iter_pos shr_1 p mrs) = shr_m mrs / 2 ^ Zpos p.
Proof.
  revert mrs. induction p as [p IH | p IH |]; intros mrs Hm; cbn [SpecFloat.iter_pos].
  - assert (H1 : 0 <= shr_m (shr_1 mrs))
      by (rewrite shr_1_m by exact Hm; apply Z.div_pos; lia).
    assert (H2 : 0 <= shr_m (SpecFloat.iter_pos shr_1 p (shr_1 mrs)))
      by (rewrite IH by exact H1; apply Z.div_pos; [exact H1 | apply Z.pow_pos_nonneg; lia]).
    rewrite (IH _ H2), (IH _ H1), shr_1_m by exact Hm.
    rewrite !Z.div_div by (try apply Z.pow_pos_nonneg; lia).
    f_equal. change (Zpos p~1) with (2 * Zpos p + 1).
    replace (2 * Zpos p + 1) with (1 + Zpos p + Zpos p) by lia.
    rewrite !Z.pow_add_r by lia. change (2 ^ 1) with 2. ring.
  - assert (H2 : 0 <= shr_m (SpecFloat.iter_pos shr_1 p mrs))
      by (rewrite IH by exact Hm; apply Z.div_pos; [exact Hm | apply Z.pow_pos_nonneg; lia]).
    rewrite (IH _ H2), (IH _ Hm).
    rewrite !Z.div_div by (try apply Z.pow_pos_nonneg; lia).
    f_equal. change (Zpos p~0) with (2 * Zpos p).
    replace (2 * Zpos p) with (Zpos p + Zpos p) by lia.
    rewrite !Z.pow_add_r by lia. ring.
  - rewrite shr_1_m by exact Hm. reflexivity.
Qed.

Lemma shr_m_record_of_loc (m : Z) (l : location) : shr_m (shr_record_of_loc m l) = m.
Proof. destruct l as [| []]; reflexivity. Qed.

Lemma round_nearest_even_faithful (m : Z) (l : location) :
  round_nearest_even m l = m \/ round_nearest_even m l = m + 1.
Proof.
  destruct l as [| []]; simpl; auto. destruct (Z.even m); auto.
Qed.

Lemma shr_shift (mrs : shr_record) (e k : Z) :
  0 <= shr_m mrs -> 0 <= k ->
  shr_m (fst (shr mrs e k)) = shr_m mrs / 2 ^ k /\ snd (shr mrs e k) = e + k.
Proof.
  intros Hm Hk. destruct k as [| p | p]; cbn [shr fst snd]; [| | lia].
  - rewrite Z.pow_0_r, Z.div_1_r. lia.
  - split; [apply iter_pos_shr_1, Hm | reflexivity].
Qed.

Lemma Zdigits2_bounds (m : Z) :
  0 < m -> 2 ^ (Zdigits2 m - 1) <= m < 2 ^ Zdigits2 m.
Proof.
  intros Hm. destruct m as [| p | p]; try lia. apply digits2_pos_bounds.
Qed.

Lemma Zdigits2_unique (m d : Z) :
  2 ^ (d - 1) <= m < 2 ^ d -> 0 < m -> Zdigits2 m = d.
Proof.
  intros Hb Hm. destruct m as [| p | p]; try lia. apply digits2_pos_unique, Hb.
Qed.

(** The mantissa that [k] shifts leave of a mantissa of [53 + k] digits
    has 53 digits. *)
Lemma shifted_mantissa (mx d : Z) :
  0 < mx -> Zdigits2 mx = d -> 53 <= d ->
  2 ^ 52 <= mx / 2 ^ (d - 53) < 2 ^ 53.
Proof.
  intros Hmx Hd Hlarge. pose proof (Zdigits2_bounds mx Hmx) as [Hlo Hhi].
  rewrite Hd in Hlo, Hhi.
  assert (Hk : 0 < 2 ^ (d - 53)) by (apply Z.pow_pos_nonneg; lia).
  split.
  - apply Z.div_le_lower_bound; [exact Hk |].
    rewrite <- Z.pow_add_r by lia. replace (d - 53 + 52) with (d - 1) by lia. exact Hlo.
  - apply Z.div_lt_upper_bound; [exact Hk |].
    rewrite <- Z.pow_add_r by lia. replace (d - 53 + 53) with d by lia. exact Hhi.
Qed.

(** Rounding is faithful: a mantissa [mx] of [d >= 53] digits at the
    exponent [ex] is rounded to one of the two neighbours of
    [mx / 2^(d - 53)] at the exponent [ex + d - 53], in the range of the
    normal numbers.  When the upper neighbour is [2^53] it is written
    [2^52] at the next exponent. *)
Lemma binary_round_aux_faithful (sx : bool) (mx ex : Z) (lx : location) (d : Z) :
  0 < mx -> Zdigits2 mx = d -> 53 <= d ->
  -1074 <= ex + d - 53 -> ex + d - 53 < 971 ->
  exists m e,
    binary_round_aux prec emax sx mx ex lx = S754_finite sx m e
    /\ 2 ^ 52 <= Zpos m < 2 ^ 53
    /\ ((e = ex + (d - 53)
         /\ (Zpos m = mx / 2 ^ (d - 53) \/ Zpos m = mx / 2 ^ (d - 53) + 1))
        \/ (e = ex + (d - 53) + 1 /\ Zpos m = 2 ^ 52
            /\ mx / 2 ^ (d - 53) + 1 = 2 ^ 53)).
Proof.
  intros Hmx Hd Hlarge Hlo Hhi.
  pose proof (shifted_mantissa mx d Hmx Hd Hlarge) as HM.
  set (M := mx / 2 ^ (d - 53)) in *.
  unfold binary_round_aux.
  assert (E1 : shr_fexp prec emax mx ex lx
               = shr (shr_record_of_loc mx lx) ex (d - 53)).
  { unfold shr_fexp, fexp, emin. rewrite Hd. f_equal.
    change prec with 53. change emax with 1024. lia. }
  rewrite E1.
  destruct (shr_shift (shr_record_of_loc mx lx) ex (d - 53)) as [Hm1 He1];
    [rewrite shr_m_record_of_loc; lia | lia |].
  rewrite shr_m_record_of_loc in Hm1. fold M in Hm1.
  destruct (shr (shr_record_of_loc mx lx) ex (d - 53)) as [mrs1 e1].
  cbn [fst snd] in Hm1, He1. subst e1. rewrite Hm1.
  destruct (round_nearest_even_faithful M (loc_of_shr_record mrs1)) as [HM2 | HM2];
    rewrite HM2.
  - (* the lower neighbour *)
    assert (E2 : shr_fexp prec emax M (ex + (d - 53)) loc_Exact
                 = (shr_record_of_loc M loc_Exact, ex + (d - 53))).
    { unfold shr_fexp, fexp, emin.
      rewrite (Zdigits2_unique M 53) by (change (53 - 1) with 52; lia).
      change prec with 53. change emax with 1024.
      replace (Z.max (53 + (ex + (d - 53)) - 53) (3 - 1024 - 53) - (ex + (d - 53)))
        with 0 by lia.
      reflexivity. }
    rewrite E2. cbn [shr_m shr_record_of_loc].
    destruct M as [| m | m] eqn:EM; try lia.
    change prec with 53. change emax with 1024.
    rewrite (proj2 (Z.leb_le _ _)) by lia.
    exists m, (ex + (d - 53)). split; [reflexivity |]. split; [lia |]. left. auto.
  - (* the upper neighbour *)
    destruct (Z.eq_dec (M + 1) (2 ^ 53)) as [Htop | Hnot].
    + assert (E2 : shr_fexp prec emax (M + 1) (ex + (d - 53)) loc_Exact
                   = shr (shr_record_of_loc (M + 1) loc_Exact) (ex + (d - 53)) 1).
      { unfold shr_fexp, fexp, emin.
        rewrite (Zdigits2_unique (M + 1) 54) by (rewrite Htop; simpl; lia).
        change prec with 53. change emax with 1024. f_equal. lia. }
      rewrite E2, Htop. cbn.
      change prec with 53. change emax with 1024.
      rewrite (proj2 (Z.leb_le _ _)) by lia.
      eexists _, _. split; [reflexivity |]. split; [simpl; lia |]. right.
      split; [lia |]. split; reflexivity.
    + assert (E2 : shr_fexp prec emax (M + 1) (ex + (d - 53)) loc_Exact
                   = (shr_record_of_loc (M + 1) loc_Exact, ex + (d - 53))).
      { unfold shr_fexp, fexp, emin.
        rewrite (Zdigits2_unique (M + 1) 53) by (change (53 - 1) with 52; lia).
        change prec with 53. change emax with 1024.
        replace (Z.max (53 + (ex + (d - 53)) - 53) (3 - 1024 - 53) - (ex + (d - 53)))
          with 0 by lia.
        reflexivity. }
      rewrite E2. cbn [shr_m shr_record_of_loc].
      destruct (M + 1) as [| m | m] eqn:EM; try lia.
      change prec with 53. change emax with 1024.
      rewrite (proj2 (Z.leb_le _ _)) by lia.
      exists m, (ex + (d - 53)). split; [reflexivity |]. split; [lia |]. left. auto.
Qed.

(** A mantissa of 53 digits in the range of the normal numbers is kept
    as it is. *)
Lemma binary_round_aux_exact (sx : bool) (m : positive) (e : Z) :
  2 ^ 52 <= Zpos m < 2 ^ 53 -> -1074 <= e <= 971 ->
  binary_round_aux prec emax sx (Zpos m) e loc_Exact = S754_finite sx m e.
Proof.
  intros Hm He.
  assert (E : shr_fexp prec emax (Zpos m) e loc_Exact
              = (shr_record_of_loc (Zpos m) loc_Exact, e)).
  { unfold shr_fexp, fexp, emin.
    rewrite (Zdigits2_unique (Zpos m) 53) by (change (53 - 1) with 52; lia).
    change prec with 53. change emax with 1024.
    replace (Z.max (53 + e - 53) (3 - 1024 - 53) - e) with 0 by lia. reflexivity. }
  unfold binary_round_aux. rewrite E. cbn [shr_m shr_record_of_loc loc_of_shr_record
                                            round_nearest_even].
  rewrite E. cbn [shr_m shr_record_of_loc].
  change prec with 53. change emax with 1024.
  rewrite (proj2 (Z.leb_le _ _)) by lia. reflexivity.
Qed.

Lemma iter_xO (p k : positive) : Zpos (Pos.iter xO p k) = Zpos p * 2 ^ Zpos k.
Proof.
  change (Pos.iter xO p k) with (shift_pos k p).
  rewrite shift_pos_correct, Zpower_pos_nat, Zpower_nat_Z, positive_nat_Z. ring.
Qed.

(** The float of a positive integer below [2^53] is the integer itself,
    written with a mantissa of 53 digits. *)
Lemma Z2F_spec (y : Z) :
  0 < y < 2 ^ 53 ->
  Prim2SF (Z2F y)
  = S754_finite false (Z.to_pos (y * 2 ^ (53 - Zdigits2 y))) (Zdigits2 y - 53).
Proof.
  intros Hy. unfold Z2F.
  rewrite Z.abs_eq by lia.
  rewrite (proj2 (Z.ltb_lt _ _)) by lia.
  rewrite (proj2 (Z.ltb_ge _ _)) by lia.
  rewrite of_uint63_spec, Uint63.of_Z_spec, Z.mod_small
    by (split; [lia | apply Z.lt_trans with (2 ^ 53); [lia | reflexivity]]).
  pose proof (Zdigits2_bounds y ltac:(lia)) as [Hlo Hhi].
  destruct y as [| p | p]; try lia.
  cbn [Zdigits2] in *. set (d := Zpos (digits2_pos p)) in *.
  assert (Hd : 1 <= d <= 53).
  { split; [subst d; lia |].
    destruct (Z_lt_le_dec 53 d) as [Hgt | Hle]; [| exact Hle].
    exfalso. assert (2 ^ 53 <= 2 ^ (d - 1)) by (apply Z.pow_le_mono_r; lia). lia. }
  cbn [binary_normalize]. unfold binary_round, shl_align, fexp, emin.
  fold d. change prec with 53. change emax with 1024.
  replace (Z.max (d + 0 - 53) (3 - 1024 - 53) - 0) with (d - 53) by lia.
  replace (Z.max (d + 0 - 53) (3 - 1024 - 53)) with (d - 53) by lia.
  destruct (d - 53) as [| k | k] eqn:Ek; try lia.
  - replace (53 - d) with 0 by lia. rewrite Z.pow_0_r, Z.mul_1_r, Pos2Z.id.
    apply binary_round_aux_exact; [| lia].
    replace d with 53 in * by lia. exact (conj Hlo Hhi).
  - assert (Hm : Zpos (Pos.iter xO p k) = Zpos p * 2 ^ (53 - d))
      by (rewrite iter_xO; f_equal; f_equal; lia).
    rewrite <- Hm, Pos2Z.id.
    apply binary_round_aux_exact; [| lia].
    rewrite Hm.
    assert (Hp : 0 < 2 ^ (53 - d)) by (apply Z.pow_pos_nonneg; lia).
    replace (2 ^ 52) with (2 ^ (d - 1) * 2 ^ (53 - d))
      by (rewrite <- Z.pow_add_r by lia; f_equal; lia).
    replace (2 ^ 53) with (2 ^ d * 2 ^ (53 - d))
      by (rewrite <- Z.pow_add_r by lia; f_equal; lia).
    split; [apply Z.mul_le_mono_nonneg_r; lia | apply Z.mul_lt_mono_pos_r; lia].
Qed.

(** ** Values

    The value of a finite float, scaled by [2^200] so that it is an
    integer for every exponent that occurs below. *)
Definition scaled (m : positive) (e : Z) : Z := Zpos m * 2 ^ (200 + e).

(** Faithful rounding on values: the result is one of the two ends of an
    interval [L, L + U] of floats that holds every value from [mx] to
    [mx + 1] at the exponent [ex], and [U] is at most [2^-52] times the
    value. *)
Lemma binary_round_aux_scaled (sx : bool) (mx ex : Z) (lx : location) (d : Z) :
  0 < mx -> Zdigits2 mx = d -> 53 <= d -> -200 <= ex -> ex + d - 53 < 971 ->
  exists m e L U,
    binary_round_aux prec emax sx mx ex lx = S754_finite sx m e
    /\ 2 ^ 52 <= Zpos m < 2 ^ 53
    /\ ex + (d - 53) <= e <= ex + (d - 53) + 1
    /\ 0 < U /\ 2 ^ 52 * U <= L
    /\ L <= mx * 2 ^ (200 + ex) /\ (mx + 1) * 2 ^ (200 + ex) <= L + U
    /\ (scaled m e = L \/ scaled m e = L + U).
Proof.
  intros Hmx Hd Hlarge Hex Hhi.
  destruct (binary_round_aux_faithful sx mx ex lx d Hmx Hd Hlarge ltac:(lia) Hhi)
    as (m & e & E & Hm & Hcases).
  pose proof (shifted_mantissa mx d Hmx Hd Hlarge) as HM.
  set (k := d - 53) in *. set (M := mx / 2 ^ k) in *.
  assert (Hk : 0 < 2 ^ k) by (apply Z.pow_pos_nonneg; lia).
  assert (HS : 0 < 2 ^ (200 + ex)) by (apply Z.pow_pos_nonneg; lia).
  assert (Hsplit : 2 ^ (200 + (ex + k)) = 2 ^ k * 2 ^ (200 + ex))
    by (rewrite <- Z.pow_add_r by lia; f_equal; lia).
  assert (HMlo : M * 2 ^ k <= mx)
    by (subst M; rewrite Z.mul_comm; apply Z.mul_div_le; exact Hk).
  assert (HMhi : mx + 1 <= (M + 1) * 2 ^ k).
  { pose proof (Z.mul_succ_div_gt mx (2 ^ k) Hk) as Hgt. fold M in Hgt.
    unfold Z.succ in Hgt. rewrite (Z.mul_comm (M + 1)). lia. }
  exists m, e, (M * 2 ^ (200 + (ex + k))), (2 ^ (200 + (ex + k))).
  split; [exact E |]. split; [exact Hm |].
  split; [destruct Hcases as [[-> _] | [-> _]]; lia |].
  rewrite Hsplit.
  set (S := 2 ^ (200 + ex)) in *. set (K := 2 ^ k) in *.
  split; [nia |]. split; [nia |]. split; [nia |]. split; [nia |].
  unfold scaled.
  destruct Hcases as [[-> [-> | ->]] | (-> & -> & Htop)].
  - left. rewrite Hsplit. reflexivity.
  - right. rewrite Hsplit. fold S K. ring.
  - right. replace (200 + (ex + k + 1)) with (1 + (200 + (ex + k))) by lia.
    rewrite Z.pow_add_r, Hsplit by lia. fold S K.
    change (2 ^ 1) with 2. replace M with (2 ^ 53 - 1) by lia.
    change (2 ^ 52) with 4503599627370496. change (2 ^ 53) with 9007199254740992. ring.
Qed.

Lemma mantissa_bounds (y : Z) :
  0 < y < 2 ^ 53 ->
  1 <= Zdigits2 y <= 53
  /\ 2 ^ 52 <= y * 2 ^ (53 - Zdigits2 y) < 2 ^ 53.
Proof.
  intros Hy. pose proof (Zdigits2_bounds y ltac:(lia)) as [Hlo Hhi].
  set (d := Zdigits2 y) in *.
  assert (Hd : 1 <= d <= 53).
  { split.
    - destruct y as [| p | p]; try lia. subst d. cbn [Zdigits2]. lia.
    - destruct (Z_lt_le_dec 53 d) as [Hgt | Hle]; [| exact Hle].
      exfalso. assert (2 ^ 53 <= 2 ^ (d - 1)) by (apply Z.pow_le_mono_r; lia). lia. }
  split; [exact Hd |].
  assert (Hp : 0 < 2 ^ (53 - d)) by (apply Z.pow_pos_nonneg; lia).
  replace (2 ^ 52) with (2 ^ (d - 1) * 2 ^ (53 - d))
    by (rewrite <- Z.pow_add_r by lia; f_equal; lia).
  replace (2 ^ 53) with (2 ^ d * 2 ^ (53 - d))
    by (rewrite <- Z.pow_add_r by lia; f_equal; lia).
  split; [apply Z.mul_le_mono_nonneg_r; lia | apply Z.mul_lt_mono_pos_r; lia].
Qed.

Lemma Z2F_finite (y : Z) :
  0 < y < 2 ^ 53 ->
  exists m,
    Prim2SF (Z2F y) = S754_finite false m (Zdigits2 y - 53)
    /\ Zpos m = y * 2 ^ (53 - Zdigits2 y)
    /\ 2 ^ 52 <= Zpos m < 2 ^ 53.
Proof.
  intros Hy. destruct (mantissa_bounds y Hy) as [Hd Hm].
  exists (Z.to_pos (y * 2 ^ (53 - Zdigits2 y))).
  split; [apply Z2F_spec, Hy |].
  rewrite Z2Pos.id by lia. auto.
Qed.

(** The quotient of two mantissas of 53 digits. *)
Lemma SFdiv_core_mantissas (mx my : positive) (ex ey : Z) :
  2 ^ 52 <= Zpos mx < 2 ^ 53 -> 2 ^ 52 <= Zpos my < 2 ^ 53 ->
  -1021 <= ex - ey ->
  SFdiv_core_binary prec emax (Zpos mx) ex (Zpos my) ey
  = ((Zpos mx * 2 ^ 53) / Zpos my, ex - ey - 53,
     new_location (Zpos my) ((Zpos mx * 2 ^ 53) mod Zpos my)).
Proof.
  intros Hx Hy He. unfold SFdiv_core_binary.
  rewrite (Zdigits2_unique (Zpos mx) 53), (Zdigits2_unique (Zpos my) 53)
    by (change (53 - 1) with 52; lia).
  unfold fexp, emin. change prec with 53. change emax with 1024.
  replace (Z.min (Z.max (53 + ex - (53 + ey) - 53) (3 - 1024 - 53)) (ex - ey))
    with (ex - ey - 53) by lia.
  replace (ex - ey - (ex - ey - 53)) with 53 by lia.
  cbv beta iota zeta.
  rewrite Z.shiftl_mul_pow2 by lia.
  unfold Z.div, Z.modulo.
  destruct (Z.div_eucl (Zpos mx * 2 ^ 53) (Zpos my)) as [q r]. reflexivity.
Qed.

Lemma Zdigits2_large (m : Z) : 2 ^ 52 <= m -> 53 <= Zdigits2 m.
Proof.
  intros Hm. pose proof (Zdigits2_bounds m ltac:(lia)) as [_ Hhi].
  destruct (Z_lt_le_dec (Zdigits2 m) 53) as [Hlt | Hge]; [| exact Hge].
  exfalso. assert (2 ^ Zdigits2 m <= 2 ^ 52).
  { destruct (Z_lt_le_dec (Zdigits2 m) 0) as [Hneg | Hpos].
    - rewrite Z.pow_neg_r by exact Hneg. lia.
    - apply Z.pow_le_mono_r; lia. }
  lia.
Qed.

Lemma Zdigits2_small (m d : Z) : 0 < m -> 0 <= d -> m < 2 ^ d -> Zdigits2 m <= d.
Proof.
  intros Hm Hd Hlt. pose proof (Zdigits2_bounds m Hm) as [Hlo _].
  destruct (Z_lt_le_dec d (Zdigits2 m)) as [Hgt | Hle]; [| exact Hle].
  exfalso. assert (2 ^ d <= 2 ^ (Zdigits2 m - 1)) by (apply Z.pow_le_mono_r; lia). lia.
Qed.

(** The float quotient of two positive integers below [2^53] is one of
    the two ends of an interval of floats [L, L + U] that holds the
    exact quotient, with [U] at most [2^-52] times the quotient. *)
Lemma div_faithful (y n : Z) :
  0 < y < 2 ^ 53 -> 0 < n < 2 ^ 53 ->
  exists m e L U,
    Prim2SF (Z2F y / Z2F n) = S754_finite false m e
    /\ 2 ^ 52 <= Zpos m < 2 ^ 53
    /\ Zdigits2 y - Zdigits2 n - 53 <= e <= Zdigits2 y - Zdigits2 n - 51
    /\ 0 < U /\ 2 ^ 52 * U <= L
    /\ L * n <= y * 2 ^ 200 /\ y * 2 ^ 200 < (L + U) * n
    /\ (scaled m e = L \/ scaled m e = L + U).
Proof.
  intros Hy Hn.
  destruct (Z2F_finite y Hy) as (mx & Ex & Hmx & Hbx).
  destruct (Z2F_finite n Hn) as (my & Ey & Hmy & Hby).
  destruct (mantissa_bounds y Hy) as [Hdy _].
  destruct (mantissa_bounds n Hn) as [Hdn _].
  set (dy := Zdigits2 y) in *. set (dn := Zdigits2 n) in *.
  rewrite div_spec, Ex, Ey. unfold SF64div, SFdiv.
  rewrite SFdiv_core_mantissas by (assumption || lia).
  cbn [xorb]. replace (dy - 53 - (dn - 53) - 53) with (dy - dn - 53) by lia.
  set (q := Zpos mx * 2 ^ 53 / Zpos my).
  assert (Hqlo : q * Zpos my <= Zpos mx * 2 ^ 53)
    by (subst q; rewrite Z.mul_comm; apply Z.mul_div_le; lia).
  assert (Hqhi : Zpos mx * 2 ^ 53 < (q + 1) * Zpos my).
  { pose proof (Z.mul_succ_div_gt (Zpos mx * 2 ^ 53) (Zpos my) ltac:(lia)) as Hgt.
    fold q in Hgt. unfold Z.succ in Hgt. lia. }
  assert (Hq : 2 ^ 52 <= q < 2 ^ 54).
  { change (2 ^ 52) with 4503599627370496 in *.
    change (2 ^ 53) with 9007199254740992 in *.
    change (2 ^ 54) with 18014398509481984. nia. }
  pose proof (Zdigits2_large q ltac:(lia)) as Hdq.
  pose proof (Zdigits2_small q 54 ltac:(lia) ltac:(lia) ltac:(lia)) as Hdq'.
  destruct (binary_round_aux_scaled false q (dy - dn - 53)
              (new_location (Zpos my) ((Zpos mx * 2 ^ 53) mod Zpos my))
              (Zdigits2 q) ltac:(lia) eq_refl Hdq ltac:(lia) ltac:(lia))
    as (m & e & L & U & E & Hm & He & HU & HLU & HL & HR & Hval).
  exists m, e, L, U.
  split; [exact E |]. split; [exact Hm |]. split; [lia |].
  split; [exact HU |]. split; [exact HLU |].
  assert (HA : 0 < 2 ^ (53 - dy)) by (apply Z.pow_pos_nonneg; lia).
  assert (HB : 0 < 2 ^ (53 - dn)) by (apply Z.pow_pos_nonneg; lia).
  assert (HS : 0 < 2 ^ (200 + (dy - dn - 53))) by (apply Z.pow_pos_nonneg; lia).
  assert (Hid : 2 ^ (200 + (dy - dn - 53)) * 2 ^ (53 - dy) * 2 ^ 53
                = 2 ^ 200 * 2 ^ (53 - dn))
    by (rewrite <- !Z.pow_add_r by lia; f_equal; lia).
  set (A := 2 ^ (53 - dy)) in *. set (B := 2 ^ (53 - dn)) in *.
  set (S := 2 ^ (200 + (dy - dn - 53))) in *.
  set (T := 2 ^ 200) in *. set (P := 2 ^ 53) in *.
  assert (HT : 0 < T) by (subst T; apply Z.pow_pos_nonneg; lia).
  assert (H1 : S * (q * Zpos my) <= S * (Zpos mx * P))
    by (apply Z.mul_le_mono_nonneg_l; lia).
  assert (H2 : S * (Zpos mx * P) < S * ((q + 1) * Zpos my))
    by (apply Z.mul_lt_mono_pos_l; lia).
  assert (H3 : S * (Zpos mx * P) = y * T * B) by (rewrite Hmx; nia).
  rewrite Hmy in H1, H2.
  split; [| split; [| exact Hval]].
  - apply (Z.mul_le_mono_pos_r _ _ B HB).
    apply Z.le_trans with (S * (q * (n * B))); [| lia].
    replace (L * n * B) with (L * (n * B)) by ring.
    replace (S * (q * (n * B))) with (q * S * (n * B)) by ring.
    apply Z.mul_le_mono_nonneg_r; lia.
  - apply (Z.mul_lt_mono_pos_r B _ _ HB).
    apply Z.lt_le_trans with (S * ((q + 1) * (n * B))); [lia |].
    replace ((L + U) * n * B) with ((L + U) * (n * B)) by ring.
    replace (S * ((q + 1) * (n * B))) with ((q + 1) * S * (n * B)) by ring.
    apply Z.mul_le_mono_nonneg_r; lia.
Qed.

Lemma Zdigits2_ge (m d : Z) : 0 < m -> 2 ^ (d - 1) <= m -> d <= Zdigits2 m.
Proof.
  intros Hm Hlo. pose proof (Zdigits2_bounds m Hm) as [_ Hhi].
  destruct (Z_lt_le_dec (Zdigits2 m) d) as [Hlt | Hge]; [| exact Hge].
  exfalso. assert (2 ^ Zdigits2 m <= 2 ^ (d - 1)).
  { destruct (Z_lt_le_dec (Zdigits2 m) 0) as [Hneg | Hpos].
    - rewrite Z.pow_neg_r by exact Hneg. lia.
    - apply Z.pow_le_mono_r; lia. }
  lia.
Qed.

(** [-18 * p] for a positive float [p] below [2^53]. *)
Lemma mul18_faithful (p : float) (mp : positive) (ep : Z) :
  Prim2SF p = S754_finite false mp ep ->
  2 ^ 52 <= Zpos mp < 2 ^ 53 -> -152 <= ep <= 0 ->
  exists m e L U,
    Prim2SF (Z2F (-18) * p) = S754_finite true m e
    /\ 2 ^ 52 <= Zpos m < 2 ^ 53
    /\ ep + 4 <= e <= ep + 6
    /\ 0 < U /\ 2 ^ 52 * U <= L
    /\ L <= 18 * scaled mp ep /\ 18 * scaled mp ep < L + U
    /\ (scaled m e = L \/ scaled m e = L + U).
Proof.
  intros Ep Hmp Hep.
  assert (E18 : Prim2SF (Z2F (-18)) = S754_finite true 5066549580791808 (-48))
    by (vm_compute; reflexivity).
  rewrite mul_spec, E18, Ep. unfold SF64mul, SFmul. cbn [xorb].
  rewrite Pos2Z.inj_mul.
  set (mx := 5066549580791808 * Zpos mp).
  assert (Hmx : 2 ^ 104 <= mx < 2 ^ 106).
  { subst mx. change (2 ^ 52) with 4503599627370496 in Hmp.
    change (2 ^ 53) with 9007199254740992 in Hmp.
    change (2 ^ 104) with (4503599627370496 * 4503599627370496).
    change (2 ^ 106) with (9007199254740992 * 9007199254740992). nia. }
  pose proof (Zdigits2_ge mx 105 ltac:(lia) (proj1 Hmx)) as Hd.
  pose proof (Zdigits2_small mx 106 ltac:(lia) ltac:(lia) (proj2 Hmx)) as Hd'.
  destruct (binary_round_aux_scaled true mx (-48 + ep) loc_Exact (Zdigits2 mx)
              ltac:(lia) eq_refl ltac:(lia) ltac:(lia) ltac:(lia))
    as (m & e & L & U & E & Hm & He & HU & HLU & HL & HR & Hval).
  exists m, e, L, U.
  split; [exact E |]. split; [exact Hm |]. split; [lia |].
  split; [exact HU |]. split; [exact HLU |].
  assert (Hv : mx * 2 ^ (200 + (-48 + ep)) = 18 * scaled mp ep).
  { unfold scaled. subst mx.
    replace (200 + ep) with (48 + (200 + (-48 + ep))) by lia.
    rewrite (Z.pow_add_r 2 48 (200 + (-48 + ep))) by lia.
    change (2 ^ 48) with 281474976710656. ring. }
  assert (HS : 0 < 2 ^ (200 + (-48 + ep))) by (apply Z.pow_pos_nonneg; lia).
  rewrite <- Hv. split; [exact HL |]. split; [| exact Hval].
  apply Z.lt_le_trans with ((mx + 1) * 2 ^ (200 + (-48 + ep))); [| exact HR].
  apply Z.mul_lt_mono_pos_r; lia.
Qed.

(** [s + q] for an integer [s] from 56 to 127 and a negative float [q]
    of absolute value at most 19. *)
Lemma add_faithful (s : Z) (q : float) (mq : positive) (eq : Z) :
  56 <= s < 128 ->
  Prim2SF q = S754_finite true mq eq ->
  2 ^ 52 <= Zpos mq < 2 ^ 53 -> -152 <= eq <= -48 ->
  scaled mq eq <= 19 * 2 ^ 200 ->
  exists m e L U,
    Prim2SF (Z2F s + q) = S754_finite false m e
    /\ 2 ^ 52 <= Zpos m < 2 ^ 53
    /\ -200 <= e < 0
    /\ 0 < U /\ 2 ^ 52 * U <= L
    /\ L <= s * 2 ^ 200 - scaled mq eq /\ s * 2 ^ 200 - scaled mq eq < L + U
    /\ (scaled m e = L \/ scaled m e = L + U).
Proof.
  intros Hs Eq Hmq Heq Hq.
  destruct (Z2F_finite s ltac:(change (2 ^ 53) with 9007199254740992; lia))
    as (ms & Es & Hms & Hbs).
  assert (Hds : 6 <= Zdigits2 s <= 7).
  { split; [apply Zdigits2_ge; simpl; lia | apply Zdigits2_small; simpl; lia]. }
  set (ds := Zdigits2 s) in *.
  rewrite add_spec, Es, Eq. unfold SF64add, SFadd.
  rewrite Z.min_r by lia.
  unfold shl_align at 2. rewrite Z.sub_diag. cbn [fst cond_Zopp].
  unfold shl_align.
  destruct (eq - (ds - 53)) as [| k | k] eqn:Ek; try lia.
  cbn [fst]. rewrite iter_xO.
  replace (Zpos k) with (ds - 53 - eq) by lia.
  set (sum := Zpos ms * 2 ^ (ds - 53 - eq) + - Zpos mq).
  assert (HK : 0 < 2 ^ (ds - 53 - eq)) by (apply Z.pow_pos_nonneg; lia).
  assert (HS : 0 < 2 ^ (200 + eq)) by (apply Z.pow_pos_nonneg; lia).
  assert (Hv : sum * 2 ^ (200 + eq) = s * 2 ^ 200 - scaled mq eq).
  { unfold scaled. subst sum. rewrite Hms.
    replace (2 ^ 200) with (2 ^ (53 - ds) * 2 ^ (ds - 53 - eq) * 2 ^ (200 + eq))
      by (rewrite <- !Z.pow_add_r by lia; f_equal; lia).
    ring. }
  assert (Hsum : 2 ^ 53 <= sum < 2 ^ (7 - eq)).
  { assert (H37 : 37 * 2 ^ 200 <= sum * 2 ^ (200 + eq)) by lia.
    assert (H128 : sum * 2 ^ (200 + eq) < 128 * 2 ^ 200)
      by (unfold scaled in Hv; nia).
    assert (Hsplit : 2 ^ 200 = 2 ^ (-eq) * 2 ^ (200 + eq))
      by (rewrite <- Z.pow_add_r by lia; f_equal; lia).
    assert (Hneg : 2 ^ 48 <= 2 ^ (-eq)) by (apply Z.pow_le_mono_r; lia).
    rewrite Hsplit in H37, H128.
    replace (2 ^ (7 - eq)) with (128 * 2 ^ (-eq))
      by (change 128 with (2 ^ 7); rewrite <- Z.pow_add_r by lia; f_equal; lia).
    set (N := 2 ^ (-eq)) in *. set (S := 2 ^ (200 + eq)) in *.
    change (2 ^ 48) with 281474976710656 in Hneg.
    change (2 ^ 53) with 9007199254740992. split; nia. }
  pose proof (Zdigits2_ge sum 54 ltac:(lia) ltac:(simpl; lia)) as Hd.
  pose proof (Zdigits2_small sum (7 - eq) ltac:(lia) ltac:(lia) (proj2 Hsum)) as Hd'.
  destruct sum as [| psum | psum] eqn:Esum; try lia.
  cbn [binary_normalize]. unfold binary_round, shl_align, fexp, emin.
  change (Zpos (digits2_pos psum)) with (Zdigits2 (Zpos psum)).
  set (d := Zdigits2 (Zpos psum)) in *.
  change prec with 53. change emax with 1024.
  replace (Z.max (d + eq - 53) (3 - 1024 - 53) - eq) with (d - 53) by lia.
  destruct (d - 53) as [| k' | k'] eqn:Ek'; try lia.
  destruct (binary_round_aux_scaled false (Zpos psum) eq loc_Exact d
              ltac:(lia) eq_refl ltac:(lia) ltac:(lia) ltac:(lia))
    as (m & e & L & U & E & Hm & He & HU & HLU & HL & HR & Hval).
  exists m, e, L, U.
  split; [exact E |]. split; [exact Hm |]. split; [lia |].
  split; [exact HU |]. split; [exact HLU |].
  rewrite <- Hv. split; [exact HL |]. split; [| exact Hval].
  apply Z.lt_le_trans with ((Zpos psum + 1) * 2 ^ (200 + eq)); [| exact HR].
  apply Z.mul_lt_mono_pos_r; lia.
Qed.

(** [int(v)] for a positive float below 1 in exponent. *)
Lemma py_int_scaled (v : float) (m : positive) (e c : Z) :
  Prim2SF v = S754_finite false m e -> -200 <= e < 0 ->
  c * 2 ^ 200 <= scaled m e < (c + 1) * 2 ^ 200 ->
  py_int v = c.
Proof.
  intros E He [Hlo Hhi]. unfold py_int. rewrite E.
  destruct e as [| p | p]; try lia.
  rewrite Z.shiftr_div_pow2 by lia.
  unfold scaled in Hlo, Hhi.
  assert (Hsplit : 2 ^ 200 = 2 ^ Zpos p * 2 ^ (200 + Zneg p))
    by (rewrite <- Z.pow_add_r by lia; f_equal; lia).
  assert (HP : 0 < 2 ^ Zpos p) by (apply Z.pow_pos_nonneg; lia).
  assert (HS : 0 < 2 ^ (200 + Zneg p)) by (apply Z.pow_pos_nonneg; lia).
  rewrite Hsplit in Hlo, Hhi.
  set (P := 2 ^ Zpos p) in *. set (S := 2 ^ (200 + Zneg p)) in *.
  symmetry. apply (Z.div_unique_pos _ _ _ (Zpos m - c * P)); nia.
Qed.

Lemma pow2_lt_inv (a b : Z) : 0 <= a -> 2 ^ a < 2 ^ b -> a < b.
Proof.
  intros Ha Hlt. destruct (Z_lt_le_dec a b) as [H | H]; [exact H |].
  exfalso. destruct (Z_lt_le_dec b 0) as [Hneg | Hpos].
  - rewrite (Z.pow_neg_r 2 b) in Hlt by exact Hneg.
    pose proof (Z.pow_pos_nonneg 2 a ltac:(lia) Ha). lia.
  - assert (2 ^ b <= 2 ^ a) by (apply Z.pow_le_mono_r; lia). lia.
Qed.

(** The interpolation of a channel on floats, where the exact value is
    not an integer: the three roundings move the result by less than the
    distance [1 / n] to the nearest integer. *)
Lemma lerp_floor_inexact (s y n : Z) :
  56 <= s < 128 -> 0 < y < n -> n < 2 ^ 31 -> (s * n - 18 * y) mod n <> 0 ->
  py_int (Z2F s + Z2F (-18) * (Z2F y / Z2F n)) = (s * n - 18 * y) / n.
Proof.
  intros Hs Hy Hn Hr.
  assert (H31 : 2 ^ 31 < 2 ^ 53) by reflexivity.
  pose proof (Zdigits2_small y 31 ltac:(lia) ltac:(lia) ltac:(lia)) as Hdy.
  pose proof (Zdigits2_small n 31 ltac:(lia) ltac:(lia) ltac:(lia)) as Hdn.
  destruct (mantissa_bounds y ltac:(lia)) as [Hdy' _].
  destruct (mantissa_bounds n ltac:(lia)) as [Hdn' _].
  destruct (div_faithful y n ltac:(lia) ltac:(lia))
    as (mp & ep & L1 & U1 & E1 & Hmp & Hep & HU1 & HLU1 & HL1 & HR1 & Hv1).
  destruct (mul18_faithful _ mp ep E1 Hmp ltac:(lia))
    as (mq & eq & L2 & U2 & E2 & Hmq & Heq & HU2 & HLU2 & HL2 & HR2 & Hv2).
  assert (Heq_lo : -152 <= eq) by lia.
  assert (Hpow : 2 ^ 52 * 2 ^ (200 + eq) <= scaled mq eq)
    by (unfold scaled; apply Z.mul_le_mono_nonneg_r; [apply Z.pow_nonneg; lia | lia]).
  rewrite <- (Z.pow_add_r 2 52 (200 + eq)) in Hpow by lia.
  assert (HT : 2 ^ 200 = 2 ^ 52 * 2 ^ 148) by reflexivity.
  assert (H205 : 19 * 2 ^ 200 < 2 ^ 205) by reflexivity.
  assert (H31' : 2 ^ 31 = 2147483648) by reflexivity.
  assert (C52 : 2 ^ 52 = 4503599627370496) by reflexivity.
  assert (HW : 0 < 2 ^ 148) by reflexivity.
  set (P := scaled mp ep) in *. set (Q := scaled mq eq) in *.
  set (T := 2 ^ 200) in *. set (W := 2 ^ 148) in *.
  rewrite C52 in HLU1, HLU2, HT. rewrite H31' in Hn.
  clear Hmp Hep Hdy Hdn Hdy' Hdn' H31 H31' E1.
  assert (HL1T : L1 < T) by (clear - HL1 Hy HW HT; nia).
  assert (HU1W : U1 < W) by lia.
  assert (HQb : Q <= 19 * T) by lia.
  assert (Heq' : eq <= -48).
  { assert (2 ^ (52 + (200 + eq)) < 2 ^ 205) by lia.
    apply pow2_lt_inv in H; lia. }
  destruct (add_faithful s _ mq eq Hs E2 Hmq ltac:(lia) HQb)
    as (mv & ev & L3 & U3 & E3 & Hmv & Hev & HU3 & HLU3 & HL3 & HR3 & Hv3).
  fold T in HL3, HR3. fold Q in HL3, HR3. rewrite C52 in HLU3.
  apply (py_int_scaled _ mv ev _ E3 Hev). fold T.
  set (V := scaled mv ev) in *.
  clear E2 E3 Hmq Hmv Hpow H205 C52 Heq Heq' Heq_lo Hev.
  set (c := (s * n - 18 * y) / n).
  pose proof (Z.div_mod (s * n - 18 * y) n ltac:(lia)) as Hdm. fold c in Hdm.
  pose proof (Z.mod_pos_bound (s * n - 18 * y) n ltac:(lia)) as Hmod.
  set (r := (s * n - 18 * y) mod n) in *.
  clearbody c r T W P Q V.
  assert (HT0 : 0 < T) by lia.
  assert (HsT : 56 * T <= s * T <= 127 * T)
    by (split; apply Z.mul_le_mono_nonneg_r; lia).
  assert (HU2b : U2 <= 32 * W) by lia.
  assert (HU3b : U3 <= 128 * W) by lia.
  assert (Hn0 : 0 < n) by lia.
  assert (HE : (18 * U1 + U2 + U3) * n < T).
  { apply Z.le_lt_trans with (178 * W * 2147483648); [| lia].
    apply Z.mul_le_mono_nonneg; lia. }
  assert (HPn_hi : P * n <= (L1 + U1) * n) by (apply Z.mul_le_mono_nonneg_r; lia).
  assert (HPn_lo : L1 * n <= P * n) by (apply Z.mul_le_mono_nonneg_r; lia).
  assert (HQn_hi : Q * n <= (18 * P + U2) * n) by (apply Z.mul_le_mono_nonneg_r; lia).
  assert (HQn_lo : (18 * P - U2) * n <= Q * n) by (apply Z.mul_le_mono_nonneg_r; lia).
  assert (HVn_lo : (s * T - Q - U3) * n < V * n)
    by (apply (proj1 (Z.mul_lt_mono_pos_r n _ _ Hn0)); lia).
  assert (HVn_hi : V * n <= (s * T - Q + U3) * n) by (apply Z.mul_le_mono_nonneg_r; lia).
  assert (HrT : 1 * T <= r * T <= (n - 1) * T)
    by (split; apply Z.mul_le_mono_nonneg_r; lia).
  assert (Hy' : (s * n - 18 * y) * T = (n * c + r) * T) by (rewrite <- Hdm; reflexivity).
  split.
  - apply (proj2 (Z.mul_le_mono_pos_r _ _ n Hn0)).
    lia.
  - apply (proj2 (Z.mul_lt_mono_pos_r n _ _ Hn0)).
    lia.
Qed.

(** Where the remainder [r] of a division by [b] lies in a unit. *)
Definition quotient_location (b r : Z) : location :=
  if r =? 0 then loc_Exact else loc_Inexact (2 * r ?= b).

Lemma new_location_scaled (b r c : Z) :
  0 < c -> Z.even c = true ->
  new_location (b * c) (r * c) = quotient_location b r.
Proof.
  intros Hc Heven. unfold new_location, new_location_even, quotient_location.
  rewrite Z.even_mul, Heven, orb_true_r.
  destruct (Z.eqb_spec r 0) as [-> | Hr].
  - reflexivity.
  - destruct (Z.eqb_spec (r * c) 0) as [Hz | _]; [nia |].
    f_equal. rewrite Z.mul_assoc. symmetry. apply Zmult_compare_compat_r. lia.
Qed.

(** The float quotient of two positive integers, from the integers
    themselves: a quotient of 53 or 54 digits, then one rounding. *)
Lemma div_exact_form (y n : Z) :
  0 < y < 2 ^ 52 -> 0 < n < 2 ^ 52 ->
  let shift := 53 + (Zdigits2 n - Zdigits2 y) in
  Prim2SF (Z2F y / Z2F n)
  = binary_round_aux prec emax false ((y * 2 ^ shift) / n) (- shift)
      (quotient_location n ((y * 2 ^ shift) mod n)).
Proof.
  intros Hy Hn shift.
  assert (H52 : 2 ^ 52 < 2 ^ 53) by reflexivity.
  destruct (Z2F_finite y ltac:(lia)) as (mx & Ex & Hmx & Hbx).
  destruct (Z2F_finite n ltac:(lia)) as (my & Ey & Hmy & Hby).
  destruct (mantissa_bounds y ltac:(lia)) as [Hdy _].
  destruct (mantissa_bounds n ltac:(lia)) as [Hdn _].
  pose proof (Zdigits2_small n 52 ltac:(lia) ltac:(lia) ltac:(lia)) as Hdn'.
  subst shift.
  set (dy := Zdigits2 y) in *. set (dn := Zdigits2 n) in *.
  rewrite div_spec, Ex, Ey. unfold SF64div, SFdiv.
  rewrite SFdiv_core_mantissas by (assumption || lia).
  cbn [xorb]. replace (dy - 53 - (dn - 53) - 53) with (- (53 + (dn - dy))) by lia.
  assert (Hnum : Zpos mx * 2 ^ 53 = y * 2 ^ (53 + (dn - dy)) * 2 ^ (53 - dn)).
  { rewrite Hmx, <- !Z.mul_assoc, <- !Z.pow_add_r by lia. do 2 f_equal. lia. }
  assert (HB : 0 < 2 ^ (53 - dn)) by (apply Z.pow_pos_nonneg; lia).
  assert (Heven : Z.even (2 ^ (53 - dn)) = true).
  { replace (53 - dn) with (Z.succ (52 - dn)) by lia.
    rewrite Z.pow_succ_r by lia. rewrite Z.even_mul. reflexivity. }
  rewrite Hnum, Hmy.
  rewrite Z.div_mul_cancel_r by lia.
  rewrite Z.mul_mod_distr_r by lia.
  rewrite new_location_scaled by assumption.
  reflexivity.
Qed.

(** Two equal fractions have the same quotient and the same location. *)
Lemma quotient_of_equal_fractions (y n k X : Z) :
  0 < n -> 18 * y = k * n ->
  (y * X) / n = (k * X) / 18
  /\ quotient_location n ((y * X) mod n) = quotient_location 18 ((k * X) mod 18).
Proof.
  intros Hn Hfrac.
  assert (Hq : (y * X) / n = (k * X) / 18).
  { rewrite <- (Z.div_mul_cancel_l (y * X) n 18) by lia.
    rewrite <- (Z.div_mul_cancel_r (k * X) 18 n) by lia.
    f_equal. rewrite Z.mul_assoc, Hfrac. ring. }
  split; [exact Hq |].
  pose proof (Z.div_mod (y * X) n ltac:(lia)) as H1.
  pose proof (Z.div_mod (k * X) 18 ltac:(lia)) as H2.
  pose proof (Z.mod_pos_bound (y * X) n Hn) as B1.
  pose proof (Z.mod_pos_bound (k * X) 18 ltac:(lia)) as B2.
  rewrite Hq in H1.
  set (q := (k * X) / 18) in *. set (r1 := (y * X) mod n) in *.
  set (r2 := (k * X) mod 18) in *.
  assert (Hr : 18 * r1 = n * r2) by nia.
  unfold quotient_location.
  destruct (Z.eqb_spec r1 0) as [E1 | N1]; destruct (Z.eqb_spec r2 0) as [E2 | N2];
    try reflexivity; try nia.
  f_equal.
  destruct (Z.compare_spec (2 * r2) 18) as [C | C | C];
    [apply Z.compare_eq_iff | apply Z.compare_lt_iff | apply Z.compare_gt_iff]; nia.
Qed.

(** [int(f)] on the specification of a float. *)
Definition trunc_SF (x : spec_float) : Z :=
  match x with
  | S754_finite s m e =>
      let a := match e with
               | Z0 => Zpos m
               | Zpos p => Z.shiftl (Zpos m) (Zpos p)
               | Zneg p => Z.shiftr (Zpos m) (Zpos p)
               end in
      if s then - a else a
  | _ => 0
  end.

Lemma py_int_trunc (f : float) : py_int f = trunc_SF (Prim2SF f).
Proof. reflexivity. Qed.

(** The channel computed on floats when [y / n] is [k / 18]: the
    quotient is rounded from [k * 2^shift / 18], whatever [y] and [n]. *)
Definition exact_channel (s k delta : Z) : Z :=
  trunc_SF
    (SF64add (Prim2SF (Z2F s))
       (SF64mul (Prim2SF (Z2F (-18)))
          (binary_round_aux prec emax false
             ((k * 2 ^ (53 + delta)) / 18) (- (53 + delta))
             (quotient_location 18 ((k * 2 ^ (53 + delta)) mod 18))))).

Definition exact_case_ok (k delta : Z) : bool :=
  implb ((k * 2 ^ delta <? 36) && (18 <? k * 2 ^ (delta + 1)))
    (Interval.all_between 56 127 (fun s => exact_channel s k delta =? s - k)).

Lemma exact_cases_checked :
  Interval.all_between 1 17 (fun k => Interval.all_between 0 5 (exact_case_ok k)) = true.
Proof. vm_compute. reflexivity. Qed.

(** The interpolation of a channel on floats, where the exact value is
    an integer: [y / n] is then [k / 18] for some [k] from 1 to 17, and
    the float quotient is the same for all such [y] and [n]. *)
Lemma lerp_floor_exact (s y n : Z) :
  56 <= s < 128 -> 0 < y < n -> n < 2 ^ 31 -> (s * n - 18 * y) mod n = 0 ->
  py_int (Z2F s + Z2F (-18) * (Z2F y / Z2F n)) = (s * n - 18 * y) / n.
Proof.
  intros Hs Hy Hn Hmod.
  assert (H31 : 2 ^ 31 < 2 ^ 52) by reflexivity.
  pose proof (Z.div_mod (s * n - 18 * y) n ltac:(lia)) as Hdm.
  rewrite Hmod, Z.add_0_r in Hdm.
  set (c := (s * n - 18 * y) / n) in *.
  set (k := s - c).
  assert (Hfrac : 18 * y = k * n) by (subst k; nia).
  assert (Hk : 1 <= k <= 17) by nia.
  pose proof (Zdigits2_bounds y ltac:(lia)) as [Hylo Hyhi].
  pose proof (Zdigits2_bounds n ltac:(lia)) as [Hnlo Hnhi].
  destruct (mantissa_bounds y ltac:(lia)) as [Hdy _].
  destruct (mantissa_bounds n ltac:(lia)) as [Hdn _].
  set (dy := Zdigits2 y) in *. set (dn := Zdigits2 n) in *.
  set (delta := dn - dy).
  assert (Hdelta : 0 <= delta).
  { destruct (Z_lt_le_dec delta 0) as [Hneg | Hpos]; [| exact Hpos]. exfalso.
    assert (2 ^ dn <= 2 ^ (dy - 1)) by (apply Z.pow_le_mono_r; lia). lia. }
  assert (Hp1 : 2 ^ (dn - 1) = 2 ^ delta * 2 ^ (dy - 1))
    by (rewrite <- Z.pow_add_r by lia; f_equal; lia).
  assert (Hp2 : 2 ^ dn = 2 * 2 ^ delta * 2 ^ (dy - 1)).
  { replace dn with (1 + delta + (dy - 1)) at 1 by lia.
    rewrite !Z.pow_add_r by lia. reflexivity. }
  assert (Hp3 : 2 ^ dy = 2 * 2 ^ (dy - 1)).
  { replace dy with (1 + (dy - 1)) at 1 by lia. rewrite Z.pow_add_r by lia. reflexivity. }
  assert (Hp4 : 2 ^ (delta + 1) = 2 * 2 ^ delta)
    by (rewrite Z.pow_add_r by lia; change (2 ^ 1) with 2; ring).
  assert (HE : 0 < 2 ^ delta) by (apply Z.pow_pos_nonneg; lia).
  assert (HD : 0 < 2 ^ (dy - 1)) by (apply Z.pow_pos_nonneg; lia).
  rewrite Hp1 in Hnlo. rewrite Hp2 in Hnhi. rewrite Hp3 in Hyhi.
  assert (Hc1 : k * 2 ^ delta < 36).
  { set (E := 2 ^ delta) in *. set (D := 2 ^ (dy - 1)) in *.
    clearbody E D. clear - Hk HE HD Hnlo Hyhi Hfrac. nia. }
  assert (Hc2 : 18 < k * 2 ^ (delta + 1)).
  { rewrite Hp4. set (E := 2 ^ delta) in *. set (D := 2 ^ (dy - 1)) in *.
    clearbody E D. clear - Hk HE HD Hnhi Hylo Hfrac. nia. }
  assert (Hdelta' : delta <= 5).
  { destruct (Z_lt_le_dec 5 delta) as [Hgt | Hle]; [| exact Hle]. exfalso.
    assert (2 ^ 6 <= 2 ^ delta) by (apply Z.pow_le_mono_r; lia).
    change (2 ^ 6) with 64 in *. nia. }
  rewrite py_int_trunc, add_spec, mul_spec.
  rewrite (div_exact_form y n) by lia. cbv zeta. fold dy dn delta.
  destruct (quotient_of_equal_fractions y n k (2 ^ (53 + delta)) ltac:(lia) Hfrac)
    as [-> ->].
  fold (exact_channel s k delta).
  pose proof (Interval.all_between_spec _ _ _
                (Interval.all_between_spec _ _ _ exact_cases_checked k Hk)
                delta ltac:(lia)) as Hok.
  unfold exact_case_ok in Hok.
  rewrite (proj2 (Z.ltb_lt _ _) Hc1), (proj2 (Z.ltb_lt _ _) Hc2) in Hok.
  cbn [andb implb] in Hok.
  pose proof (Interval.all_between_spec _ _ _ Hok s ltac:(lia)) as Hs'.
  apply Z.eqb_eq in Hs'. rewrite Hs'.
  subst k. lia.
Qed.

(** The top row. *)
Lemma lerp_floor_top (s n : Z) :
  56 <= s < 128 -> 0 < n < 2 ^ 31 ->
  py_int (Z2F s + Z2F (-18) * (Z2F 0 / Z2F n)) = s.
Proof.
  intros Hs Hn.
  assert (H31 : 2 ^ 31 < 2 ^ 53) by reflexivity.
  destruct (Z2F_finite n ltac:(lia)) as (mn & En & _ & _).
  destruct (Z2F_finite s ltac:(change (2 ^ 53) with 9007199254740992; lia))
    as (ms & Es & Hms & Hbs).
  assert (Hds : 6 <= Zdigits2 s <= 7).
  { split; [apply Zdigits2_ge; simpl; lia | apply Zdigits2_small; simpl; lia]. }
  assert (E : Prim2SF (Z2F s + Z2F (-18) * (Z2F 0 / Z2F n))
              = S754_finite false ms (Zdigits2 s - 53)).
  { rewrite add_spec, mul_spec, div_spec, En, Es.
    change (Prim2SF (Z2F 0)) with (S754_zero false).
    change (Prim2SF (Z2F (-18))) with (S754_finite true 5066549580791808 (-48)).
    reflexivity. }
  apply (py_int_scaled _ ms (Zdigits2 s - 53) s E ltac:(lia)).
  unfold scaled. rewrite Hms, <- Z.mul_assoc, <- Z.pow_add_r by lia.
  replace (53 - Zdigits2 s + (200 + (Zdigits2 s - 53))) with 200 by lia.
  assert (0 < 2 ^ 200) by reflexivity. lia.
Qed.

(** On floats, [int(s + (-18) * (y / n))] is the floor of the exact
    value, for every row of every image of less than [2^31] pixels. *)
Lemma lerp_floor (s y n : Z) :
  56 <= s < 128 -> 0 <= y < n -> n < 2 ^ 31 ->
  py_int (Z2F s + Z2F (-18) * (Z2F y / Z2F n)) = (s * n - 18 * y) / n.
Proof.
  intros Hs Hy Hn.
  destruct (Z.eq_dec y 0) as [-> | Hy0].
  - rewrite lerp_floor_top by lia.
    replace (s * n - 18 * 0) with (s * n) by lia. symmetry. apply Z.div_mul. lia.
  - destruct (Z.eq_dec ((s * n - 18 * y) mod n) 0) as [Hz | Hnz].
    + apply lerp_floor_exact; (assumption || lia).
    + apply lerp_floor_inexact; (assumption || lia).
Qed.

End Binary64.

(** ** The vertical gradient *)

(** The spec's formula for one channel of row [y] of an [n]-pixel
    image: the floor of [start + (stop - start) * t] with [t = y / n],
    over the rationals. *)
Definition spec_channel (start stop y n : Z) : Z :=
  Qfloor (inject_Z start + inject_Z (stop - start) * (inject_Z y / inject_Z n))%Q.

Definition spec_row (n y : Z) : list Z :=
  zip_with (fun start stop => spec_channel start stop y n)
    GenerateAppIcons.LIGHTER_INDIGO GenerateAppIcons.DEEP_INDIGO.

(** Read over the rationals, [int(a + (b - a) * (y / n))] is the
    spec's floor, and both are an integer quotient. *)
Lemma lerp_channel_exact (start stop y n : Z) :
  0 < n -> 0 <= start * n + (stop - start) * y ->
  GenerateAppIcons.lerp_channel (F := Q) start stop (of_int y / of_int n)%py
  = (start * n + (stop - start) * y) `div` n
  /\ spec_channel start stop y n = (start * n + (stop - start) * y) `div` n.
Proof.
  intros Hn Hnum. destruct n as [| p | p]; try lia.
  unfold GenerateAppIcons.lerp_channel, spec_channel, Qfloor.
  cbn -[Z.mul Z.add Z.sub Z.quot Z.div].
  rewrite !Pos.mul_1_l, !Z.mul_1_r.
  rewrite Z.quot_div_nonneg by lia. split; reflexivity.
Qed.

Lemma row_color_exact (n y : Z) :
  0 < n -> 0 <= y < n ->
  BreathingCircles.row_color (F := Q) n y
  = [ (64 * n - 18 * y) `div` n; (56 * n - 18 * y) `div` n; (107 * n - 18 * y) `div` n ]
  /\ spec_row n y = BreathingCircles.row_color (F := Q) n y.
Proof.
  intros Hn Hy. unfold BreathingCircles.row_color, spec_row. cbv zeta.
  cbn [GenerateAppIcons.LIGHTER_INDIGO GenerateAppIcons.DEEP_INDIGO lookup_total
       list_lookup_total zip_with].
  destruct (lerp_channel_exact 64 46 y n) as [-> ->]; [lia | lia |].
  destruct (lerp_channel_exact 56 38 y n) as [-> ->]; [lia | lia |].
  destruct (lerp_channel_exact 107 89 y n) as [-> ->]; [lia | lia |].
  split; [| reflexivity].
  repeat f_equal; lia.
Qed.

(** The pixel dimensions that the script renders. *)
Definition table_sizes : list Z := map snd GenerateAppIcons.ICON_SIZES.

(** On binary64 floats and on the rationals the row colours are the
    same, for every row of every size of the table. *)
Definition rows_agree (n : Z) : bool :=
  Interval.all_between 0 (n - 1)
    (fun y => bool_decide (BreathingCircles.row_color (F := float) n y
                           = BreathingCircles.row_color (F := Q) n y)).

Lemma rows_agree_checked : forallb rows_agree table_sizes = true.
Proof. vm_compute. reflexivity. Qed.

Lemma row_color_float_exact (n y : Z) :
  n ∈ table_sizes -> 0 <= y < n ->
  BreathingCircles.row_color (F := float) n y = BreathingCircles.row_color (F := Q) n y.
Proof.
  intros Hn Hy. pose proof rows_agree_checked as Hall.
  rewrite forallb_forall in Hall.
  apply list_elem_of_In, Hall in Hn.
  apply (bool_decide_eq_true_1 _).
  apply (Interval.all_between_spec _ _ _ Hn y). lia.
Qed.

(** The background pass on a fresh image. *)
Lemma background_pass_creates `{Rasterizer} (n : Z) :
  0 <= n ->
  creates (img ← Image_new RGB (n, n) None;
           GenerateAppIcons.background (Draw img true) n ;; mret img)
    (BreathingCircles.background_image n (new RGB (n, n) None)).
Proof.
  intros Hn.
  apply (creates_then (Image_new RGB (n, n) None)
           (fun img => GenerateAppIcons.background (Draw img true) n)
           (new RGB (n, n) None) (BreathingCircles.background_image n)).
  - apply creates_new; simpl; lia.
  - intros ref. apply BreathingCircles.background_acts.
Qed.

(** On floats the row colours are the floors of the spec's formula, for
    every image of less than [2^31] pixels. *)
Lemma row_color_float_floor (n y : Z) :
  0 <= y < n -> n < 2 ^ 31 ->
  BreathingCircles.row_color (F := float) n y = spec_row n y.
Proof.
  intros Hy Hn.
  destruct (row_color_exact n y ltac:(lia) Hy) as [Hexact ->]. rewrite Hexact.
  unfold BreathingCircles.row_color. cbv zeta.
  unfold GenerateAppIcons.lerp_channel.
  cbn [GenerateAppIcons.LIGHTER_INDIGO GenerateAppIcons.DEEP_INDIGO lookup_total
       list_lookup_total].
  f_equal; [| f_equal; [| f_equal]].
  - exact (Binary64.lerp_floor 64 y n ltac:(lia) Hy Hn).
  - exact (Binary64.lerp_floor 56 y n ltac:(lia) Hy Hn).
  - exact (Binary64.lerp_floor 107 y n ltac:(lia) Hy Hn).
Qed.

(** C5: the vertical-gradient renderer, asked for an [n]-pixel icon,
    returns the image that its decoration steps make of the background,
    and in that background, as the background pass leaves it, every
    pixel of row [y] has the colour whose channels are
    [int(start + (end - start) * (y / n))] with [start = LIGHTER_INDIGO]
    and [end = DEEP_INDIGO], computed on binary64 floats.  For every
    size below [2^31], from which on the imaging library creates no
    image, these integers are the floors of the spec's formula: the
    three roundings of the float computation never carry the result
    across an integer.  The floors lie between the end and the start
    colour, hence in [0, 255]; the top row has the start colour and the
    channels do not increase downwards. *)
Theorem vertical_gradient_rows `{Rasterizer} (n x y : Z) (w : world) :
  0 <= x < n -> 0 <= y < n ->
  let bg := BreathingCircles.background_image n (new RGB (n, n) None) in
  (exists w',
      GenerateAppIcons.draw_breathing_circles_icon n w = (Ok (next w), w')
      /\ heap w' !! next w = Some (BreathingCircles.decoration n bg))
  /\ (exists w',
        (img ← Image_new RGB (n, n) None;
         GenerateAppIcons.background (Draw img true) n ;; mret img) w
        = (Ok (next w), w')
        /\ heap w' !! next w = Some bg)
  /\ im_data bg !! (x, y)
     = Some (zip_with (fun start stop =>
                         py_int (Z2F start + Z2F (stop - start) * (Z2F y / Z2F n))%float)
               GenerateAppIcons.LIGHTER_INDIGO GenerateAppIcons.DEEP_INDIGO)
  /\ (n < 2 ^ 31 -> im_data bg !! (x, y) = Some (spec_row n y))
  /\ Forall2 (fun c stop => stop <= c)
       (spec_row n y) GenerateAppIcons.DEEP_INDIGO
  /\ Forall2 (fun c start => c <= start)
       (spec_row n y) GenerateAppIcons.LIGHTER_INDIGO
  /\ Forall (fun c => 0 <= c <= 255) (spec_row n y)
  /\ spec_row n 0 = GenerateAppIcons.LIGHTER_INDIGO
  /\ (forall y', y <= y' < n -> Forall2 Z.le (spec_row n y') (spec_row n y)).
Proof.
  intros Hx Hy bg.
  assert (Hn : 0 < n) by lia.
  destruct (row_color_exact n y Hn Hy) as [Hexact Hspec].
  assert (Hlo : forall k, 0 <= k -> k <= (k * n - 18 * y) `div` n + 18
                          /\ (k * n - 18 * y) `div` n <= k).
  { intros k Hk. split.
    - assert (k - 18 <= (k * n - 18 * y) `div` n); [| lia].
      apply Z.div_le_lower_bound; nia.
    - apply Z.div_le_upper_bound; nia. }
  assert (Hpixel : im_data bg !! (x, y) = Some (BreathingCircles.row_color (F := float) n y))
    by (apply BreathingCircles.background_lookup; [reflexivity | reflexivity | lia | lia]).
  split.
  { destruct (BreathingCircles.render_creates n ltac:(lia) w) as (w' & E & Him & _ & _).
    exists w'. split; [exact E | exact Him]. }
  split.
  { destruct (background_pass_creates n ltac:(lia) w) as (w' & E & Him & _ & _).
    exists w'. split; [exact E | exact Him]. }
  split; [exact Hpixel |].
  split.
  { intros Hsize. rewrite Hpixel. f_equal. apply row_color_float_floor; assumption. }
  rewrite Hspec, Hexact.
  unfold GenerateAppIcons.DEEP_INDIGO, GenerateAppIcons.LIGHTER_INDIGO.
  pose proof (Hlo 64 ltac:(lia)) as Hr.
  pose proof (Hlo 56 ltac:(lia)) as Hg.
  pose proof (Hlo 107 ltac:(lia)) as Hb.
  split; [repeat (constructor; [lia |]); constructor |].
  split; [repeat (constructor; [lia |]); constructor |].
  split; [repeat (constructor; [lia |]); constructor |].
  split.
  { destruct (row_color_exact n 0 Hn ltac:(lia)) as [H0 ->]. rewrite H0.
    repeat f_equal; rewrite Z.sub_0_r; apply Z.div_mul; lia. }
  intros y' Hy'. destruct (row_color_exact n y' Hn ltac:(lia)) as [Hexact' ->].
  rewrite Hexact'. repeat constructor; apply Z.div_le_mono; lia.
Qed.

(** The witness of [vertical_gradient_rows]: row 5 of a 20-pixel icon. *)
Lemma vertical_gradient_rows_witness :
  (0 <= 3 < 20 /\ 0 <= 5 < 20)
  /\ im_data (BreathingCircles.background_image (H := Example.box_rasterizer) 20
                (new RGB (20, 20) None)) !! (3, 5)
     = Some [59; 51; 102].
Proof.
  split; [lia |].
  rewrite (proj1 (proj2 (proj2 (proj2
             (@vertical_gradient_rows Example.box_rasterizer 20 3 5 Example.empty_world
                ltac:(lia) ltac:(lia)))))) by reflexivity.
  vm_compute. reflexivity.
Defined.

(** ** The radial gradient *)

(** [floor(k * sqrt(a / b))] and [ceil(k * sqrt(a / b))] for integers
    [a >= 0] and [b > 0], by integer square roots. *)
Definition floor_scaled_sqrt (k a b : Z) : Z := Z.sqrt ((k * k * a) `div` b).

Definition ceil_scaled_sqrt (k a b : Z) : Z :=
  if decide (k * k * a <= 0) then 0 else Z.sqrt ((k * k * a - 1) `div` b) + 1.

(** [r = floor(k * sqrt(a / b))] says [r <= k * sqrt(a / b) < r + 1],
    that is [r^2 * b <= k^2 * a < (r + 1)^2 * b]. *)
Lemma floor_scaled_sqrt_spec (k a b : Z) :
  0 <= a -> 0 < b ->
  let r := floor_scaled_sqrt k a b in
  0 <= r /\ r * r * b <= k * k * a < (r + 1) * (r + 1) * b.
Proof.
  intros Ha Hb r. subst r. unfold floor_scaled_sqrt.
  set (q := (k * k * a) `div` b).
  assert (Hq : 0 <= q) by (apply Z.div_pos; nia).
  pose proof (Z.sqrt_spec q Hq) as Hs. pose proof (Z.sqrt_nonneg q) as Hr.
  pose proof (Z.mul_div_le (k * k * a) b Hb) as Hle.
  pose proof (Z.mul_succ_div_gt (k * k * a) b Hb) as Hgt.
  fold q in Hle, Hgt. unfold Z.succ in *.
  set (r := Z.sqrt q) in *. split; [exact Hr |]. split; nia.
Qed.

(** [r = ceil(k * sqrt(a / b))] says [r - 1 < k * sqrt(a / b) <= r]. *)
Lemma ceil_scaled_sqrt_spec (k a b : Z) :
  0 <= a -> 0 < b ->
  let r := ceil_scaled_sqrt k a b in
  0 <= r /\ k * k * a <= r * r * b
  /\ (0 < k * k * a -> (r - 1) * (r - 1) * b < k * k * a).
Proof.
  intros Ha Hb r. subst r. unfold ceil_scaled_sqrt.
  destruct (decide (k * k * a <= 0)) as [Hz | Hpos]; [split; [lia | split; nia] |].
  set (q := (k * k * a - 1) `div` b).
  assert (Hq : 0 <= q) by (apply Z.div_pos; lia).
  pose proof (Z.sqrt_spec q Hq) as Hs. pose proof (Z.sqrt_nonneg q) as Hr.
  pose proof (Z.mul_div_le (k * k * a - 1) b Hb) as Hle.
  pose proof (Z.mul_succ_div_gt (k * k * a - 1) b Hb) as Hgt.
  fold q in Hle, Hgt. unfold Z.succ in *.
  set (r := Z.sqrt q) in *. split; [lia |].
  replace (r + 1 - 1) with r by lia. split; [nia | intros _; nia].
Qed.

(** The spec's formula for pixel [(x, y)] of an [n]-pixel image, in
    exact arithmetic: with [t = sqrt(a / b)], [a] the squared distance
    to the centre and [b] the squared distance from the centre to the
    corner, the channels are [floor(100 + 80 t)], [floor(150 - 70 t)]
    and [floor(220 - 20 t)]. *)
Definition spec_pixel (n x y : Z) : list Z :=
  let c := n `div` 2 in
  let a := (x - c) ^ 2 + (y - c) ^ 2 in
  let b := c ^ 2 + c ^ 2 in
  [ 100 + floor_scaled_sqrt 80 a b;
    150 - ceil_scaled_sqrt 70 a b;
    220 - ceil_scaled_sqrt 20 a b ].

(** The sizes of the table up to 60 pixels, on which the float
    computation is compared with the exact formula pixel by pixel. *)
Definition compared_sizes : list Z := filter (fun n => n <= 60) table_sizes.

Definition pixels_agree (n : Z) : bool :=
  Interval.all_between 0 (n - 1) (fun y =>
    Interval.all_between 0 (n - 1) (fun x =>
      bool_decide (ZenIcon.pixel_color n x y = spec_pixel n x y))).

Lemma pixels_agree_checked : forallb pixels_agree compared_sizes = true.
Proof. vm_compute. reflexivity. Qed.

Lemma pixel_color_exact (n x y : Z) :
  n ∈ compared_sizes -> 0 <= x < n -> 0 <= y < n ->
  ZenIcon.pixel_color n x y = spec_pixel n x y.
Proof.
  intros Hn Hx Hy. pose proof pixels_agree_checked as Hall.
  rewrite forallb_forall in Hall.
  apply list_elem_of_In, Hall in Hn.
  apply (bool_decide_eq_true_1 _).
  apply (Interval.all_between_spec 0 (n - 1) _
           (Interval.all_between_spec 0 (n - 1) _ Hn y ltac:(lia)) x). lia.
Qed.





(** ** Scaling of the design *)

(** The real-valued lengths of the Breathing Circles design at a given
    size, as the script computes them before any [int]: the radii of
    the glow, the radius and the width of each circle, the radii of the
    centre gradient, the centre radius and the stroke. *)
Definition shape_parameters {F : Type} `{Arith F} (size : Z) : list F :=
  let scale : F := GenerateAppIcons.scale_of size in
  [ (GenerateAppIcons.glow_radii scale).1; (GenerateAppIcons.glow_radii scale).2 ]
  ++ flat_map (fun c => [c.1.1; c.1.2]) (GenerateAppIcons.circles scale)
  ++ map fst (GenerateAppIcons.gradient_steps scale)
  ++ [ GenerateAppIcons.center_radius scale; GenerateAppIcons.stroke scale ].

(** The same for the zen icon: the largest radius, the radii of the
    five circles and the radius of the centre dot. *)
Definition zen_shape_parameters {F : Type} `{Arith F} (size : Z) : list F :=
  [ GenerateIcons.max_circle_radius size ]
  ++ map (GenerateIcons.circle_radius size) (range GenerateIcons.num_circles)
  ++ [ GenerateIcons.center_radius size ].

Ltac q_double := unfold Qeq; cbn -[Z.mul Z.add]; lia.

Lemma shape_parameters_double (N : Z) :
  Forall2 (fun a b => a == 2 * b)%Q
    (shape_parameters (F := Q) (2 * N)) (shape_parameters (F := Q) N).
Proof.
  unfold shape_parameters. cbv zeta.
  cbn [GenerateAppIcons.glow_radii GenerateAppIcons.circles
       GenerateAppIcons.gradient_steps flat_map map app fst snd].
  unfold GenerateAppIcons.scale_of, GenerateAppIcons.center_radius,
    GenerateAppIcons.stroke.
  cbn [of_int mult div Q_arith].
  repeat (constructor; [q_double |]). constructor.
Qed.

Lemma zen_shape_parameters_double (N : Z) :
  Forall2 (fun a b => a == 2 * b)%Q
    (zen_shape_parameters (F := Q) (2 * N)) (zen_shape_parameters (F := Q) N).
Proof.
  unfold zen_shape_parameters.
  change (range GenerateIcons.num_circles) with [0; 1; 2; 3; 4].
  cbn [map app].
  unfold GenerateIcons.circle_radius, GenerateIcons.max_circle_radius,
    GenerateIcons.center_radius, GenerateIcons.num_circles.
  cbn [of_int mult div dec Q_arith].
  repeat (constructor; [q_double |]). constructor.
Qed.

Lemma rounded_parameters_double (N : Z) :
  0 < N ->
  Forall2 (fun a b => 2 * b - 1 <= a <= 2 * b + 1)
    (rounded_parameters (F := Q) (2 * N)) (rounded_parameters (F := Q) N).
Proof.
  intros HN. unfold rounded_parameters. cbv zeta.
  cbn [GenerateAppIcons.glow_radii GenerateAppIcons.circles
       GenerateAppIcons.gradient_steps flat_map map app fst snd].
  unfold GenerateAppIcons.stroke_width, GenerateAppIcons.stroke,
    GenerateAppIcons.center_radius, GenerateAppIcons.scale_of.
  cbn -[Z.mul Z.quot Z.max].
  change (Z.pos (1 * (1 * 1024))) with 1024.
  repeat (constructor;
          [ rewrite !Z.quot_div_nonneg by lia;
            Z.to_euclidean_division_equations; lia |]).
  constructor.
Qed.

Lemma outline_width_double (N : Z) :
  0 < N ->
  2 * GenerateIcons.outline_width N - 1 <= GenerateIcons.outline_width (2 * N)
  <= 2 * GenerateIcons.outline_width N + 1.
Proof.
  intros HN. unfold GenerateIcons.outline_width.
  Z.to_euclidean_division_equations; lia.
Qed.

(** On floats: the lengths at [2 * N] are the doubles of the lengths at
    [N] as binary64 values, and the integers drawn with are those of
    the exact reading, for every [N] up to 1024. *)
Fixpoint all2 {A B} (P : A -> B -> bool) (l1 : list A) (l2 : list B) : bool :=
  match l1, l2 with
  | [], [] => true
  | a :: l1', b :: l2' => P a b && all2 P l1' l2'
  | _, _ => false
  end.

Lemma all2_Forall2 {A B} (P : A -> B -> bool) l1 l2 :
  all2 P l1 l2 = true -> Forall2 (fun a b => P a b = true) l1 l2.
Proof.
  revert l2. induction l1 as [| a l1 IH]; intros [| b l2] Hall;
    try discriminate; constructor.
  - simpl in Hall. apply andb_true_iff in Hall. tauto.
  - apply IH. simpl in Hall. apply andb_true_iff in Hall. tauto.
Qed.

Definition is_double (a b : float) : bool := PrimFloat.eqb a (2 * b)%float.

Definition float_scaling (N : Z) : bool :=
  all2 is_double (shape_parameters (F := float) (2 * N)) (shape_parameters (F := float) N)
  && all2 is_double (zen_shape_parameters (F := float) (2 * N))
       (zen_shape_parameters (F := float) N)
  && bool_decide (rounded_parameters (F := float) N = rounded_parameters (F := Q) N)
  && bool_decide (rounded_parameters (F := float) (2 * N)
                  = rounded_parameters (F := Q) (2 * N)).

Lemma float_scaling_checked : Interval.all_between 1 1024 float_scaling = true.
Proof. vm_compute. reflexivity. Qed.

(** C7: for every positive dimension [N], the real-valued lengths of
    both designs at dimension [2 * N] are exactly twice those at [N],
    and the integers the drawing uses (the [int(...)] radii and widths,
    the clamped stroke width [max(1, int(2 * scale))] and the outline
    width [max(1, size // 100)]) are twice those at [N] up to a
    difference of 1.  The script computes on floats: for [N] up to 1024
    the float lengths at [2 * N] are the doubles of the float lengths at
    [N] and the integers are those of the exact reading. *)
Theorem scaling_consistency (N : Z) :
  0 < N ->
  Forall2 (fun a b => a == 2 * b)%Q
    (shape_parameters (F := Q) (2 * N)) (shape_parameters (F := Q) N)
  /\ Forall2 (fun a b => a == 2 * b)%Q
       (zen_shape_parameters (F := Q) (2 * N)) (zen_shape_parameters (F := Q) N)
  /\ Forall2 (fun a b => 2 * b - 1 <= a <= 2 * b + 1)
       (rounded_parameters (F := Q) (2 * N)) (rounded_parameters (F := Q) N)
  /\ 2 * GenerateIcons.outline_width N - 1 <= GenerateIcons.outline_width (2 * N)
     <= 2 * GenerateIcons.outline_width N + 1
  /\ (N <= 1024 ->
      Forall2 (fun a b => is_double a b = true)
        (shape_parameters (F := float) (2 * N)) (shape_parameters (F := float) N)
      /\ Forall2 (fun a b => is_double a b = true)
           (zen_shape_parameters (F := float) (2 * N))
           (zen_shape_parameters (F := float) N)
      /\ rounded_parameters (F := float) N = rounded_parameters (F := Q) N
      /\ rounded_parameters (F := float) (2 * N) = rounded_parameters (F := Q) (2 * N)
      /\ Forall2 (fun a b => 2 * b - 1 <= a <= 2 * b + 1)
           (rounded_parameters (F := float) (2 * N))
           (rounded_parameters (F := float) N)).
Proof.
  intros HN.
  split; [apply shape_parameters_double |].
  split; [apply zen_shape_parameters_double |].
  split; [apply rounded_parameters_double, HN |].
  split; [apply outline_width_double, HN |].
  intros Hle.
  pose proof (Interval.all_between_spec _ _ _ float_scaling_checked N ltac:(lia)) as Hok.
  unfold float_scaling in Hok.
  apply andb_true_iff in Hok as [Hok H4]. apply andb_true_iff in Hok as [Hok H3].
  apply andb_true_iff in Hok as [H1 H2].
  apply bool_decide_eq_true_1 in H3, H4.
  split; [apply all2_Forall2, H1 |].
  split; [apply all2_Forall2, H2 |].
  split; [exact H3 |]. split; [exact H4 |].
  rewrite H3, H4. apply rounded_parameters_double, HN.
Qed.

Lemma scaling_consistency_witness :
  0 < 512
  /\ Forall2 (fun a b => a == 2 * b)%Q
       (shape_parameters (F := Q) (2 * 512)) (shape_parameters (F := Q) 512).
Proof.
  split; [lia |].
  exact (proj1 (scaling_consistency 512 ltac:(lia))).
Defined.

(** ** The writers *)

Lemma for_fold_app {A S} (l1 l2 : list A) (s : S) (body : S -> A -> M S) (w : world) :
  for_fold (l1 ++ l2) s body w
  = (s' ← for_fold l1 s body; for_fold l2 s' body) w.
Proof.
  revert s w. induction l1 as [| a l1 IH]; intros s w; simpl.
  - reflexivity.
  - unfold mbind, M_bind. destruct (body s a w) as [[s' | e] w']; [apply IH | reflexivity].
Qed.

Lemma for_each_app {A} (l1 l2 : list A) (body : A -> M unit) (w : world) :
  for_each (l1 ++ l2) body w = (for_each l1 body ;; for_each l2 body) w.
Proof.
  revert w. induction l1 as [| a l1 IH]; intros w; simpl.
  - reflexivity.
  - unfold mbind, M_bind. destruct (body a w) as [[[] | e] w']; [apply IH | reflexivity].
Qed.

Section Writers.
Context `{Rasterizer} `{OS}.

(** A line of output reports an entry when it is its success line or a
    failure line that names it. *)
Definition reports (entry : string * Z) (line : string) : Prop :=
  line = GenerateAppIcons.ok_line entry.1 entry.2
  \/ exists e, line = GenerateAppIcons.failed_line entry.1 e.

(** One iteration: the body returns normally whether the render and
    the save succeed or not; it adds one to exactly one counter and
    prints one line about the entry. *)
Lemma icon_step_outcome (dir : string) (s f : Z) (entry : string * Z) (w : world) :
  exists s' f' w' line,
    GenerateAppIcons.icon_step dir (s, f) entry w = (Ok (s', f'), w')
    /\ ((s' = s + 1 /\ f' = f) \/ (s' = s /\ f' = f + 1))
    /\ stdout w' = stdout w ++ [line] /\ reports entry line.
Proof.
  destruct entry as [filename px].
  unfold GenerateAppIcons.icon_step, try_except, mbind, M_bind.
  destruct (BreathingCircles.render_computes px w) as (w1 & E & (_ & Hout & _ & _) & Him).
  rewrite E. destruct (BreathingCircles.icon_result px) as [im | e].
  - destruct Him as [Him _]. unfold Image_save. rewrite Him.
    destruct (save_fault (path_div dir filename) im w1) as [e |].
    + eexists s, (f + 1), _, _. split; [reflexivity |].
      split; [right; lia |]. simpl. rewrite Hout.
      split; [reflexivity |]. right. eexists. reflexivity.
    + eexists (s + 1), f, _, _. split; [reflexivity |].
      split; [left; lia |]. simpl. rewrite Hout.
      split; [reflexivity |]. left. reflexivity.
  - eexists s, (f + 1), _, _. split; [reflexivity |].
    split; [right; lia |]. simpl. rewrite Hout.
    split; [reflexivity |]. right. eexists. reflexivity.
Qed.

(** Any stretch of the loop: it returns normally, neither counter
    decreases, their sum grows by the number of entries, and one line is
    printed per entry, in order. *)
Lemma icon_stretch (dir : string) (l : list (string * Z)) (s f : Z) (w : world) :
  exists s' f' w' lines,
    for_fold l (s, f) (GenerateAppIcons.icon_step dir) w = (Ok (s', f'), w')
    /\ s <= s' /\ f <= f' /\ s' + f' = s + f + Z.of_nat (length l)
    /\ stdout w' = stdout w ++ lines /\ Forall2 reports l lines.
Proof.
  revert s f w. induction l as [| entry l IH]; intros s f w.
  - exists s, f, w, []. simpl. rewrite app_nil_r.
    repeat split; try lia. constructor.
  - destruct (icon_step_outcome dir s f entry w)
      as (s1 & f1 & w1 & line & E1 & Hstep & Hout1 & Hrep).
    destruct (IH s1 f1 w1) as (s2 & f2 & w2 & lines & E2 & Hs & Hf & Hsum & Hout2 & Hreps).
    exists s2, f2, w2, (line :: lines).
    cbn [for_fold]. unfold mbind, M_bind. rewrite E1.
    split; [exact E2 |].
    split; [lia |]. split; [lia |].
    split; [cbn [length]; lia |].
    split; [rewrite Hout2, Hout1, <- app_assoc; reflexivity |].
    constructor; assumption.
Qed.

(** The manifest step adds at most one to the failure count and does
    not raise. *)
Lemma write_contents_outcome (dir : string) (f : Z) (w : world) :
  exists f' w' line,
    GenerateAppIcons.write_contents dir f w = (Ok f', w')
    /\ (f' = f \/ f' = f + 1) /\ stdout w' = stdout w ++ [line].
Proof.
  unfold GenerateAppIcons.write_contents, try_except, mbind, M_bind, json_dump.
  destruct (write_fault (path_div dir "Contents.json") w) as [e |].
  - eexists (f + 1), _, _. split; [reflexivity |]. split; [right; reflexivity |].
    reflexivity.
  - eexists f, _, _. split; [reflexivity |]. split; [left; reflexivity |].
    reflexivity.
Qed.

End Writers.

(** C10: in the writer of the manifest-producing script, the state of
    the two counters after [j] and after [k] iterations of the loop
    over the size table ([j <= k <= 18]): the loop has returned
    normally, both counters are non-negative, neither has decreased
    from [j] to [k], and their sum is the number of iterations done; one
    more iteration adds one to exactly one of them; after the 18
    iterations the sum is 18, and the manifest step leaves the success
    count alone and adds at most one to the failure count, so that the
    sum is then 18 or 19. *)
Theorem counters_invariant `{Rasterizer} `{OS} (dir : string) (w : world) (j k : nat) :
  (j <= k)%nat /\ (k <= 18)%nat ->
  exists sj fj wj sk fk wk,
    for_fold (take j GenerateAppIcons.ICON_SIZES) (0, 0)
      (GenerateAppIcons.icon_step dir) w = (Ok (sj, fj), wj)
    /\ for_fold (take k GenerateAppIcons.ICON_SIZES) (0, 0)
         (GenerateAppIcons.icon_step dir) w = (Ok (sk, fk), wk)
    /\ 0 <= sj <= sk /\ 0 <= fj <= fk
    /\ sj + fj = Z.of_nat j /\ sk + fk = Z.of_nat k
    /\ (k = S j -> (sk = sj + 1 /\ fk = fj) \/ (sk = sj /\ fk = fj + 1))
    /\ (k = 18%nat ->
        GenerateAppIcons.icon_loop dir w = (Ok (sk, fk), wk)
        /\ exists f' w',
             GenerateAppIcons.write_contents dir fk wk = (Ok f', w')
             /\ fk <= f' /\ (sk + f' = 18 \/ sk + f' = 19)).
Proof.
  intros [Hjk Hk].
  assert (Hlen : length GenerateAppIcons.ICON_SIZES = 18%nat) by reflexivity.
  destruct (icon_stretch dir (take j GenerateAppIcons.ICON_SIZES) 0 0 w)
    as (sj & fj & wj & lines1 & Ej & Hsj & Hfj & Hsumj & _ & _).
  destruct (icon_stretch dir (drop j (take k GenerateAppIcons.ICON_SIZES)) sj fj wj)
    as (sk & fk & wk & lines2 & Ek & Hsk & Hfk & Hsumk & _ & _).
  rewrite length_take in Hsumj. rewrite length_drop, length_take in Hsumk.
  assert (Ek' : for_fold (take k GenerateAppIcons.ICON_SIZES) (0, 0)
                  (GenerateAppIcons.icon_step dir) w = (Ok (sk, fk), wk)).
  { rewrite <- (take_drop j (take k GenerateAppIcons.ICON_SIZES)).
    rewrite take_take, Nat.min_l by exact Hjk.
    rewrite for_fold_app. unfold mbind, M_bind. rewrite Ej. exact Ek. }
  exists sj, fj, wj, sk, fk, wk.
  split; [exact Ej |]. split; [exact Ek' |].
  split; [lia |]. split; [lia |]. split; [lia |]. split; [lia |].
  split; [intros ->; lia |].
  intros ->. split.
  - unfold GenerateAppIcons.icon_loop. rewrite <- Ek'. rewrite take_ge by lia. reflexivity.
  - destruct (write_contents_outcome dir fk wk) as (f' & w' & line & E & Hf' & _).
    exists f', w'. split; [exact E |]. lia.
Qed.

Lemma counters_invariant_witness :
  ((17 <= 18)%nat /\ (18 <= 18)%nat)
  /\ exists sj fj wj sk fk wk,
       for_fold (take 17 GenerateAppIcons.ICON_SIZES) (0, 0)
         (GenerateAppIcons.icon_step (H := Example.box_rasterizer)
            (H0 := Example.full_disk) "out") Example.empty_world = (Ok (sj, fj), wj)
       /\ for_fold (take 18 GenerateAppIcons.ICON_SIZES) (0, 0)
            (GenerateAppIcons.icon_step (H := Example.box_rasterizer)
               (H0 := Example.full_disk) "out") Example.empty_world = (Ok (sk, fk), wk)
       /\ sk + fk = 18.
Proof.
  split; [lia |].
  destruct (@counters_invariant Example.box_rasterizer Example.full_disk "out"
              Example.empty_world 17 18 ltac:(lia))
    as (sj & fj & wj & sk & fk & wk & Ej & Ek & _ & _ & _ & Hsum & _).
  exists sj, fj, wj, sk, fk, wk. auto.
Defined.

(** The lines printed before the loop of the manifest-producing script. *)
Definition heading (output_dir : string) : list string :=
  [ "ZenFlow App Icon Generator"; GenerateAppIcons.rule;
    "Design: Breathing Circles"; "Output: " +:+ output_dir; "" ]%string.

(** The state in which the loop of the other script starts. *)
Definition after_start (w : world) : world :=
  add_line "Generating ZenFlow app icons..." w.

(** *** The report of the manifest-producing writer *)

(** What happened to an entry of the size table or to the manifest:
    [None] when it was written, [Some e] when [e] was raised and caught. *)
Definition entry_line (entry : string * Z) (o : option exn) : string :=
  match o with
  | None => GenerateAppIcons.ok_line entry.1 entry.2
  | Some e => GenerateAppIcons.failed_line entry.1 e
  end.

Definition manifest_line (o : option exn) : string :=
  match o with
  | None => "[ok] Contents.json"
  | Some e => "[x] Failed to write Contents.json: " +:+ exn_msg e
  end.

Definition is_written (o : option exn) : bool :=
  match o with None => true | Some _ => false end.

Definition count_written (outcomes : list (option exn)) : Z :=
  Z.of_nat (length (List.filter is_written outcomes)).

Definition count_failed (outcomes : list (option exn)) : Z :=
  Z.of_nat (length (List.filter (fun o => negb (is_written o)) outcomes)).

(** The lines that close the report. *)
Definition closing (success_count fail_count : Z) : list string :=
  [ ""; GenerateAppIcons.rule; "Generation complete!";
    GenerateAppIcons.tally_line success_count ]%string
  ++ (if decide (fail_count > 0) then [ ("Failed: " +:+ str fail_count)%string ] else [])
  ++ [ ""; "Ready for Xcode build and App Store submission" ]%string.

Section Report.
Context `{Rasterizer} `{OS}.

(** What the [try] block of the loop does with an entry before it
    reports: render it and save it. *)
Definition attempt (dir : string) (entry : string * Z) : M unit :=
  icon ← GenerateAppIcons.draw_breathing_circles_icon entry.2;
  Image_save icon (path_div dir entry.1).

(** [o] is an outcome that the attempt at [entry] has in some state:
    it returned, or it raised [e]. *)
Definition attempted (dir : string) (entry : string * Z) (o : option exn) : Prop :=
  exists v v',
    attempt dir entry v = (match o with None => Ok tt | Some e => Raise e end, v').

(** One iteration of the loop is the attempt followed by its report: a
    success adds one to the success count, an exception is caught and
    adds one to the failure count; either way the iteration returns. *)
Lemma icon_step_handler (dir : string) (s f : Z) (entry : string * Z) (v : world) :
  GenerateAppIcons.icon_step dir (s, f) entry v
  = match attempt dir entry v with
    | (Ok _, v1) =>
        (Ok (s + 1, f), add_line (GenerateAppIcons.ok_line entry.1 entry.2) v1)
    | (Raise e, v1) =>
        (Ok (s, f + 1), add_line (GenerateAppIcons.failed_line entry.1 e) v1)
    end.
Proof.
  destruct entry as [filename px].
  unfold GenerateAppIcons.icon_step, attempt, try_except, mbind, M_bind. cbn [fst snd].
  destruct (GenerateAppIcons.draw_breathing_circles_icon px v) as [[icon | e] v1];
    [| reflexivity].
  destruct (Image_save icon (path_div dir filename) v1) as [[[] | e] v2]; reflexivity.
Qed.

(** The attempt prints nothing. *)
Lemma attempt_silent (dir : string) (entry : string * Z) (v : world) :
  stdout (snd (attempt dir entry v)) = stdout v.
Proof.
  unfold attempt, mbind, M_bind.
  destruct (BreathingCircles.render_computes entry.2 v) as (v1 & E & (_ & Hout & _ & _) & _).
  rewrite E. destruct (BreathingCircles.icon_result entry.2) as [im | e]; [| exact Hout].
  unfold Image_save. destruct (heap v1 !! next v) as [im' |]; [| exact Hout].
  destruct (save_fault (path_div dir entry.1) im' v1); exact Hout.
Qed.

(** Any stretch of the loop returns normally, with one outcome and one
    line per entry, in order; the success count has grown by the number
    of attempts that returned and the failure count by the number of
    those that raised. *)
Lemma icon_loop_attempts (dir : string) (l : list (string * Z)) (s f : Z) (w : world) :
  exists outcomes w',
    for_fold l (s, f) (GenerateAppIcons.icon_step dir) w
    = (Ok (s + count_written outcomes, f + count_failed outcomes), w')
    /\ length outcomes = length l
    /\ stdout w' = stdout w ++ zip_with entry_line l outcomes
    /\ Forall2 (attempted dir) l outcomes.
Proof.
  revert s f w. induction l as [| entry l IH]; intros s f w.
  - exists [], w. simpl. unfold count_written, count_failed. simpl.
    rewrite app_nil_r, !Z.add_0_r. repeat split; auto.
  - pose proof (icon_step_handler dir s f entry w) as E1.
    pose proof (attempt_silent dir entry w) as Hquiet.
    destruct (attempt dir entry w) as [[[] | e] w1] eqn:Ea; cbn [snd] in Hquiet.
    + destruct (IH (s + 1) f (add_line (GenerateAppIcons.ok_line entry.1 entry.2) w1))
        as (os & w2 & E2 & Hlen & Hout2 & Hat).
      exists (None :: os), w2. cbn [for_fold]. rewrite (bind_ok _ _ _ _ _ E1).
      split.
      { unfold count_written, count_failed in *.
        cbn [is_written List.filter negb length]. rewrite E2, Nat2Z.inj_succ.
        do 3 f_equal; lia. }
      split; [simpl; lia |].
      split; [rewrite Hout2; cbn [stdout add_line]; rewrite Hquiet, <- app_assoc;
              reflexivity |].
      constructor; [exists w, w1; exact Ea | exact Hat].
    + destruct (IH s (f + 1) (add_line (GenerateAppIcons.failed_line entry.1 e) w1))
        as (os & w2 & E2 & Hlen & Hout2 & Hat).
      exists (Some e :: os), w2. cbn [for_fold]. rewrite (bind_ok _ _ _ _ _ E1).
      split.
      { unfold count_written, count_failed in *.
        cbn [is_written List.filter negb length]. rewrite E2, Nat2Z.inj_succ.
        do 3 f_equal; lia. }
      split; [simpl; lia |].
      split; [rewrite Hout2; cbn [stdout add_line]; rewrite Hquiet, <- app_assoc;
              reflexivity |].
      constructor; [exists w, w1; exact Ea | exact Hat].
Qed.

Lemma write_contents_effect (dir : string) (f : Z) (w : world) :
  exists o w',
    GenerateAppIcons.write_contents dir f w = (Ok (if is_written o then f else f + 1), w')
    /\ stdout w' = stdout w ++ [manifest_line o]
    /\ disk w' = match o with
                 | None => <[path_div dir "Contents.json"
                             := JsonFile GenerateAppIcons.CONTENTS_JSON]> (disk w)
                 | Some _ => disk w
                 end
    /\ match o with
       | None => True
       | Some e => exists v, write_fault (path_div dir "Contents.json") v = Some e
       end.
Proof.
  unfold GenerateAppIcons.write_contents, try_except, mbind, M_bind, json_dump.
  destruct (write_fault (path_div dir "Contents.json") w) as [e |] eqn:Hfault.
  - exists (Some e). eexists. split; [reflexivity |]. simpl. eauto.
  - exists None. eexists. split; [reflexivity |]. simpl. auto.
Qed.

Lemma summary_effect (s f : Z) (w : world) :
  exists w',
    GenerateAppIcons.summary s f w = (Ok tt, w')
    /\ stdout w' = stdout w ++ closing s f /\ disk w' = disk w.
Proof.
  unfold GenerateAppIcons.summary, closing. rewrite !print_seq.
  destruct (decide (f > 0)).
  - rewrite !print_seq. eexists. split; [reflexivity |].
    cbn [stdout disk add_line]. rewrite <- !app_assoc. auto.
  - rewrite bind_ret_l, !print_seq. eexists. split; [reflexivity |].
    cbn [stdout disk add_line]. rewrite <- !app_assoc. auto.
Qed.

(** The run of the writer once the output directory exists. *)
Lemma breathing_run_report (dir : string) (w : world) :
  (forall v, mkdir_fault dir v = None) ->
  exists (outcomes : list (option exn)) (manifest : option exn) (w' : world),
    GenerateAppIcons.generate_all_icons dir w = (Ok tt, w')
    /\ length outcomes = length GenerateAppIcons.ICON_SIZES
    /\ Forall2 (attempted dir) GenerateAppIcons.ICON_SIZES outcomes
    /\ stdout w'
       = stdout w ++ heading dir
         ++ zip_with entry_line GenerateAppIcons.ICON_SIZES outcomes
         ++ [manifest_line manifest]
         ++ closing (count_written outcomes)
              (count_failed outcomes + (if is_written manifest then 0 else 1)).
Proof.
  intros Hmkdir.
  unfold GenerateAppIcons.generate_all_icons, GenerateAppIcons.icon_loop.
  rewrite !print_seq.
  set (v := add_line "" _).
  assert (Emk : makedirs dir v = (Ok tt, v)) by (unfold makedirs; rewrite Hmkdir; reflexivity).
  rewrite (bind_ok _ _ _ _ _ Emk).
  destruct (icon_loop_attempts dir GenerateAppIcons.ICON_SIZES 0 0 v)
    as (outcomes & w1 & E1 & Hlen & Hout1 & Hat).
  rewrite !Z.add_0_l in E1. rewrite (bind_ok _ _ _ _ _ E1).
  destruct (write_contents_effect dir (count_failed outcomes) w1)
    as (manifest & w2 & E2 & Hout2 & _ & _).
  rewrite (bind_ok _ _ _ _ _ E2).
  destruct (summary_effect (count_written outcomes)
              (if is_written manifest then count_failed outcomes
               else count_failed outcomes + 1) w2) as (w3 & E3 & Hout3 & _).
  exists outcomes, manifest, w3.
  split; [exact E3 |]. split; [exact Hlen |]. split; [exact Hat |].
  rewrite Hout3, Hout2, Hout1. subst v. cbn [stdout add_line heading].
  rewrite <- !app_assoc. cbn [app]. do 7 f_equal.
  destruct manifest; cbn [is_written]; [reflexivity | rewrite Z.add_0_r; reflexivity].
Qed.

End Report.

(** The other writer has no handler: the exception of the first entry
    that fails leaves the loop and the function, in the state where it
    was raised. *)
Lemma zen_writer_stops `{Rasterizer} `{OS} (dir : string) (w : world)
    (pre post : list (num * Z * string)) (entry : num * Z * string)
    (e : exn) (w1 w2 : world) :
  (forall v, mkdir_fault dir v = None) ->
  GenerateIcons.ICON_SPECS = pre ++ entry :: post ->
  for_each pre (GenerateIcons.icon_step dir) (after_start w) = (Ok tt, w1) ->
  GenerateIcons.icon_step dir entry w1 = (Raise e, w2) ->
  GenerateIcons.generate_all_icons dir w = (Raise e, w2).
Proof.
  intros Hmkdir Hsplit Hpre Hentry.
  unfold GenerateIcons.generate_all_icons.
  assert (Emk : makedirs dir w = (Ok tt, w)) by (unfold makedirs; rewrite Hmkdir; reflexivity).
  rewrite (bind_ok _ _ _ _ _ Emk), print_seq. fold (after_start w).
  apply bind_raise. rewrite Hsplit, for_each_app.
  rewrite (bind_ok _ _ _ _ _ Hpre). cbn [for_each].
  apply bind_raise, Hentry.
Qed.

(** C1, as the code has it.  In the writer of the manifest-producing
    script one iteration of the loop is the attempt at the entry (render
    it, save it) followed by its report: when the attempt returns, the
    success count grows by one and the entry's success line is printed;
    when it raises, the exception is caught, the failure count grows by
    one, the entry's failure line is printed, and the iteration returns
    all the same.  So once the output directory exists the run goes
    through every entry of the size table in order and returns normally:
    there is one outcome per entry, each the outcome of the attempt at
    that entry, the report has one line per entry that tells its
    outcome, and the closing block shows the number of attempts that
    returned and, when it is positive, the number of failures (those of
    the entries, and one more if the manifest could not be written).
    The writer of the other script has no handler: the first entry
    whose render or save raises ends the loop and the function with that
    exception, in the state where it was raised, so the later entries
    are not processed and no closing line is printed. *)
Theorem writer_failure_handling `{Rasterizer} `{OS} (dir : string) (w : world) :
  (forall v, mkdir_fault dir v = None) ->
  (forall s f entry v,
      GenerateAppIcons.icon_step dir (s, f) entry v
      = match attempt dir entry v with
        | (Ok _, v1) =>
            (Ok (s + 1, f), add_line (GenerateAppIcons.ok_line entry.1 entry.2) v1)
        | (Raise e, v1) =>
            (Ok (s, f + 1), add_line (GenerateAppIcons.failed_line entry.1 e) v1)
        end)
  /\ (exists (outcomes : list (option exn)) (manifest : option exn) (w' : world),
        GenerateAppIcons.generate_all_icons dir w = (Ok tt, w')
        /\ length outcomes = 18%nat
        /\ Forall2 (attempted dir) GenerateAppIcons.ICON_SIZES outcomes
        /\ count_written outcomes + count_failed outcomes = 18
        /\ stdout w'
           = stdout w ++ heading dir
             ++ zip_with entry_line GenerateAppIcons.ICON_SIZES outcomes
             ++ [manifest_line manifest]
             ++ closing (count_written outcomes)
                  (count_failed outcomes + (if is_written manifest then 0 else 1)))
  /\ (forall pre post entry e w1 w2,
        GenerateIcons.ICON_SPECS = pre ++ entry :: post ->
        for_each pre (GenerateIcons.icon_step dir) (after_start w) = (Ok tt, w1) ->
        GenerateIcons.icon_step dir entry w1 = (Raise e, w2) ->
        GenerateIcons.generate_all_icons dir w = (Raise e, w2)).
Proof.
  intros Hmkdir.
  split; [intros s f entry v; apply icon_step_handler |].
  split.
  - destruct (breathing_run_report dir w Hmkdir)
      as (outcomes & manifest & w' & E & Hlen & Hat & Hout).
    exists outcomes, manifest, w'.
    split; [exact E |]. split; [exact Hlen |]. split; [exact Hat |].
    split; [| exact Hout].
    unfold count_written, count_failed.
    rewrite <- Nat2Z.inj_add, (List.filter_length is_written outcomes), Hlen. reflexivity.
  - intros pre post entry e w1 w2. apply zen_writer_stops, Hmkdir.
Qed.

Lemma writer_failure_handling_witness :
  (forall v, mkdir_fault (OS := Example.full_disk) "out" v = None)
  /\ exists (outcomes : list (option exn)) (w' : world),
       GenerateAppIcons.generate_all_icons (H := Example.box_rasterizer)
         (H0 := Example.full_disk) "out" Example.empty_world = (Ok tt, w')
       /\ count_written outcomes + count_failed outcomes = 18.
Proof.
  split; [intros v; reflexivity |].
  destruct (proj1 (proj2 (@writer_failure_handling Example.box_rasterizer Example.full_disk
                            "out" Example.empty_world (fun v => eq_refl))))
    as (outcomes & manifest & w' & E & _ & _ & Hsum & _).
  exists outcomes, w'. auto.
Defined.

(** C1 fails for the writer of [generate_icons.py]: with a full disk
    the save of the first entry raises, the run ends with that
    exception after two lines of output, and neither the other 17
    entries nor the closing lines follow: no later entry is announced
    and none has a file. *)
Lemma zen_writer_aborts_on_full_disk :
  let run := GenerateIcons.generate_all_icons (H := Example.box_rasterizer)
               (H0 := Example.full_disk)
               "./ZenFlow/Assets.xcassets/AppIcon.appiconset/" Example.empty_world in
  fst run = Raise (OSError "[Errno 28] No space left on device")
  /\ stdout (snd run)
     = [ "Generating ZenFlow app icons...";
         "  Creating icon-20@2x.png (40x40)..." ]%string
  /\ (forall spec, spec ∈ drop 1 GenerateIcons.ICON_SPECS ->
        disk (snd run)
          !! path_join "./ZenFlow/Assets.xcassets/AppIcon.appiconset/" spec.2 = None)
  /\ ~ exists w', run = (Ok tt, w').
Proof.
  assert (E : fst (GenerateIcons.generate_all_icons (H := Example.box_rasterizer)
                     (H0 := Example.full_disk)
                     "./ZenFlow/Assets.xcassets/AppIcon.appiconset/" Example.empty_world)
              = Raise (OSError "[Errno 28] No space left on device"))
    by (vm_compute; reflexivity).
  assert (D : disk (snd (GenerateIcons.generate_all_icons (H := Example.box_rasterizer)
                           (H0 := Example.full_disk)
                           "./ZenFlow/Assets.xcassets/AppIcon.appiconset/"
                           Example.empty_world)) = ∅)
    by (vm_compute; reflexivity).
  cbv zeta. split; [exact E |].
  split; [vm_compute; reflexivity |].
  split; [intros spec _; rewrite D; apply lookup_empty |].
  intros [w' Hrun]. rewrite Hrun in E. discriminate E.
Qed.

(** * Further properties

    What the two scripts do beyond the statements above: the outcome of
    every rendering call, the files and the report that a run leaves,
    and the numbers that the designs are drawn with. *)

(** ** The outcome of a rendering call *)

(** The colours that [create_radial_gradient] can interpolate: three
    channels each, and an alpha in the end colour when the start colour
    has one ([len(start_color) > 3] selects [end_color[3]]). *)
Definition colors_ok (start_color end_color : list Z) : Prop :=
  (3 <= length start_color)%nat /\ (3 <= length end_color)%nat
  /\ ((3 < length start_color)%nat -> (3 < length end_color)%nat).

#[export] Instance colors_ok_dec start_color end_color :
  Decision (colors_ok start_color end_color).
Proof. unfold colors_ok. apply _. Defined.

(** The state after [Image.new] and before the first drawing call. *)
Definition allocated (im : image) (w : world) : world :=
  {| heap := <[next w := im]> (heap w); next := S (next w);
     stdout := stdout w; disk := disk w |}.

Lemma radial_gradient_negative `{Rasterizer} size center start_radius end_radius
    start_color end_color w :
  size < 0 ->
  GenerateAppIcons.create_radial_gradient size center start_radius end_radius start_color end_color w
  = (Raise (ValueError "Width and height must be >= 0"), w).
Proof.
  intros Hsize. unfold GenerateAppIcons.create_radial_gradient, Image_new, mbind, M_bind.
  rewrite decide_True by (simpl; lia). reflexivity.
Qed.

Lemma radial_gradient_short_color `{Rasterizer} size center start_radius end_radius
    start_color end_color w :
  0 <= size -> start_radius < end_radius -> ~ colors_ok start_color end_color ->
  GenerateAppIcons.create_radial_gradient size center start_radius end_radius start_color end_color w
  = (Raise (IndexError "tuple index out of range"),
     allocated (new RGBA (size, size) (Some [0; 0; 0; 0])) w).
Proof.
  intros Hsize Hsteps Hbad.
  unfold GenerateAppIcons.create_radial_gradient, Image_new.
  rewrite decide_False by (simpl; lia).
  unfold range. rewrite (seqZ_cons 0) by lia.
  cbn [for_each]. rewrite truediv_ok by lia.
  unfold colors_ok in Hbad.
  destruct start_color as [| s0 [| s1 [| s2 [| s3 start_color]]]];
    destruct end_color as [| e0 [| e1 [| e2 [| e3 end_color]]]];
    try reflexivity;
    exfalso; apply Hbad; simpl; repeat split; lia.
Qed.

(** The arguments for which the outcome of [create_radial_gradient] is
    stated: a size, a centre and radii that the imaging library and the
    float conversions accept, a start radius that is not negative, so
    that no disc has an inverted bounding box, and colour channels
    within 0..255. *)
Definition gradient_arguments (size : Z) (center : Z * Z) (start_radius end_radius : Z)
    (start_color end_color : list Z) : Prop :=
  size <= 65536
  /\ -65536 <= center.1 <= 65536 /\ -65536 <= center.2 <= 65536
  /\ 0 <= start_radius /\ end_radius <= 65536
  /\ Forall (fun c => 0 <= c <= 255) start_color
  /\ Forall (fun c => 0 <= c <= 255) end_color.

(** X1: the outcome of [create_radial_gradient] from any state, for
    arguments as in [gradient_arguments].  A negative size is refused
    before anything is allocated.  When there is a step to draw and a
    colour lacks a channel that the loop reads, the first iteration
    raises [IndexError]: the blank image has been allocated and nothing
    is drawn.  In every other case the call returns a fresh RGBA image
    of the given size and disturbs nothing that existed.  And for any
    arguments at all, the division by [steps] is never a division by
    zero: the loop body runs only when [steps] is positive. *)
Theorem radial_gradient_outcome `{Rasterizer} (size : Z) (center : Z * Z)
    (start_radius end_radius : Z) (start_color end_color : list Z) (w : world) :
  let call := GenerateAppIcons.create_radial_gradient size center start_radius end_radius
                start_color end_color in
  (gradient_arguments size center start_radius end_radius start_color end_color ->
   (size < 0 -> call w = (Raise (ValueError "Width and height must be >= 0"), w))
   /\ (0 <= size -> start_radius < end_radius -> ~ colors_ok start_color end_color ->
       call w = (Raise (IndexError "tuple index out of range"),
                 allocated (new RGBA (size, size) (Some [0; 0; 0; 0])) w))
   /\ (0 <= size -> (start_radius < end_radius -> colors_ok start_color end_color) ->
       exists w' im,
         call w = (Ok (next w), w') /\ heap w' !! next w = Some im
         /\ shape im = (RGBA, (size, size), [0; 0; 0; 0]) /\ frame w w'))
  /\ (forall msg, fst (call w) <> Raise (ZeroDivisionError msg)).
Proof.
  intros call.
  assert (Hneg : size < 0 ->
            call w = (Raise (ValueError "Width and height must be >= 0"), w))
    by apply radial_gradient_negative.
  assert (Hbad : 0 <= size -> start_radius < end_radius ->
            ~ colors_ok start_color end_color ->
            call w = (Raise (IndexError "tuple index out of range"),
                      allocated (new RGBA (size, size) (Some [0; 0; 0; 0])) w))
    by apply radial_gradient_short_color.
  assert (Hok : 0 <= size -> (start_radius < end_radius -> colors_ok start_color end_color) ->
            exists w' im,
              call w = (Ok (next w), w') /\ heap w' !! next w = Some im
              /\ shape im = (RGBA, (size, size), [0; 0; 0; 0]) /\ frame w w').
  { intros Hsize Hcolors.
    destruct (BreathingCircles.create_radial_gradient_creates size center start_radius
                end_radius start_color end_color Hsize Hcolors w)
      as (w' & E & Him & _ & Hfr).
    exists w', (BreathingCircles.radial_gradient_image size center start_radius end_radius
                  start_color end_color).
    split; [exact E |]. split; [exact Him |]. split; [| exact Hfr].
    unfold BreathingCircles.radial_gradient_image.
    destruct (monotone_foldl
                (BreathingCircles.gradient_disc center start_radius end_radius
                   start_color end_color)
                (range (end_radius - start_radius))
                (fun i _ => BreathingCircles.monotone_ellipse _ _ _ _ _)
                (new RGBA (size, size) (Some [0; 0; 0; 0]))) as [-> _].
    reflexivity. }
  split; [intros _; split; [exact Hneg |]; split; [exact Hbad | exact Hok] |].
  intros msg.
  destruct (decide (size < 0)) as [Hs | Hs]; [rewrite Hneg by exact Hs; discriminate |].
  destruct (decide (start_radius < end_radius -> colors_ok start_color end_color))
    as [Hc | Hc].
  - destruct (Hok ltac:(lia) Hc) as (w' & im & -> & _). discriminate.
  - assert (Hlt : start_radius < end_radius).
    { destruct (decide (start_radius < end_radius)) as [Hlt | Hge]; [exact Hlt |].
      exfalso. apply Hc. intros Hlt. contradiction. }
    rewrite Hbad; [discriminate | lia | exact Hlt |].
    intros Hcol. apply Hc. intros _. exact Hcol.
Qed.

(** X2: the Breathing Circles renderer is total on the sizes up to 1024
    pixels, the largest of the table.  A negative size is refused before
    anything is allocated; for every other size, zero included, the call
    returns a fresh square RGB image of that size with every pixel
    written, prints nothing, writes no file and leaves the images that
    existed as they were.  Up to that size every ellipse of the design
    has a well-formed bounding box (see [DesignNumbers]), so that the
    imaging library has nothing to refuse. *)
Theorem breathing_renderer_total `{Rasterizer} (n : Z) (w : world) :
  n <= 1024 ->
  (n < 0 ->
   GenerateAppIcons.draw_breathing_circles_icon n w
   = (Raise (ValueError "Width and height must be >= 0"), w))
  /\ (0 <= n ->
      exists w' im,
        GenerateAppIcons.draw_breathing_circles_icon n w = (Ok (next w), w')
        /\ heap w' !! next w = Some im
        /\ im_mode im = RGB /\ im_size im = (n, n) /\ fully_assigned im
        /\ stdout w' = stdout w /\ disk w' = disk w
        /\ forall i, (i < next w)%nat -> heap w' !! i = heap w !! i).
Proof.
  intros _.
  split; [apply BreathingCircles.render_negative |].
  intros Hn.
  destruct (BreathingCircles.render_creates n Hn w) as (w' & E & Him & _ & _ & Hout & Hdisk & Hheap).
  exists w', (BreathingCircles.icon_image n).
  pose proof (BreathingCircles.icon_image_shape n) as Hsh.
  split; [exact E |]. split; [exact Him |].
  split; [exact (f_equal (fun sh => sh.1.1) Hsh) |].
  split; [exact (f_equal (fun sh => sh.1.2) Hsh) |].
  split; [apply BreathingCircles.icon_image_fully_assigned |].
  auto.
Qed.

Lemma breathing_renderer_total_witness :
  0 <= 1024
  /\ exists w' im,
       GenerateAppIcons.draw_breathing_circles_icon (H := Example.box_rasterizer) 0
         Example.empty_world = (Ok 0%nat, w')
       /\ heap w' !! 0%nat = Some im /\ im_size im = (0, 0).
Proof.
  split; [lia |].
  destruct (proj2 (@breathing_renderer_total Example.box_rasterizer 0
                     Example.empty_world ltac:(lia)) ltac:(lia))
    as (w' & im & E & Him & _ & Hsz & _).
  exists w', im. auto.
Defined.

(** X3: the outcome of the zen renderer at every size up to 65536.  A
    negative size is refused; the division by [max_radius] raises at
    size 1 and at no other size; for every other size, zero included
    (the loops do not run), the call returns a fresh square RGB image of
    that size with every pixel written and disturbs nothing else. *)
Theorem zen_renderer_outcomes `{Rasterizer} (n : Z) (w : world) :
  n <= 65536 ->
  (n < 0 ->
   GenerateIcons.create_zen_icon n w
   = (Raise (ValueError "Width and height must be >= 0"), w))
  /\ (fst (GenerateIcons.create_zen_icon n w)
      = Raise (ZeroDivisionError "float division by zero") <-> n = 1)
  /\ (0 <= n -> n <> 1 ->
      exists w' im,
        GenerateIcons.create_zen_icon n w = (Ok (next w), w')
        /\ heap w' !! next w = Some im
        /\ im_mode im = RGB /\ im_size im = (n, n) /\ fully_assigned im
        /\ stdout w' = stdout w /\ disk w' = disk w
        /\ forall i, (i < next w)%nat -> heap w' !! i = heap w !! i).
Proof.
  intros Hn.
  assert (Hok : 0 <= n -> n <> 1 ->
            exists w' im,
              GenerateIcons.create_zen_icon n w = (Ok (next w), w')
              /\ heap w' !! next w = Some im
              /\ im_mode im = RGB /\ im_size im = (n, n) /\ fully_assigned im
              /\ stdout w' = stdout w /\ disk w' = disk w
              /\ forall i, (i < next w)%nat -> heap w' !! i = heap w !! i).
  { intros Hpos Hne.
    assert (Hmax : 0 < n -> PrimFloat.eqb (ZenIcon.max_radius n) 0 = false)
      by (intros Hlt; apply max_radius_ok; lia).
    destruct (ZenIcon.zen_render_creates n Hpos Hmax w)
      as (w' & E & Him & _ & _ & Hout & Hdisk & Hheap).
    exists w', (ZenIcon.zen_image n).
    pose proof (ZenIcon.zen_image_shape n) as Hsh.
    split; [exact E |]. split; [exact Him |].
    split; [exact (f_equal (fun sh => sh.1.1) Hsh) |].
    split; [exact (f_equal (fun sh => sh.1.2) Hsh) |].
    split; [apply ZenIcon.zen_image_fully_assigned |].
    auto. }
  split; [apply ZenIcon.zen_render_negative |].
  split; [| exact Hok].
  split.
  - intros Hraise.
    destruct (decide (n < 0)) as [Hneg | Hpos].
    { rewrite ZenIcon.zen_render_negative in Hraise by exact Hneg. discriminate Hraise. }
    destruct (decide (n = 1)) as [-> | Hne]; [reflexivity |].
    destruct (Hok ltac:(lia) Hne) as (w' & im & E & _). rewrite E in Hraise.
    discriminate Hraise.
  - intros ->. rewrite ZenIcon.zen_render_raises; [reflexivity | lia | vm_compute; reflexivity].
Qed.

Lemma zen_renderer_outcomes_witness :
  0 <= 65536
  /\ exists w' im,
       GenerateIcons.create_zen_icon (H := Example.box_rasterizer) 0 Example.empty_world
       = (Ok 0%nat, w')
       /\ heap w' !! 0%nat = Some im /\ im_size im = (0, 0).
Proof.
  split; [lia |].
  destruct (proj2 (proj2 (@zen_renderer_outcomes Example.box_rasterizer 0
                            Example.empty_world ltac:(lia))) ltac:(lia) ltac:(lia))
    as (w' & im & E & Him & _ & Hsz & _).
  exists w', im. auto.
Defined.

(** ** The files a run leaves *)

(** The store after a sequence of writes, and what it holds. *)
Lemma foldl_insert_lookup_ne {A} (key : A -> string) (val : A -> file)
    (l : list A) (d : gmap string file) (p : string) :
  (forall a, a ∈ l -> key a <> p) ->
  foldl (fun acc a => <[key a := val a]> acc) d l !! p = d !! p.
Proof.
  revert d. induction l as [| b l IH]; intros d Hp; simpl.
  - reflexivity.
  - rewrite IH by (intros a Ha; apply Hp, list_elem_of_further, Ha).
    apply lookup_insert_ne, Hp, list_elem_of_here.
Qed.

Lemma foldl_insert_lookup {A} (key : A -> string) (val : A -> file)
    (l : list A) (d : gmap string file) (a : A) :
  NoDup (map key l) -> a ∈ l ->
  foldl (fun acc a => <[key a := val a]> acc) d l !! key a = Some (val a).
Proof.
  revert d. induction l as [| b l IH]; intros d Hnd Ha; simpl.
  - inversion Ha.
  - simpl in Hnd. apply NoDup_cons in Hnd as [Hb Hnd].
    apply elem_of_cons in Ha as [-> | Ha]; [| apply IH; assumption].
    rewrite foldl_insert_lookup_ne; [apply lookup_insert_eq |].
    intros a Ha Heq. apply Hb. rewrite <- Heq.
    apply list_elem_of_fmap. exists a. auto.
Qed.

Lemma path_join_inj (dir a b : string) : path_join dir a = path_join dir b -> a = b.
Proof.
  unfold path_join. destruct (String.eqb dir "" || ends_with_slash dir); intros Heq.
  - apply (inj (String.append dir)) in Heq. exact Heq.
  - apply (inj (String.append dir)) in Heq.
    apply (inj (String.append "/")) in Heq. exact Heq.
Qed.

Lemma path_div_inj (dir a b : string) : path_div dir a = path_div dir b -> a = b.
Proof.
  unfold path_div. intros Heq.
  apply (inj (String.append (path_root dir))) in Heq.
  apply (inj (String.append _)) in Heq. exact Heq.
Qed.

(** [Path(dir) / name] on some directories. *)
Lemma path_div_examples :
  path_div "out" "icon-1024.png" = "out/icon-1024.png"%string
  /\ path_div "" "icon-1024.png" = "icon-1024.png"%string
  /\ path_div "." "icon-1024.png" = "icon-1024.png"%string
  /\ path_div "/" "icon-1024.png" = "/icon-1024.png"%string
  /\ path_div "a//b/" "icon-1024.png" = "a/b/icon-1024.png"%string
  /\ path_div "./a/./b" "icon-1024.png" = "a/b/icon-1024.png"%string
  /\ path_div "../a" "icon-1024.png" = "../a/icon-1024.png"%string
  /\ path_div "//a" "icon-1024.png" = "//a/icon-1024.png"%string
  /\ path_div "///a" "icon-1024.png" = "/a/icon-1024.png"%string
  /\ path_div "/ZenFlow/Assets.xcassets/AppIcon.appiconset" "Contents.json"
     = "/ZenFlow/Assets.xcassets/AppIcon.appiconset/Contents.json"%string.
Proof. repeat split; reflexivity. Qed.

Lemma NoDup_map_inj {A B} (f : A -> B) (l : list A) :
  (forall a b, f a = f b -> a = b) -> NoDup l -> NoDup (map f l).
Proof.
  intros Hf Hl. apply (NoDup_fmap_2_strong f); [| exact Hl].
  intros a b _ _. apply Hf.
Qed.

(** *** The writer of generate_icons.py *)

Definition spec_pixels (spec : num * Z * string) : Z :=
  GenerateIcons.pixel_size spec.1.1 spec.1.2.

Definition spec_path (dir : string) (spec : num * Z * string) : string :=
  path_join dir spec.2.

Definition creating_lines (l : list (num * Z * string)) : list string :=
  map (fun spec => GenerateIcons.creating_line spec.2 (spec_pixels spec)) l.

(** The files on disk once the icons of [l] have been saved. *)
Definition zen_saved `{Rasterizer} (dir : string) (l : list (num * Z * string))
    (d : gmap string file) : gmap string file :=
  foldl (fun acc spec =>
           <[spec_path dir spec := PngFile (ZenIcon.zen_image (spec_pixels spec))]> acc)
        d l.

Lemma icon_specs_in_range :
  Forall (fun spec => 2 <= spec_pixels spec <= 65536) GenerateIcons.ICON_SPECS.
Proof. repeat (constructor; [vm_compute; split; intros Hc; discriminate Hc |]). constructor. Qed.

Lemma icon_specs_distinct : NoDup (map snd GenerateIcons.ICON_SPECS).
Proof. apply (@bool_decide_unpack _ (NoDup_dec _)). vm_compute. exact I. Qed.

Section ZenWriter.
Context `{Rasterizer} `{OS}.

Lemma zen_step_renders (dir : string) (spec : num * Z * string) (w : world) :
  2 <= spec_pixels spec <= 65536 ->
  exists w1,
    GenerateIcons.icon_step dir spec w
    = Image_save (next w) (spec_path dir spec) w1
    /\ heap w1 !! next w = Some (ZenIcon.zen_image (spec_pixels spec))
    /\ stdout w1 = stdout w ++ [GenerateIcons.creating_line spec.2 (spec_pixels spec)]
    /\ disk w1 = disk w.
Proof.
  intros Hpx. destruct spec as [[base scale] filename].
  unfold GenerateIcons.icon_step. rewrite print_seq.
  destruct (ZenIcon.zen_render_creates (spec_pixels (base, scale, filename)) ltac:(lia)
              (fun _ => max_radius_ok _ Hpx)
              (add_line (GenerateIcons.creating_line filename
                           (spec_pixels (base, scale, filename))) w))
    as (w1 & E & Him & _ & _ & Hout & Hdisk & _).
  exists w1. unfold spec_pixels in *. cbn [fst snd] in *.
  rewrite (bind_ok _ _ _ _ _ E). auto.
Qed.

Lemma zen_step_saves (dir : string) (spec : num * Z * string) (w : world) :
  2 <= spec_pixels spec <= 65536 ->
  (forall im v, save_fault (spec_path dir spec) im v = None) ->
  exists w',
    GenerateIcons.icon_step dir spec w = (Ok tt, w')
    /\ stdout w' = stdout w ++ [GenerateIcons.creating_line spec.2 (spec_pixels spec)]
    /\ disk w' = <[spec_path dir spec := PngFile (ZenIcon.zen_image (spec_pixels spec))]>
                   (disk w).
Proof.
  intros Hpx Hsave. destruct (zen_step_renders dir spec w Hpx) as (w1 & -> & Him & Hout & Hdisk).
  unfold Image_save. rewrite Him, Hsave. eexists. split; [reflexivity |].
  simpl. rewrite Hdisk. auto.
Qed.

Lemma zen_step_fails (dir : string) (spec : num * Z * string) (w : world) (e : exn) :
  2 <= spec_pixels spec <= 65536 ->
  (forall im v, save_fault (spec_path dir spec) im v = Some e) ->
  exists w',
    GenerateIcons.icon_step dir spec w = (Raise e, w')
    /\ stdout w' = stdout w ++ [GenerateIcons.creating_line spec.2 (spec_pixels spec)]
    /\ disk w' = disk w.
Proof.
  intros Hpx Hsave. destruct (zen_step_renders dir spec w Hpx) as (w1 & -> & Him & Hout & Hdisk).
  unfold Image_save. rewrite Him, Hsave. eexists. split; [reflexivity |]. auto.
Qed.

(** A stretch of the loop in which every save succeeds. *)
Lemma zen_stretch (dir : string) (l : list (num * Z * string)) (w : world) :
  Forall (fun spec => 2 <= spec_pixels spec <= 65536) l ->
  Forall (fun spec => forall im v, save_fault (spec_path dir spec) im v = None) l ->
  exists w',
    for_each l (GenerateIcons.icon_step dir) w = (Ok tt, w')
    /\ stdout w' = stdout w ++ creating_lines l
    /\ disk w' = zen_saved dir l (disk w).
Proof.
  revert w. induction l as [| spec l IH]; intros w Hpx Hsave.
  - exists w. simpl. rewrite app_nil_r. auto.
  - apply Forall_cons in Hpx as [Hpx Hpxs]. apply Forall_cons in Hsave as [Hsave Hsaves].
    destruct (zen_step_saves dir spec w Hpx Hsave) as (w1 & E1 & Hout1 & Hdisk1).
    destruct (IH w1 Hpxs Hsaves) as (w2 & E2 & Hout2 & Hdisk2).
    exists w2. cbn [for_each]. rewrite (bind_ok _ _ _ _ _ E1).
    split; [exact E2 |]. split.
    + rewrite Hout2, Hout1, <- app_assoc. reflexivity.
    + rewrite Hdisk2, Hdisk1. reflexivity.
Qed.

End ZenWriter.

Lemma zen_saved_holds `{Rasterizer} (dir : string) (l : list (num * Z * string))
    (d : gmap string file) (spec : num * Z * string) :
  NoDup (map snd l) -> spec ∈ l ->
  zen_saved dir l d !! path_join dir spec.2
  = Some (PngFile (ZenIcon.zen_image (spec_pixels spec))).
Proof.
  intros Hnd Hin. unfold zen_saved.
  apply (foldl_insert_lookup (spec_path dir)
           (fun spec => PngFile (ZenIcon.zen_image (spec_pixels spec))) l d spec);
    [| exact Hin].
  change (map (spec_path dir) l) with (map (fun spec => path_join dir (snd spec)) l).
  rewrite <- (map_map snd (path_join dir)).
  apply NoDup_map_inj; [apply path_join_inj | exact Hnd].
Qed.

Lemma zen_saved_keeps `{Rasterizer} (dir : string) (l : list (num * Z * string))
    (d : gmap string file) (p : string) :
  (forall spec, spec ∈ l -> p <> path_join dir spec.2) ->
  zen_saved dir l d !! p = d !! p.
Proof.
  intros Hp. unfold zen_saved. apply foldl_insert_lookup_ne.
  intros spec Hin Heq. apply (Hp spec Hin). symmetry. exact Heq.
Qed.

Lemma specs_split_distinct (pre post : list (num * Z * string)) :
  GenerateIcons.ICON_SPECS = pre ++ post ->
  NoDup (map snd pre)
  /\ forall a b, a ∈ pre -> b ∈ post -> a.2 <> b.2.
Proof.
  intros Hsplit. pose proof icon_specs_distinct as Hnd.
  rewrite Hsplit, map_app in Hnd. apply NoDup_app in Hnd as (Hpre & Hdisj & _).
  split; [exact Hpre |]. intros a b Ha Hb Heq.
  apply (Hdisj a.2).
  - apply list_elem_of_fmap. exists a. auto.
  - rewrite Heq. apply list_elem_of_fmap. exists b. auto.
Qed.

(** X4: on a system where no call fails, the writer of generate_icons.py
    returns normally, prints the opening line, one line per entry of
    [ICON_SPECS] and the two closing lines, and leaves under the output
    directory one PNG file per entry: a square RGB image of the entry's
    pixel dimension with every pixel written.  No other file changes. *)
Theorem zen_writer_writes_every_icon `{Rasterizer} `{OS} (dir : string) (w : world) :
  (forall v, mkdir_fault dir v = None) ->
  (forall p im v, save_fault p im v = None) ->
  exists w',
    GenerateIcons.generate_all_icons dir w = (Ok tt, w')
    /\ stdout w'
       = stdout w ++ ["Generating ZenFlow app icons..."%string]
         ++ creating_lines GenerateIcons.ICON_SPECS
         ++ [GenerateIcons.done_line; ("Icons saved to: " +:+ dir)%string]
    /\ (forall base scale filename,
          (base, scale, filename) ∈ GenerateIcons.ICON_SPECS ->
          exists im,
            disk w' !! path_join dir filename = Some (PngFile im)
            /\ im_mode im = RGB
            /\ im_size im = (GenerateIcons.pixel_size base scale,
                             GenerateIcons.pixel_size base scale)
            /\ fully_assigned im)
    /\ (forall p,
          (forall spec, spec ∈ GenerateIcons.ICON_SPECS -> p <> path_join dir spec.2) ->
          disk w' !! p = disk w !! p).
Proof.
  intros Hmkdir Hsave.
  unfold GenerateIcons.generate_all_icons.
  assert (Emk : makedirs dir w = (Ok tt, w)) by (unfold makedirs; rewrite Hmkdir; reflexivity).
  rewrite (bind_ok _ _ _ _ _ Emk), print_seq.
  destruct (zen_stretch dir GenerateIcons.ICON_SPECS
              (add_line "Generating ZenFlow app icons..." w) icon_specs_in_range)
    as (w1 & E1 & Hout1 & Hdisk1).
  { apply Forall_forall. intros spec _ im v. apply Hsave. }
  rewrite (bind_ok _ _ _ _ _ E1), !print_seq.
  eexists. split; [reflexivity |].
  cbn [stdout disk add_line]. rewrite Hout1, Hdisk1. cbn [stdout disk add_line].
  split; [rewrite <- !app_assoc; reflexivity |].
  split.
  - intros base scale filename Hin.
    exists (ZenIcon.zen_image (GenerateIcons.pixel_size base scale)).
    pose proof (ZenIcon.zen_image_shape (GenerateIcons.pixel_size base scale)) as Hsh.
    split; [apply (zen_saved_holds dir _ _ (base, scale, filename) icon_specs_distinct Hin) |].
    split; [exact (f_equal (fun sh => sh.1.1) Hsh) |].
    split; [exact (f_equal (fun sh => sh.1.2) Hsh) |].
    apply ZenIcon.zen_image_fully_assigned.
  - intros p Hp. apply zen_saved_keeps, Hp.
Qed.

Lemma zen_writer_writes_every_icon_witness :
  ((forall v, mkdir_fault (OS := Example.reliable) "out" v = None)
   /\ (forall p im v, save_fault (OS := Example.reliable) p im v = None))
  /\ exists w' im,
       GenerateIcons.generate_all_icons (H := Example.box_rasterizer)
         (H0 := Example.reliable) "out" Example.empty_world = (Ok tt, w')
       /\ disk w' !! "out/icon-1024.png"%string = Some (PngFile im)
       /\ im_size im = (1024, 1024).
Proof.
  split; [split; intros; reflexivity |].
  destruct (@zen_writer_writes_every_icon Example.box_rasterizer Example.reliable "out"
              Example.empty_world (fun v => eq_refl) (fun p im v => eq_refl))
    as (w' & E & _ & Hfiles & _).
  destruct (Hfiles (Int 1024) 1 "icon-1024.png"%string) as (im & Him & _ & Hsz & _).
  { do 17 apply list_elem_of_further. apply list_elem_of_here. }
  exists w', im. auto.
Defined.

(** An operating system on which saving one given file is refused. *)
Definition refuses (path : string) : OS :=
  {| mkdir_fault := fun _ _ => None;
     save_fault := fun p _ _ =>
       if String.eqb p path then Some (OSError "[Errno 13] Permission denied") else None;
     write_fault := fun _ _ => None |}.

(** X5: the writer of generate_icons.py does not clean up: when the save of
    an entry is refused after the saves of the entries before it went
    through, the run ends with that exception, the files of the earlier
    entries stay on disk, and the file of the failing entry and of every
    later entry is as it was before the run. *)
Theorem zen_writer_leaves_partial_output `{Rasterizer} `{OS} (dir : string) (w : world)
    (pre post : list (num * Z * string)) (entry : num * Z * string) (e : exn) :
  (forall v, mkdir_fault dir v = None) ->
  GenerateIcons.ICON_SPECS = pre ++ entry :: post ->
  Forall (fun spec => forall im v, save_fault (path_join dir spec.2) im v = None) pre ->
  (forall im v, save_fault (path_join dir entry.2) im v = Some e) ->
  exists w',
    GenerateIcons.generate_all_icons dir w = (Raise e, w')
    /\ stdout w'
       = stdout w ++ ["Generating ZenFlow app icons..."%string]
         ++ creating_lines (pre ++ [entry])
    /\ (forall spec, spec ∈ pre ->
          exists im,
            disk w' !! path_join dir spec.2 = Some (PngFile im)
            /\ im_size im = (spec_pixels spec, spec_pixels spec))
    /\ (forall spec, spec ∈ entry :: post ->
          disk w' !! path_join dir spec.2 = disk w !! path_join dir spec.2).
Proof.
  intros Hmkdir Hsplit Hpre Hentry.
  pose proof icon_specs_in_range as Hrange. rewrite Hsplit in Hrange.
  apply Forall_app in Hrange as [Hrange_pre Hrange_rest].
  apply Forall_cons in Hrange_rest as [Hrange_entry _].
  destruct (specs_split_distinct pre (entry :: post) Hsplit) as [Hnd Hdisj].
  destruct (zen_stretch dir pre (after_start w) Hrange_pre Hpre) as (w1 & E1 & Hout1 & Hdisk1).
  destruct (zen_step_fails dir entry w1 e Hrange_entry Hentry) as (w2 & E2 & Hout2 & Hdisk2).
  exists w2.
  split; [apply (zen_writer_stops dir w pre post entry e w1 w2); assumption |].
  rewrite Hout2, Hout1, Hdisk2, Hdisk1. unfold after_start. cbn [stdout disk add_line].
  split.
  { unfold creating_lines. rewrite map_app, <- !app_assoc. reflexivity. }
  split.
  - intros spec Hin. exists (ZenIcon.zen_image (spec_pixels spec)).
    split; [apply zen_saved_holds; assumption |].
    exact (f_equal (fun sh => sh.1.2) (ZenIcon.zen_image_shape (spec_pixels spec))).
  - intros spec Hin. apply zen_saved_keeps.
    intros spec' Hin' Heq. apply path_join_inj in Heq.
    apply (Hdisj spec' spec Hin' Hin). symmetry. exact Heq.
Qed.

Lemma zen_writer_leaves_partial_output_witness :
  let os := refuses "out/icon-29@2x.png" in
  let pre := take 2 GenerateIcons.ICON_SPECS in
  let post := drop 3 GenerateIcons.ICON_SPECS in
  let entry := (Int 29, 2, "icon-29@2x.png"%string) in
  ((forall v, mkdir_fault (OS := os) "out" v = None)
   /\ GenerateIcons.ICON_SPECS = pre ++ entry :: post
   /\ Forall (fun spec => forall im v,
                save_fault (OS := os) (path_join "out" spec.2) im v = None) pre
   /\ (forall im v, save_fault (OS := os) (path_join "out" entry.2) im v
                    = Some (OSError "[Errno 13] Permission denied")))
  /\ exists w' im,
       GenerateIcons.generate_all_icons (H := Example.box_rasterizer) (H0 := os)
         "out" Example.empty_world
       = (Raise (OSError "[Errno 13] Permission denied"), w')
       /\ disk w' !! "out/icon-20@3x.png"%string = Some (PngFile im)
       /\ disk w' !! "out/icon-29@2x.png"%string = None.
Proof.
  cbv zeta.
  assert (Hmk : forall v, mkdir_fault (OS := refuses "out/icon-29@2x.png") "out" v = None)
    by (intros v; reflexivity).
  assert (Hsplit : GenerateIcons.ICON_SPECS
                   = take 2 GenerateIcons.ICON_SPECS
                     ++ (Int 29, 2, "icon-29@2x.png"%string)
                        :: drop 3 GenerateIcons.ICON_SPECS) by reflexivity.
  assert (Hpre : Forall (fun spec => forall im v,
                           save_fault (OS := refuses "out/icon-29@2x.png")
                             (path_join "out" spec.2) im v = None)
                   (take 2 GenerateIcons.ICON_SPECS))
    by (repeat constructor).
  assert (Hentry : forall im v,
            save_fault (OS := refuses "out/icon-29@2x.png")
              (path_join "out" (Int 29, 2, "icon-29@2x.png"%string).2) im v
            = Some (OSError "[Errno 13] Permission denied"))
    by (intros im v; reflexivity).
  split; [auto |].
  destruct (@zen_writer_leaves_partial_output Example.box_rasterizer
              (refuses "out/icon-29@2x.png") "out" Example.empty_world
              _ _ _ _ Hmk Hsplit Hpre Hentry)
    as (w' & E & _ & Hkept & Hnot).
  destruct (Hkept (Int 20, 3, "icon-20@3x.png"%string)) as (im & Him & _).
  { apply list_elem_of_further, list_elem_of_here. }
  exists w', im. split; [exact E |]. split; [exact Him |].
  apply (Hnot (Int 29, 2, "icon-29@2x.png"%string)). apply list_elem_of_here.
Defined.

(** *** Every run of the writer of generate_icons.py *)

Section ZenRuns.
Context `{Rasterizer} `{OS}.

(** The loop on any operating system: it goes through, or stops at the
    first entry whose save is refused. *)
Lemma zen_stretch_any (dir : string) (l : list (num * Z * string)) (w : world) :
  Forall (fun spec => 2 <= spec_pixels spec <= 65536) l ->
  (exists w',
      for_each l (GenerateIcons.icon_step dir) w = (Ok tt, w')
      /\ stdout w' = stdout w ++ creating_lines l
      /\ disk w' = zen_saved dir l (disk w))
  \/ (exists pre entry post e w',
        l = pre ++ entry :: post
        /\ for_each l (GenerateIcons.icon_step dir) w = (Raise e, w')
        /\ (exists im v, save_fault (spec_path dir entry) im v = Some e)
        /\ stdout w' = stdout w ++ creating_lines (pre ++ [entry])
        /\ disk w' = zen_saved dir pre (disk w)).
Proof.
  revert w. induction l as [| spec l IH]; intros w Hpx.
  - left. exists w. simpl. rewrite app_nil_r. auto.
  - apply Forall_cons in Hpx as [Hpx Hpxs].
    destruct (zen_step_renders dir spec w Hpx) as (w1 & Estep & Him & Hout & Hdisk).
    cbn [for_each].
    destruct (save_fault (spec_path dir spec) (ZenIcon.zen_image (spec_pixels spec)) w1)
      as [e |] eqn:Hfault.
    + right. exists [], spec, l, e, w1.
      assert (E : GenerateIcons.icon_step dir spec w = (Raise e, w1)).
      { rewrite Estep. unfold Image_save. rewrite Him, Hfault. reflexivity. }
      split; [reflexivity |]. split; [apply bind_raise, E |].
      split; [eauto |]. split; [exact Hout | exact Hdisk].
    + set (w2 := set_disk (<[spec_path dir spec
                             := PngFile (ZenIcon.zen_image (spec_pixels spec))]> (disk w1)) w1).
      assert (E : GenerateIcons.icon_step dir spec w = (Ok tt, w2)).
      { rewrite Estep. unfold Image_save. rewrite Him, Hfault. reflexivity. }
      rewrite (bind_ok _ _ _ _ _ E).
      destruct (IH w2 Hpxs) as [(w' & E' & Hout' & Hdisk')
                               | (pre & entry & post & e & w' & -> & E' & Hcause & Hout' & Hdisk')].
      * left. exists w'. split; [exact E' |].
        rewrite Hout', Hdisk'. subst w2. cbn [stdout disk set_disk]. rewrite Hout, Hdisk.
        split; [rewrite <- app_assoc; reflexivity | reflexivity].
      * right. exists (spec :: pre), entry, post, e, w'.
        split; [reflexivity |]. split; [exact E' |]. split; [exact Hcause |].
        rewrite Hout', Hdisk'. subst w2. cbn [stdout disk set_disk]. rewrite Hout, Hdisk.
        split; [rewrite <- app_assoc; reflexivity | reflexivity].
Qed.

End ZenRuns.

(** X6: rendering never fails at the sizes of [ICON_SPECS], so a run of
    the writer of generate_icons.py, on any operating system, ends in
    one of two ways.  Either it returns normally, and then the closing
    lines stand: every one of the 18 files is on disk, a square RGB
    image of the entry's pixel dimension.  Or it raises an exception
    that comes from the creation of the directory or from the save of
    one entry; the closing lines are not printed, the entries before
    that one have their files and the later ones are not reached: their
    files are as they were before the run.  Nothing is said of the file
    of the entry whose save was refused. *)
Theorem zen_run_outcomes `{Rasterizer} `{OS} (dir : string) (w : world) :
  (exists w',
      GenerateIcons.generate_all_icons dir w = (Ok tt, w')
      /\ stdout w'
         = stdout w ++ ["Generating ZenFlow app icons..."%string]
           ++ creating_lines GenerateIcons.ICON_SPECS
           ++ [GenerateIcons.done_line; ("Icons saved to: " +:+ dir)%string]
      /\ forall spec, spec ∈ GenerateIcons.ICON_SPECS ->
           exists im,
             disk w' !! path_join dir spec.2 = Some (PngFile im)
             /\ im_mode im = RGB /\ im_size im = (spec_pixels spec, spec_pixels spec))
  \/ (exists e w',
        GenerateIcons.generate_all_icons dir w = (Raise e, w')
        /\ (GenerateIcons.done_line ∉ drop (length (stdout w)) (stdout w'))
        /\ ((mkdir_fault dir w = Some e /\ w' = w)
            \/ exists pre entry post,
                 GenerateIcons.ICON_SPECS = pre ++ entry :: post
                 /\ (exists im v, save_fault (path_join dir entry.2) im v = Some e)
                 /\ stdout w'
                    = stdout w ++ ["Generating ZenFlow app icons..."%string]
                      ++ creating_lines (pre ++ [entry])
                 /\ (forall spec, spec ∈ pre ->
                       exists im, disk w' !! path_join dir spec.2 = Some (PngFile im))
                 /\ (forall spec, spec ∈ post ->
                       disk w' !! path_join dir spec.2 = disk w !! path_join dir spec.2))).
Proof.
  unfold GenerateIcons.generate_all_icons.
  destruct (mkdir_fault dir w) as [e |] eqn:Hmk.
  { right. exists e, w.
    assert (Emk : makedirs dir w = (Raise e, w)) by (unfold makedirs; rewrite Hmk; reflexivity).
    split; [apply bind_raise, Emk |].
    split; [rewrite drop_all; apply not_elem_of_nil |]. left. auto. }
  assert (Emk : makedirs dir w = (Ok tt, w)) by (unfold makedirs; rewrite Hmk; reflexivity).
  rewrite (bind_ok _ _ _ _ _ Emk), print_seq.
  destruct (zen_stretch_any dir GenerateIcons.ICON_SPECS
              (add_line "Generating ZenFlow app icons..." w) icon_specs_in_range)
    as [(w1 & E1 & Hout1 & Hdisk1)
       | (pre & entry & post & e & w1 & Hsplit & E1 & Hcause & Hout1 & Hdisk1)].
  - left. rewrite (bind_ok _ _ _ _ _ E1), !print_seq.
    eexists. split; [reflexivity |].
    cbn [stdout disk add_line]. rewrite Hout1, Hdisk1. cbn [stdout disk add_line].
    split; [rewrite <- !app_assoc; reflexivity |].
    intros spec Hin. exists (ZenIcon.zen_image (spec_pixels spec)).
    pose proof (ZenIcon.zen_image_shape (spec_pixels spec)) as Hsh.
    split; [apply (zen_saved_holds dir _ _ spec icon_specs_distinct Hin) |].
    split; [exact (f_equal (fun sh => sh.1.1) Hsh) | exact (f_equal (fun sh => sh.1.2) Hsh)].
  - right. exists e, w1. split; [apply bind_raise, E1 |].
    destruct (specs_split_distinct pre (entry :: post) Hsplit) as [Hnd Hdisj].
    cbn [stdout add_line] in Hout1. cbn [disk add_line] in Hdisk1.
    split.
    { rewrite Hout1, <- app_assoc, drop_app_length.
      intros Hin. apply elem_of_cons in Hin as [Heq | Hin]; [discriminate Heq |].
      unfold creating_lines in Hin. apply list_elem_of_fmap in Hin as (spec & Heq & _).
      discriminate Heq. }
    right. exists pre, entry, post.
    split; [exact Hsplit |]. split; [exact Hcause |].
    split; [rewrite Hout1, <- app_assoc; reflexivity |].
    rewrite Hdisk1. split.
    + intros spec Hin. exists (ZenIcon.zen_image (spec_pixels spec)).
      apply zen_saved_holds; assumption.
    + intros spec Hin. apply zen_saved_keeps.
      intros spec' Hin' Heq. apply path_join_inj in Heq.
      apply (Hdisj spec' spec Hin' (list_elem_of_further _ _ _ Hin)). symmetry. exact Heq.
Qed.

(** An operating system on which the output directory cannot be created. *)
Definition read_only : OS :=
  {| mkdir_fault := fun _ _ => Some (OSError "[Errno 30] Read-only file system");
     save_fault := fun _ _ _ => None;
     write_fault := fun _ _ => None |}.

(** X7: neither writer handles a failure to create the output directory:
    the call precedes the [try] block of the first writer, and the
    second has none.  The run ends with that exception; the first
    writer has printed its heading, the second nothing; no image is
    rendered and no file is written. *)
Theorem directory_failure_ends_the_run `{Rasterizer} `{OS} (dir : string) (w : world)
    (e : exn) :
  (forall v, mkdir_fault dir v = Some e) ->
  (exists w',
      GenerateAppIcons.generate_all_icons dir w = (Raise e, w')
      /\ stdout w' = stdout w ++ heading dir
      /\ disk w' = disk w /\ heap w' = heap w /\ next w' = next w)
  /\ GenerateIcons.generate_all_icons dir w = (Raise e, w).
Proof.
  intros Hmkdir. split.
  - unfold GenerateAppIcons.generate_all_icons. rewrite !print_seq.
    set (v := add_line "" _).
    assert (Emk : makedirs dir v = (Raise e, v))
      by (unfold makedirs; rewrite Hmkdir; reflexivity).
    exists v. split; [apply bind_raise, Emk |].
    subst v. cbn [stdout disk heap next add_line heading].
    rewrite <- !app_assoc. auto.
  - unfold GenerateIcons.generate_all_icons. apply bind_raise.
    unfold makedirs. rewrite Hmkdir. reflexivity.
Qed.

Lemma directory_failure_ends_the_run_witness :
  (forall v, mkdir_fault (OS := read_only) "out" v
             = Some (OSError "[Errno 30] Read-only file system"))
  /\ GenerateIcons.generate_all_icons (H := Example.box_rasterizer) (H0 := read_only)
       "out" Example.empty_world
     = (Raise (OSError "[Errno 30] Read-only file system"), Example.empty_world).
Proof.
  split; [intros v; reflexivity |].
  exact (proj2 (@directory_failure_ends_the_run Example.box_rasterizer read_only "out"
                  Example.empty_world _ (fun v => eq_refl))).
Defined.


Module ManifestWriter.
Import GenerateAppIcons.

(** *** The writer of Scripts/generate_app_icons.py *)

Section BreathingWriter.
Context `{Rasterizer} `{OS}.

Definition entry_file (dir : string) (entry : string * Z) (o : option exn)
    (d : gmap string file) : gmap string file :=
  match o with
  | None => <[path_div dir entry.1 := PngFile (BreathingCircles.icon_image entry.2)]> d
  | Some _ => d
  end.

Definition files_after (dir : string) (l : list ((string * Z) * option exn))
    (d : gmap string file) : gmap string file :=
  foldl (fun acc eo => entry_file dir eo.1 eo.2 acc) d l.

(** An exception caught for an entry comes from the render, which only
    refuses a negative size, or from the save. *)
Definition caught (dir : string) (entry : string * Z) (o : option exn) : Prop :=
  match o with
  | None => 0 <= entry.2
  | Some e => entry.2 < 0 \/ exists im v, save_fault (path_div dir entry.1) im v = Some e
  end.

Lemma icon_step_effect (dir : string) (s f : Z) (entry : string * Z) (w : world) :
  exists o w',
    icon_step dir (s, f) entry w
    = (Ok (if is_written o then (s + 1, f) else (s, f + 1)), w')
    /\ stdout w' = stdout w ++ [entry_line entry o]
    /\ disk w' = entry_file dir entry o (disk w)
    /\ caught dir entry o.
Proof.
  destruct entry as [filename px].
  unfold icon_step, try_except, mbind, M_bind.
  destruct (BreathingCircles.render_computes px w) as (w1 & E & (_ & Hout & Hdisk & _) & Him).
  rewrite E. unfold BreathingCircles.icon_result in *.
  destruct (decide (px < 0)) as [Hneg | Hpos].
  - exists (Some (ValueError "Width and height must be >= 0")). eexists.
    split; [reflexivity |]. simpl. rewrite Hout, Hdisk. auto.
  - destruct Him as [Him _]. unfold Image_save. rewrite Him.
    destruct (save_fault (path_div dir filename) (BreathingCircles.icon_image px) w1)
      as [e |] eqn:Hsave.
    + exists (Some e). eexists. split; [reflexivity |]. simpl. rewrite Hout, Hdisk.
      split; [reflexivity |]. split; [reflexivity |]. right. eauto.
    + exists None. eexists. split; [reflexivity |]. simpl. rewrite Hout, Hdisk.
      split; [reflexivity |]. split; [reflexivity | lia].
Qed.

Lemma icon_stretch_effect (dir : string) (l : list (string * Z)) (s f : Z) (w : world) :
  exists outcomes w',
    for_fold l (s, f) (icon_step dir) w
    = (Ok (s + count_written outcomes, f + count_failed outcomes), w')
    /\ length outcomes = length l
    /\ stdout w' = stdout w ++ zip_with entry_line l outcomes
    /\ disk w' = files_after dir (zip l outcomes) (disk w)
    /\ Forall2 (caught dir) l outcomes.
Proof.
  revert s f w. induction l as [| entry l IH]; intros s f w.
  - exists [], w. simpl. unfold count_written, count_failed. simpl.
    rewrite app_nil_r, !Z.add_0_r. repeat split; auto.
  - destruct (icon_step_effect dir s f entry w) as (o & w1 & E1 & Hout1 & Hdisk1 & Hc1).
    destruct (IH (if is_written o then s + 1 else s) (if is_written o then f else f + 1) w1)
      as (os & w2 & E2 & Hlen & Hout2 & Hdisk2 & Hcs).
    exists (o :: os), w2. cbn [for_fold]. rewrite (bind_ok _ _ _ _ _ E1).
    split.
    { unfold count_written, count_failed in *.
      destruct o as [e |]; cbn [is_written List.filter negb length] in *;
        rewrite E2, Nat2Z.inj_succ; do 3 f_equal; lia. }
    split; [simpl; lia |].
    split; [rewrite Hout2, Hout1, <- app_assoc; reflexivity |].
    split; [rewrite Hdisk2, Hdisk1; reflexivity |].
    constructor; assumption.
Qed.

Lemma files_after_keeps (dir : string) (l : list ((string * Z) * option exn))
    (d : gmap string file) (p : string) :
  (forall eo, eo ∈ l -> path_div dir eo.1.1 <> p) ->
  files_after dir l d !! p = d !! p.
Proof.
  revert d. induction l as [| eo l IH]; intros d Hp; simpl.
  - reflexivity.
  - unfold files_after in *. simpl.
    rewrite IH by (intros eo' Hin; apply Hp, list_elem_of_further, Hin).
    unfold entry_file. destruct eo.2; [reflexivity |].
    apply lookup_insert_ne, Hp, list_elem_of_here.
Qed.

Lemma files_after_lookup (dir : string) (l : list ((string * Z) * option exn))
    (d : gmap string file) (i : nat) (entry : string * Z) (o : option exn) :
  NoDup (map (fun eo => eo.1.1) l) -> l !! i = Some (entry, o) ->
  files_after dir l d !! path_div dir entry.1
  = match o with
    | None => Some (PngFile (BreathingCircles.icon_image entry.2))
    | Some _ => d !! path_div dir entry.1
    end.
Proof.
  revert d i. induction l as [| eo l IH]; intros d i Hnd Hi.
  - destruct i; discriminate Hi.
  - simpl in Hnd. apply NoDup_cons in Hnd as [Hfirst Hnd].
    change (files_after dir (eo :: l) d) with (files_after dir l (entry_file dir eo.1 eo.2 d)).
    destruct i as [| i].
    + injection Hi as ->. cbn [fst snd].
      rewrite files_after_keeps.
      * unfold entry_file. destruct o; [reflexivity | apply lookup_insert_eq].
      * intros eo' Hin Heq. apply path_div_inj in Heq. apply Hfirst. cbn [fst snd].
        rewrite <- Heq. apply list_elem_of_fmap. exists eo'. auto.
    + rewrite (IH _ i Hnd Hi). destruct o as [e |]; [| reflexivity].
      unfold entry_file. destruct eo.2; [reflexivity |].
      apply lookup_insert_ne. intros Heq. apply path_div_inj in Heq. apply Hfirst.
      rewrite Heq. apply list_elem_of_fmap. exists (entry, Some e).
      split; [reflexivity |]. apply (list_elem_of_lookup_2 _ i). exact Hi.
Qed.

End BreathingWriter.

Lemma icon_sizes_distinct : NoDup (map fst ICON_SIZES).
Proof. apply (@bool_decide_unpack _ (NoDup_dec _)). vm_compute. exact I. Qed.

Lemma manifest_is_no_icon (entry : string * Z) :
  entry ∈ ICON_SIZES -> entry.1 <> "Contents.json"%string.
Proof.
  intros Hin Heq.
  assert (Hall : Forall (fun entry => entry.1 <> "Contents.json"%string) ICON_SIZES)
    by (repeat (constructor; [discriminate |]); constructor).
  rewrite Forall_forall in Hall. exact (Hall _ Hin Heq).
Qed.

(** What a run of the writer does, once the output directory exists. *)
Lemma breathing_run_effect `{Rasterizer} `{OS} (dir : string) (w : world) :
  (forall v, mkdir_fault dir v = None) ->
  exists (outcomes : list (option exn)) (manifest : option exn) (w' : world),
    generate_all_icons dir w = (Ok tt, w')
    /\ length outcomes = length ICON_SIZES
    /\ Forall2 (caught dir) ICON_SIZES outcomes
    /\ match manifest with
       | None => True
       | Some e => exists v, write_fault (path_div dir "Contents.json") v = Some e
       end
    /\ stdout w'
       = stdout w ++ heading dir ++ zip_with entry_line ICON_SIZES outcomes
         ++ [manifest_line manifest]
         ++ closing (count_written outcomes)
              (count_failed outcomes + (if is_written manifest then 0 else 1))
    /\ disk w'
       = match manifest with
         | None => <[path_div dir "Contents.json" := JsonFile CONTENTS_JSON]>
                     (files_after dir (zip ICON_SIZES outcomes) (disk w))
         | Some _ => files_after dir (zip ICON_SIZES outcomes) (disk w)
         end.
Proof.
  intros Hmkdir. unfold generate_all_icons, icon_loop. rewrite !print_seq.
  set (v := add_line "" _).
  assert (Emk : makedirs dir v = (Ok tt, v)) by (unfold makedirs; rewrite Hmkdir; reflexivity).
  rewrite (bind_ok _ _ _ _ _ Emk).
  destruct (icon_stretch_effect dir ICON_SIZES 0 0 v)
    as (outcomes & w1 & E1 & Hlen & Hout1 & Hdisk1 & Hcaught).
  rewrite !Z.add_0_l in E1. rewrite (bind_ok _ _ _ _ _ E1).
  destruct (write_contents_effect dir (count_failed outcomes) w1)
    as (manifest & w2 & E2 & Hout2 & Hdisk2 & Hcause).
  rewrite (bind_ok _ _ _ _ _ E2).
  destruct (summary_effect (count_written outcomes)
              (if is_written manifest then count_failed outcomes
               else count_failed outcomes + 1) w2) as (w3 & E3 & Hout3 & Hdisk3).
  exists outcomes, manifest, w3.
  split; [exact E3 |]. split; [exact Hlen |]. split; [exact Hcaught |].
  split; [exact Hcause |]. split.
  - rewrite Hout3, Hout2, Hout1. subst v. cbn [stdout add_line heading].
    rewrite <- !app_assoc. cbn [app]. do 7 f_equal.
    destruct manifest; cbn [is_written]; [reflexivity | rewrite Z.add_0_r; reflexivity].
  - rewrite Hdisk3, Hdisk2, Hdisk1. subst v. reflexivity.
Qed.

(** X8: the report of the manifest-producing writer is truthful.  Once the
    output directory exists the run returns normally; every entry of the
    size table gets one line, in order; an entry reported as written has
    its PNG file on disk at the end of the run, a square RGB image of
    the entry's pixel dimension with every pixel written; what an entry
    reported as failed reports is an exception of the save, since
    rendering does not fail at the sizes of the table; the success count
    of the tally is the number of entries written, and the failure line
    appears exactly when an entry or the manifest failed, with their
    number; a manifest reported as written is on disk with the content
    of [CONTENTS_JSON].  Nothing is said of the file of an entry, or of
    the manifest, whose write was refused. *)
Theorem breathing_report_matches_files `{Rasterizer} `{OS} (dir : string) (w : world) :
  (forall v, mkdir_fault dir v = None) ->
  exists (outcomes : list (option exn)) (manifest : option exn) (w' : world),
    generate_all_icons dir w = (Ok tt, w')
    /\ length outcomes = 18%nat
    /\ count_written outcomes + count_failed outcomes = 18
    /\ stdout w'
       = stdout w ++ heading dir ++ zip_with entry_line ICON_SIZES outcomes
         ++ [manifest_line manifest]
         ++ closing (count_written outcomes)
              (count_failed outcomes + (if is_written manifest then 0 else 1))
    /\ (forall i entry,
          ICON_SIZES !! i = Some entry -> outcomes !! i = Some None ->
          exists im,
            disk w' !! path_div dir entry.1 = Some (PngFile im)
            /\ im_mode im = RGB /\ im_size im = (entry.2, entry.2)
            /\ fully_assigned im)
    /\ (forall i entry e,
          ICON_SIZES !! i = Some entry -> outcomes !! i = Some (Some e) ->
          exists im v, save_fault (path_div dir entry.1) im v = Some e)
    /\ (manifest = None ->
        disk w' !! path_div dir "Contents.json" = Some (JsonFile CONTENTS_JSON))
    /\ (forall e, manifest = Some e ->
          exists v, write_fault (path_div dir "Contents.json") v = Some e).
Proof.
  intros Hmkdir.
  destruct (breathing_run_effect dir w Hmkdir)
    as (outcomes & manifest & w' & E & Hlen & Hcaught & Hcause & Hout & Hdisk).
  exists outcomes, manifest, w'.
  split; [exact E |]. split; [exact Hlen |].
  split.
  { unfold count_written, count_failed.
    rewrite <- Nat2Z.inj_add, (List.filter_length is_written outcomes), Hlen. reflexivity. }
  split; [exact Hout |].
  assert (Hnd : NoDup (map (fun eo : (string * Z) * option exn => eo.1.1)
                         (zip ICON_SIZES outcomes))).
  { rewrite <- (map_map fst fst). change (map fst (zip ICON_SIZES outcomes))
      with ((zip ICON_SIZES outcomes).*1).
    rewrite fst_zip by lia. apply icon_sizes_distinct. }
  assert (Hentries : forall i entry o,
            ICON_SIZES !! i = Some entry -> outcomes !! i = Some o ->
            files_after dir (zip ICON_SIZES outcomes) (disk w) !! path_div dir entry.1
            = match o with
              | None => Some (PngFile (BreathingCircles.icon_image entry.2))
              | Some _ => disk w !! path_div dir entry.1
              end).
  { intros i entry o Hi Ho. apply (files_after_lookup dir _ _ i entry o Hnd).
    apply lookup_zip_with_Some. exists entry, o. auto. }
  assert (Hkeep : forall p, p <> path_div dir "Contents.json" ->
            disk w' !! p = files_after dir (zip ICON_SIZES outcomes) (disk w) !! p).
  { intros p Hp. rewrite Hdisk. destruct manifest; [reflexivity |].
    apply lookup_insert_ne. congruence. }
  split; [| split; [| split]].
  - intros i entry Hi Ho.
    assert (Hp : path_div dir entry.1 <> path_div dir "Contents.json").
    { intros Heq. apply path_div_inj in Heq.
      apply (manifest_is_no_icon entry); [| exact Heq].
      apply (list_elem_of_lookup_2 _ i). exact Hi. }
    rewrite (Hkeep _ Hp), (Hentries i entry None Hi Ho).
    exists (BreathingCircles.icon_image entry.2).
    pose proof (BreathingCircles.icon_image_shape entry.2) as Hsh.
    split; [reflexivity |].
    split; [exact (f_equal (fun sh => sh.1.1) Hsh) |].
    split; [exact (f_equal (fun sh => sh.1.2) Hsh) |].
    apply BreathingCircles.icon_image_fully_assigned.
  - intros i entry e Hi Ho.
    destruct (Forall2_lookup_lr _ _ _ _ _ _ Hcaught Hi Ho) as [Hneg | Hsave];
      [| exact Hsave].
    assert (Hin : (entry.1, entry.2) ∈ ICON_SIZES)
      by (destruct entry; apply (list_elem_of_lookup_2 _ i); exact Hi).
    apply icon_sizes_positive in Hin. lia.
  - intros ->. rewrite Hdisk. apply lookup_insert_eq.
  - intros e ->. exact Hcause.
Qed.

Lemma breathing_report_matches_files_witness :
  (forall v, mkdir_fault (OS := Example.full_disk) "out" v = None)
  /\ exists (outcomes : list (option exn)) (manifest : option exn) (w' : world),
       generate_all_icons (H := Example.box_rasterizer) (H0 := Example.full_disk)
         "out" Example.empty_world = (Ok tt, w')
       /\ length outcomes = 18%nat
       /\ count_written outcomes + count_failed outcomes = 18
       /\ (manifest = None ->
           disk w' !! path_div "out" "Contents.json" = Some (JsonFile CONTENTS_JSON)).
Proof.
  split; [intros v; reflexivity |].
  destruct (@breathing_report_matches_files Example.box_rasterizer Example.full_disk
              "out" Example.empty_world (fun v => eq_refl))
    as (outcomes & manifest & w' & E & Hlen & Hsum & _ & _ & _ & Hm & _).
  exists outcomes, manifest, w'. auto.
Defined.

(** The files after a run in which nothing failed. *)
Definition clean_files `{Rasterizer} (dir : string) (d : gmap string file)
    : gmap string file :=
  <[path_div dir "Contents.json" := JsonFile CONTENTS_JSON]>
    (files_after dir (zip ICON_SIZES (replicate 18 None)) d).

Lemma breathing_clean_run_effect `{Rasterizer} `{OS} (dir : string) (w : world) :
  (forall v, mkdir_fault dir v = None) ->
  (forall p im v, save_fault p im v = None) ->
  (forall p v, write_fault p v = None) ->
  exists w',
    generate_all_icons dir w = (Ok tt, w')
    /\ stdout w'
       = stdout w ++ heading dir
         ++ map (fun entry => ok_line entry.1 entry.2) ICON_SIZES
         ++ [ "[ok] Contents.json"; ""; rule; "Generation complete!";
              "Success: 18/18 icons"; "";
              "Ready for Xcode build and App Store submission" ]%string
    /\ disk w' = clean_files dir (disk w).
Proof.
  intros Hmkdir Hsave Hwrite.
  destruct (breathing_run_effect dir w Hmkdir)
    as (outcomes & manifest & w' & E & Hlen & Hcaught & Hcause & Hout & Hdisk).
  assert (Hall : outcomes = replicate 18 None).
  { symmetry. apply replicate_as_Forall. split; [exact Hlen |].
    apply Forall_forall. intros o Ho.
    apply list_elem_of_lookup in Ho as [i Ho].
    destruct (Forall2_lookup_r _ _ _ _ _ Hcaught Ho) as (entry & Hentry & Hc).
    destruct o as [e |]; [| reflexivity]. exfalso.
    destruct Hc as [Hneg | (im & v & Hfault)].
    - assert (Hin : (entry.1, entry.2) ∈ ICON_SIZES)
        by (destruct entry; apply (list_elem_of_lookup_2 _ i); exact Hentry).
      apply icon_sizes_positive in Hin. lia.
    - rewrite Hsave in Hfault. discriminate Hfault. }
  assert (Hmanifest : manifest = None).
  { destruct manifest as [e |]; [| reflexivity].
    destruct Hcause as [v Hfault]. rewrite Hwrite in Hfault. discriminate Hfault. }
  subst outcomes manifest.
  exists w'. split; [exact E |].
  split; [rewrite Hout; reflexivity | exact Hdisk].
Qed.

Lemma clean_files_entry `{Rasterizer} (dir : string) (d : gmap string file)
    (entry : string * Z) :
  entry ∈ ICON_SIZES ->
  clean_files dir d !! path_div dir entry.1
  = Some (PngFile (BreathingCircles.icon_image entry.2)).
Proof.
  intros Hin. unfold clean_files.
  rewrite lookup_insert_ne.
  2: { intros Heq. apply path_div_inj in Heq.
       exact (manifest_is_no_icon entry Hin (eq_sym Heq)). }
  apply list_elem_of_lookup in Hin as [i Hi].
  apply (files_after_lookup dir _ _ i entry None).
  - rewrite <- (map_map fst fst).
    change (map fst (zip ICON_SIZES (replicate 18 None)))
      with ((zip ICON_SIZES (replicate 18 (@None exn))).*1).
    rewrite fst_zip by (simpl; lia). apply icon_sizes_distinct.
  - apply lookup_zip_with_Some. exists entry, None.
    split; [reflexivity |]. split; [exact Hi |].
    apply lookup_replicate_2. apply lookup_lt_Some in Hi. exact Hi.
Qed.

Lemma clean_files_manifest `{Rasterizer} (dir : string) (d : gmap string file) :
  clean_files dir d !! path_div dir "Contents.json" = Some (JsonFile CONTENTS_JSON).
Proof. apply lookup_insert_eq. Qed.

Lemma clean_files_other `{Rasterizer} (dir : string) (d : gmap string file) (p : string) :
  p <> path_div dir "Contents.json" ->
  (forall entry, entry ∈ ICON_SIZES -> p <> path_div dir entry.1) ->
  clean_files dir d !! p = d !! p.
Proof.
  intros Hp Hentries. unfold clean_files. rewrite lookup_insert_ne by congruence.
  apply files_after_keeps. intros eo Hin.
  apply list_elem_of_lookup in Hin as [i Hi].
  apply lookup_zip_with_Some in Hi as (entry & o & -> & Hentry & _).
  intros Heq. apply (Hentries entry); [| symmetry; exact Heq].
  apply (list_elem_of_lookup_2 _ i). exact Hentry.
Qed.

(** A second clean run leaves the files of the first. *)
Lemma clean_files_idempotent `{Rasterizer} (dir : string) (d : gmap string file) :
  clean_files dir (clean_files dir d) = clean_files dir d.
Proof.
  apply map_eq. intros p.
  destruct (decide (p = path_div dir "Contents.json")) as [-> | Hp].
  { rewrite !clean_files_manifest. reflexivity. }
  destruct (decide (p ∈ map (fun entry => path_div dir entry.1) ICON_SIZES)) as [Hin | Hout].
  - apply list_elem_of_fmap in Hin as (entry & -> & Hin).
    rewrite !clean_files_entry by exact Hin. reflexivity.
  - apply clean_files_other; [exact Hp |].
    intros entry Hin Heq. apply Hout. rewrite Heq.
    apply list_elem_of_fmap. exists entry. auto.
Qed.

(** X9: on a system where no call fails, the manifest-producing writer
    writes the 18 PNG files and the manifest, reports each of them, and
    closes with the tally 18/18 and no failure line.  No other file
    changes. *)
Theorem breathing_writer_clean_run `{Rasterizer} `{OS} (dir : string) (w : world) :
  (forall v, mkdir_fault dir v = None) ->
  (forall p im v, save_fault p im v = None) ->
  (forall p v, write_fault p v = None) ->
  exists w',
    generate_all_icons dir w = (Ok tt, w')
    /\ stdout w'
       = stdout w ++ heading dir
         ++ map (fun entry => ok_line entry.1 entry.2) ICON_SIZES
         ++ [ "[ok] Contents.json"; ""; rule; "Generation complete!";
              "Success: 18/18 icons"; "";
              "Ready for Xcode build and App Store submission" ]%string
    /\ (forall name px,
          (name, px) ∈ ICON_SIZES ->
          exists im,
            disk w' !! path_div dir name = Some (PngFile im)
            /\ im_mode im = RGB /\ im_size im = (px, px) /\ fully_assigned im)
    /\ disk w' !! path_div dir "Contents.json" = Some (JsonFile CONTENTS_JSON)
    /\ (forall p,
          p <> path_div dir "Contents.json" ->
          (forall entry, entry ∈ ICON_SIZES -> p <> path_div dir entry.1) ->
          disk w' !! p = disk w !! p).
Proof.
  intros Hmkdir Hsave Hwrite.
  destruct (breathing_clean_run_effect dir w Hmkdir Hsave Hwrite)
    as (w' & E & Hout & Hdisk).
  exists w'. split; [exact E |]. split; [exact Hout |].
  rewrite Hdisk. split.
  - intros name px Hin. exists (BreathingCircles.icon_image px).
    pose proof (BreathingCircles.icon_image_shape px) as Hsh.
    split; [apply (clean_files_entry dir _ (name, px) Hin) |].
    split; [exact (f_equal (fun sh => sh.1.1) Hsh) |].
    split; [exact (f_equal (fun sh => sh.1.2) Hsh) |].
    apply BreathingCircles.icon_image_fully_assigned.
  - split; [apply clean_files_manifest |].
    intros p Hp Hentries. apply clean_files_other; assumption.
Qed.

Lemma breathing_writer_clean_run_witness :
  ((forall v, mkdir_fault (OS := Example.reliable) "out" v = None)
   /\ (forall p im v, save_fault (OS := Example.reliable) p im v = None)
   /\ (forall p v, write_fault (OS := Example.reliable) p v = None))
  /\ exists w',
       generate_all_icons (H := Example.box_rasterizer) (H0 := Example.reliable)
         "out" Example.empty_world = (Ok tt, w')
       /\ disk w' !! "out/Contents.json"%string = Some (JsonFile CONTENTS_JSON).
Proof.
  split; [repeat split; intros; reflexivity |].
  destruct (@breathing_writer_clean_run Example.box_rasterizer Example.reliable "out"
              Example.empty_world (fun v => eq_refl) (fun p im v => eq_refl)
              (fun p v => eq_refl))
    as (w' & E & _ & _ & Hm & _).
  exists w'. auto.
Defined.

End ManifestWriter.

(** ** Running a writer twice *)

Lemma zen_saved_idempotent `{Rasterizer} (dir : string) (d : gmap string file) :
  zen_saved dir GenerateIcons.ICON_SPECS (zen_saved dir GenerateIcons.ICON_SPECS d)
  = zen_saved dir GenerateIcons.ICON_SPECS d.
Proof.
  apply map_eq. intros p.
  destruct (decide (p ∈ map (fun spec : num * Z * string => path_join dir spec.2)
                          GenerateIcons.ICON_SPECS)) as [Hin | Hout].
  - apply list_elem_of_fmap in Hin as (spec & -> & Hin).
    rewrite !(zen_saved_holds dir _ _ spec icon_specs_distinct Hin). reflexivity.
  - apply zen_saved_keeps. intros spec Hin Heq. apply Hout. rewrite Heq.
    apply list_elem_of_fmap. exists spec. auto.
Qed.

Lemma zen_clean_run_effect `{Rasterizer} `{OS} (dir : string) (w : world) :
  (forall v, mkdir_fault dir v = None) ->
  (forall p im v, save_fault p im v = None) ->
  exists w',
    GenerateIcons.generate_all_icons dir w = (Ok tt, w')
    /\ disk w' = zen_saved dir GenerateIcons.ICON_SPECS (disk w).
Proof.
  intros Hmkdir Hsave.
  unfold GenerateIcons.generate_all_icons.
  assert (Emk : makedirs dir w = (Ok tt, w)) by (unfold makedirs; rewrite Hmkdir; reflexivity).
  rewrite (bind_ok _ _ _ _ _ Emk), print_seq.
  destruct (zen_stretch dir GenerateIcons.ICON_SPECS
              (add_line "Generating ZenFlow app icons..." w) icon_specs_in_range)
    as (w1 & E1 & _ & Hdisk1).
  { apply Forall_forall. intros spec _ im v. apply Hsave. }
  rewrite (bind_ok _ _ _ _ _ E1), !print_seq.
  eexists. split; [reflexivity |].
  cbn [disk add_line]. rewrite Hdisk1. reflexivity.
Qed.

(** X10: both writers can be run again.  On a system where no call
    fails, a second run of either writer, started in the state that the
    first one left, returns normally and leaves exactly the files of the
    first: every file is written again with the same content, since a
    rendering depends on the size alone. *)
Theorem rerun_leaves_the_same_files `{Rasterizer} `{OS} (dir : string) (w : world) :
  (forall v, mkdir_fault dir v = None) ->
  (forall p im v, save_fault p im v = None) ->
  (forall p v, write_fault p v = None) ->
  (exists w1 w2,
      GenerateIcons.generate_all_icons dir w = (Ok tt, w1)
      /\ GenerateIcons.generate_all_icons dir w1 = (Ok tt, w2)
      /\ disk w2 = disk w1)
  /\ (exists w1 w2,
        GenerateAppIcons.generate_all_icons dir w = (Ok tt, w1)
        /\ GenerateAppIcons.generate_all_icons dir w1 = (Ok tt, w2)
        /\ disk w2 = disk w1).
Proof.
  intros Hmkdir Hsave Hwrite. split.
  - destruct (zen_clean_run_effect dir w Hmkdir Hsave) as (w1 & E1 & Hdisk1).
    destruct (zen_clean_run_effect dir w1 Hmkdir Hsave) as (w2 & E2 & Hdisk2).
    exists w1, w2. split; [exact E1 |]. split; [exact E2 |].
    rewrite Hdisk2, Hdisk1. apply zen_saved_idempotent.
  - destruct (ManifestWriter.breathing_clean_run_effect dir w Hmkdir Hsave Hwrite)
      as (w1 & E1 & _ & Hdisk1).
    destruct (ManifestWriter.breathing_clean_run_effect dir w1 Hmkdir Hsave Hwrite)
      as (w2 & E2 & _ & Hdisk2).
    exists w1, w2. split; [exact E1 |]. split; [exact E2 |].
    rewrite Hdisk2, Hdisk1. apply ManifestWriter.clean_files_idempotent.
Qed.

Lemma rerun_leaves_the_same_files_witness :
  ((forall v, mkdir_fault (OS := Example.reliable) "out" v = None)
   /\ (forall p im v, save_fault (OS := Example.reliable) p im v = None)
   /\ (forall p v, write_fault (OS := Example.reliable) p v = None))
  /\ exists w1 w2,
       GenerateIcons.generate_all_icons (H := Example.box_rasterizer)
         (H0 := Example.reliable) "out" Example.empty_world = (Ok tt, w1)
       /\ GenerateIcons.generate_all_icons (H := Example.box_rasterizer)
            (H0 := Example.reliable) "out" w1 = (Ok tt, w2)
       /\ disk w2 = disk w1.
Proof.
  split; [repeat split; intros; reflexivity |].
  exact (proj1 (@rerun_leaves_the_same_files Example.box_rasterizer Example.reliable "out"
                  Example.empty_world (fun v => eq_refl) (fun p im v => eq_refl)
                  (fun p v => eq_refl))).
Defined.

(** ** The numbers of the designs *)

Module DesignNumbers.
Import GenerateAppIcons.

(** ** The integers of the Breathing Circles design *)

(** [int(k * scale)] with [scale = size / 1024.0] is [k * size // 1024]
    in exact arithmetic. *)
Definition exact_parameters (size : Z) : list Z :=
  map (fun k => (k * size) `div` 1024) [100; 300; 3; 4; 5; 6; 7; 5; 25; 40; 40]
  ++ [Z.max 1 ((2 * size) `div` 1024)].

Lemma rounded_parameters_exact (size : Z) :
  0 <= size -> rounded_parameters (F := Q) size = exact_parameters size.
Proof.
  intros Hsize. unfold rounded_parameters, exact_parameters. cbv zeta.
  cbn [GenerateAppIcons.glow_radii GenerateAppIcons.circles
       GenerateAppIcons.gradient_steps flat_map map app fst snd].
  unfold GenerateAppIcons.stroke_width, GenerateAppIcons.stroke,
    GenerateAppIcons.center_radius, GenerateAppIcons.scale_of.
  cbn -[Z.mul Z.quot Z.max Z.div].
  change (Z.pos (1 * (1 * 1024))) with 1024.
  rewrite !Z.mul_1_r.
  rewrite !Z.quot_div_nonneg by lia. reflexivity.
Qed.

Lemma rounded_parameters_float (size : Z) :
  0 <= size <= 1024 -> rounded_parameters (F := float) size = exact_parameters size.
Proof.
  intros Hsize. destruct (decide (size = 0)) as [-> | Hne]; [vm_compute; reflexivity |].
  pose proof (Interval.all_between_spec _ _ _ float_scaling_checked size ltac:(lia)) as Hok.
  unfold float_scaling in Hok.
  apply andb_true_iff in Hok as [Hok _]. apply andb_true_iff in Hok as [_ Hok].
  apply bool_decide_eq_true_1 in Hok. rewrite Hok.
  apply rounded_parameters_exact. lia.
Qed.

(** X11: the number of outlines drawn for each of the five concentric
    circles is [int(width)] with [width = k * scale], [k] from 3 to 7.
    For every size up to 1024 the float computation gives
    [k * size // 1024].  So below 147 pixels every count is 0 and the
    loop over [circles] draws nothing; from 147 pixels on the innermost
    circle is drawn, and all five are drawn exactly from 342 pixels on. *)
Theorem circles_need_enough_pixels `{Rasterizer} (size : Z) :
  0 <= size <= 1024 ->
  let scale : float := scale_of size in
  let center := (size `div` 2, size `div` 2) in
  map (fun c => trunc c.1.2) (circles scale)
  = map (fun k => (k * size) `div` 1024) [3; 4; 5; 6; 7]
  /\ (size <= 146 ->
      (forall img w,
          for_each (circles scale) (fun '(radius, width, color) =>
            for_each (range (trunc width)) (fun i =>
              let r := (radius - of_int i / of_int 2)%py in
              Draw_ellipse (Draw img true) (bbox_around center r) None (Some color) 1)) w
          = (Ok tt, w))
      /\ forall im,
           foldl (fun acc c => BreathingCircles.ring center c acc) im (circles scale) = im)
  /\ (147 <= size <-> Exists (fun c => 1 <= trunc c.1.2) (circles scale))
  /\ (342 <= size <-> Forall (fun c => 1 <= trunc c.1.2) (circles scale)).
Proof.
  intros Hsize scale center.
  pose proof (rounded_parameters_float size Hsize) as Hpar.
  unfold rounded_parameters, exact_parameters in Hpar. cbv zeta in Hpar.
  fold scale in Hpar.
  cbn [GenerateAppIcons.glow_radii GenerateAppIcons.circles
       GenerateAppIcons.gradient_steps map app fst snd] in Hpar.
  injection Hpar as _ _ H3 H4 H5 H6 H7 _ _ _ _ _.
  change (trunc (of_int 3 * scale)%py = (3 * size) `div` 1024) in H3.
  change (trunc (of_int 4 * scale)%py = (4 * size) `div` 1024) in H4.
  change (trunc (of_int 5 * scale)%py = (5 * size) `div` 1024) in H5.
  change (trunc (of_int 6 * scale)%py = (6 * size) `div` 1024) in H6.
  change (trunc (of_int 7 * scale)%py = (7 * size) `div` 1024) in H7.
  cbn [GenerateAppIcons.circles map fst snd].
  split; [rewrite H3, H4, H5, H6, H7; reflexivity |].
  split.
  { intros Hsmall.
    assert (Hzero : forall k, 0 <= k <= 7 -> (k * size) `div` 1024 = 0)
      by (intros k Hk; apply Z.div_small; nia).
    rewrite (Hzero 3), (Hzero 4), (Hzero 5), (Hzero 6), (Hzero 7) in * by lia.
    split.
    - intros img w. unfold circles. cbn [for_each].
      rewrite H3, H4, H5, H6, H7. reflexivity.
    - intros im. unfold circles. cbn [foldl BreathingCircles.ring].
      rewrite H3, H4, H5, H6, H7. reflexivity. }
  split.
  - unfold circles. rewrite !Exists_cons, Exists_nil. cbn [fst snd].
    rewrite H3, H4, H5, H6, H7. split.
    + intros Hbig. do 4 right. left. apply Z.div_le_lower_bound; lia.
    + intros Hex.
      assert (Hlt : size <= 146 -> forall k, 0 <= k <= 7 -> (k * size) `div` 1024 = 0)
        by (intros Hs k Hk; apply Z.div_small; nia).
      destruct (decide (147 <= size)) as [Hbig | Hsmall]; [exact Hbig |].
      rewrite (Hlt ltac:(lia) 3), (Hlt ltac:(lia) 4), (Hlt ltac:(lia) 5),
        (Hlt ltac:(lia) 6), (Hlt ltac:(lia) 7) in Hex by lia.
      lia.
  - unfold circles. rewrite !Forall_cons, Forall_nil. cbn [fst snd].
    rewrite H3, H4, H5, H6, H7. split.
    + intros Hbig. repeat split; try (apply Z.div_le_lower_bound; lia).
    + intros (Hw & _). destruct (decide (342 <= size)) as [Hbig | Hsmall]; [exact Hbig |].
      rewrite Z.div_small in Hw by lia. lia.
Qed.

Lemma circles_need_enough_pixels_witness :
  0 <= 120 <= 1024
  /\ map (fun c => trunc c.1.2) (circles (scale_of (F := float) 120))
     = map (fun k => (k * 120) `div` 1024) [3; 4; 5; 6; 7].
Proof.
  split; [lia |].
  exact (proj1 (@circles_need_enough_pixels Example.box_rasterizer 120 ltac:(lia))).
Defined.

(** ** The ends of the two gradients *)

Lemma table_sizes_above_18 (n : Z) : n ∈ table_sizes -> 18 < n.
Proof.
  intros Hn.
  assert (Hall : Forall (fun n => 18 < n) table_sizes) by (repeat constructor).
  rewrite Forall_forall in Hall. exact (Hall n Hn).
Qed.

(** X12: [progress = y / size] never reaches 1, yet the bottom row of the
    vertical gradient is exactly [DEEP_INDIGO] as soon as the image has
    more than 18 rows, 18 being the distance between the two colours in
    every channel: [int] rounds the last step down to the end colour.
    With 18 rows or fewer the end colour is not reached.  On floats, as
    the script computes, the top row is [LIGHTER_INDIGO] and the bottom
    row [DEEP_INDIGO] at every size of the table. *)
Theorem vertical_gradient_bottom_row (n : Z) :
  0 < n ->
  (BreathingCircles.row_color (F := Q) n (n - 1) = DEEP_INDIGO <-> 18 < n)
  /\ (n ∈ table_sizes ->
      BreathingCircles.row_color (F := float) n 0 = LIGHTER_INDIGO
      /\ BreathingCircles.row_color (F := float) n (n - 1) = DEEP_INDIGO).
Proof.
  intros Hn.
  destruct (row_color_exact n (n - 1) Hn ltac:(lia)) as [Hlast _].
  destruct (row_color_exact n 0 Hn ltac:(lia)) as [Hfirst _].
  assert (Hbottom : 18 < n -> BreathingCircles.row_color (F := Q) n (n - 1) = DEEP_INDIGO).
  { intros Hbig. rewrite Hlast. unfold DEEP_INDIGO.
    repeat f_equal; Z.to_euclidean_division_equations; nia. }
  split; [split; [| exact Hbottom] |].
  - rewrite Hlast. unfold DEEP_INDIGO. intros [= Hr _ _].
    Z.to_euclidean_division_equations. nia.
  - intros Htable. split.
    + rewrite row_color_float_exact by (assumption || lia). rewrite Hfirst.
      unfold LIGHTER_INDIGO. repeat f_equal; rewrite Z.sub_0_r; apply Z.div_mul; lia.
    + rewrite row_color_float_exact by (assumption || lia).
      apply Hbottom, table_sizes_above_18, Htable.
Qed.

Lemma vertical_gradient_bottom_row_witness :
  0 < 20
  /\ BreathingCircles.row_color (F := float) 20 19 = DEEP_INDIGO.
Proof.
  split; [lia |].
  refine (proj2 (proj2 (vertical_gradient_bottom_row 20 ltac:(lia)) _)).
  vm_compute. repeat constructor.
Defined.

(** The ranges that the comments of [create_zen_icon] give for the
    three channels: 100-180, 150-80, 220-200. *)
Definition gradient_ranges : list (Z * Z) := [ (100, 180); (80, 150); (200, 220) ].

Definition within (c : Z) (bounds : Z * Z) : Prop := bounds.1 <= c <= bounds.2.

Definition gradient_ends (n : Z) : bool :=
  bool_decide (ZenIcon.pixel_color n (n `div` 2) (n `div` 2) = [100; 150; 220])
  && bool_decide (ZenIcon.pixel_color n 0 0 = [180; 80; 200]).

Lemma gradient_ends_checked : Interval.all_between 2 4096 gradient_ends = true.
Proof. vm_compute. reflexivity. Qed.

(** For [a <= b] the scaled roots stay below the factor. *)
Lemma floor_scaled_sqrt_le (k a b : Z) :
  0 <= k -> 0 <= a <= b -> 0 < b -> 0 <= floor_scaled_sqrt k a b <= k.
Proof.
  intros Hk Ha Hb. pose proof (floor_scaled_sqrt_spec k a b ltac:(lia) Hb) as Hr.
  cbv zeta in Hr. set (r := floor_scaled_sqrt k a b) in *. clearbody r.
  destruct Hr as (Hr0 & Hle & _). split; [exact Hr0 |].
  assert (Hsq : r * r <= k * k).
  { apply (Z.mul_le_mono_pos_r _ _ b Hb). nia. }
  nia.
Qed.

Lemma ceil_scaled_sqrt_le (k a b : Z) :
  0 <= k -> 0 <= a <= b -> 0 < b -> 0 <= ceil_scaled_sqrt k a b <= k.
Proof.
  intros Hk Ha Hb. pose proof (ceil_scaled_sqrt_spec k a b ltac:(lia) Hb) as Hr.
  cbv zeta in Hr.
  destruct (decide (0 < k * k * a)) as [Hpos | Hzero].
  - set (r := ceil_scaled_sqrt k a b) in *. clearbody r.
    destruct Hr as (Hr0 & _ & Hlt). specialize (Hlt Hpos). split; [exact Hr0 |].
    assert (Hsq : (r - 1) * (r - 1) < k * k).
    { apply (Z.mul_lt_mono_pos_r b _ _ Hb). nia. }
    nia.
  - unfold ceil_scaled_sqrt. rewrite decide_True by lia. lia.
Qed.

Lemma spec_pixel_within (n x y : Z) :
  2 <= n -> 0 <= x < n -> 0 <= y < n ->
  Forall2 within (spec_pixel n x y) gradient_ranges.
Proof.
  intros Hn Hx Hy. unfold spec_pixel, gradient_ranges. cbv zeta.
  set (c := n `div` 2).
  assert (Hc : 1 <= c /\ n - 1 <= 2 * c <= n).
  { subst c. pose proof (Z.div_mod n 2 ltac:(lia)).
    pose proof (Z.mod_pos_bound n 2 ltac:(lia)). lia. }
  set (a := (x - c) ^ 2 + (y - c) ^ 2). set (b := c ^ 2 + c ^ 2).
  assert (Ha : 0 <= a <= b) by (subst a b; nia).
  assert (Hb : 0 < b) by (subst b; nia).
  pose proof (floor_scaled_sqrt_le 80 a b ltac:(lia) Ha Hb) as H80.
  pose proof (ceil_scaled_sqrt_le 70 a b ltac:(lia) Ha Hb) as H70.
  pose proof (ceil_scaled_sqrt_le 20 a b ltac:(lia) Ha Hb) as H20.
  unfold within. repeat (constructor; [cbn [fst snd]; lia |]). constructor.
Qed.

(** X13: the radial gradient of the zen icon stays within the ranges
    that the comments of the code give (100-180, 150-80, 220-200): in
    exact arithmetic at every size from 2 pixels on, and on floats, as
    the script computes, at the sizes of the table up to 60 pixels.  On
    floats, for every size up to 4096, the centre pixel holds
    (100, 150, 220) and the corner pixel (0, 0), the farthest from the
    centre, holds (180, 80, 200). *)
Theorem radial_gradient_ranges (n x y : Z) :
  2 <= n -> 0 <= x < n -> 0 <= y < n ->
  Forall2 within (spec_pixel n x y) gradient_ranges
  /\ (n ∈ compared_sizes -> Forall2 within (ZenIcon.pixel_color n x y) gradient_ranges)
  /\ (n <= 4096 ->
      ZenIcon.pixel_color n (n `div` 2) (n `div` 2) = [100; 150; 220]
      /\ ZenIcon.pixel_color n 0 0 = [180; 80; 200]).
Proof.
  intros Hn Hx Hy.
  split; [apply spec_pixel_within; assumption |].
  split.
  - intros Hsmall. rewrite pixel_color_exact by assumption.
    apply spec_pixel_within; assumption.
  - intros Hle.
    pose proof (Interval.all_between_spec _ _ _ gradient_ends_checked n ltac:(lia)) as Hok.
    unfold gradient_ends in Hok. apply andb_true_iff in Hok as [Hc H0].
    apply bool_decide_eq_true_1 in Hc, H0. auto.
Qed.

Lemma radial_gradient_ranges_witness :
  (2 <= 40 /\ 0 <= 7 < 40 /\ 0 <= 31 < 40)
  /\ Forall2 within (ZenIcon.pixel_color 40 7 31) gradient_ranges.
Proof.
  split; [lia |].
  refine (proj1 (proj2 (radial_gradient_ranges 40 7 31 ltac:(lia) ltac:(lia) ltac:(lia))) _).
  vm_compute. repeat constructor.
Defined.

(** ** The colours of a radial gradient *)

(** The fill colour of the [i]-th disc that [create_radial_gradient]
    draws: the interpolated channels, and an alpha of 255 when the start
    colour has none. *)
Definition disc_color {F : Type} `{Arith F} (start_radius end_radius : Z)
    (start_color end_color : list Z) (i : Z) : list Z :=
  let progress := (of_int i / of_int (end_radius - start_radius))%py in
  let channel (k : nat) :=
    lerp_channel (start_color !!! k) (end_color !!! k) progress in
  [ channel 0%nat; channel 1%nat; channel 2%nat;
    if decide (3 < length start_color)%nat then channel 3%nat else 255 ].

Lemma gradient_disc_color `{Rasterizer} center start_radius end_radius
    start_color end_color i :
  BreathingCircles.gradient_disc center start_radius end_radius start_color end_color i
  = ellipse false
      (bbox_around center
         (lerp_radius start_radius end_radius
            (PrimFloat.div (Z2F i) (Z2F (end_radius - start_radius)))))
      (Some (disc_color (F := float) start_radius end_radius start_color end_color i))
      None 1.
Proof. reflexivity. Qed.

(** The calls of [create_radial_gradient] that the renderer makes at a
    given size: the glow, then one per pair of consecutive entries of
    [gradient_steps]; each with its radii and its two colours. *)
Definition gradient_calls (size : Z) : list (Z * Z * list Z * list Z) :=
  let scale : float := scale_of size in
  (trunc (glow_radii scale).1, trunc (glow_radii scale).2,
   SERENE_PURPLE ++ [76], [0; 0; 0; 0])
  :: zip_with (fun a b => (trunc a.1, trunc b.1, a.2, b.2))
       (gradient_steps scale) (tail (gradient_steps scale)).

Definition call_colors_agree (call : Z * Z * list Z * list Z) : bool :=
  let '(start_radius, end_radius, start_color, end_color) := call in
  Interval.all_between 0 (end_radius - start_radius - 1) (fun i =>
    bool_decide (disc_color (F := float) start_radius end_radius start_color end_color i
                 = disc_color (F := Q) start_radius end_radius start_color end_color i)).

Lemma gradient_colors_checked :
  forallb (fun size => forallb call_colors_agree (gradient_calls size)) table_sizes = true.
Proof. vm_compute. reflexivity. Qed.

Lemma lerp_channel_between (s e i n : Z) :
  0 <= s -> 0 <= e -> 0 <= i < n ->
  Z.min s e <= lerp_channel (F := Q) s e (of_int i / of_int n)%py <= Z.max s e.
Proof.
  intros Hs He Hi.
  destruct (lerp_channel_exact s e i n) as [-> _]; [lia | nia |].
  split; [apply Z.div_le_lower_bound | apply Z.div_le_upper_bound]; nia.
Qed.

Lemma channel_lookup_valid (color : list Z) (k : nat) :
  Forall (fun c => 0 <= c <= 255) color -> 0 <= color !!! k <= 255.
Proof.
  intros Hall. rewrite list_lookup_total_alt.
  destruct (color !! k) as [c |] eqn:Hk; simpl.
  - exact (Forall_lookup_1 _ _ _ _ Hall Hk).
  - unfold inhabitant, Z.inhabited. lia.
Qed.

(** X14: between two valid colours (channels in 0..255) the gradient only
    draws valid colours: read over the rationals, every channel of every
    disc lies between the channels of the start and of the end colour.
    On floats, as the script computes, the colours of the discs are the
    same integers for every call that the renderer makes at a size of
    the table. *)
Theorem gradient_colors_are_valid (start_radius end_radius : Z)
    (start_color end_color : list Z) (i : Z) :
  Forall (fun c => 0 <= c <= 255) start_color ->
  Forall (fun c => 0 <= c <= 255) end_color ->
  0 <= i < end_radius - start_radius ->
  Forall (fun c => 0 <= c <= 255)
    (disc_color (F := Q) start_radius end_radius start_color end_color i)
  /\ (forall k : nat,
        Z.min (start_color !!! k) (end_color !!! k)
        <= lerp_channel (F := Q) (start_color !!! k) (end_color !!! k)
             (of_int i / of_int (end_radius - start_radius))%py
        <= Z.max (start_color !!! k) (end_color !!! k))
  /\ (forall size,
        size ∈ table_sizes ->
        (start_radius, end_radius, start_color, end_color) ∈ gradient_calls size ->
        disc_color (F := float) start_radius end_radius start_color end_color i
        = disc_color (F := Q) start_radius end_radius start_color end_color i).
Proof.
  intros Hstart Hend Hi.
  assert (Hbetween : forall k : nat,
            Z.min (start_color !!! k) (end_color !!! k)
            <= lerp_channel (F := Q) (start_color !!! k) (end_color !!! k)
                 (of_int i / of_int (end_radius - start_radius))%py
            <= Z.max (start_color !!! k) (end_color !!! k)).
  { intros k. pose proof (channel_lookup_valid start_color k Hstart).
    pose proof (channel_lookup_valid end_color k Hend).
    apply lerp_channel_between; lia. }
  assert (Hvalid : forall k : nat,
            0 <= lerp_channel (F := Q) (start_color !!! k) (end_color !!! k)
                   (of_int i / of_int (end_radius - start_radius))%py <= 255).
  { intros k. pose proof (Hbetween k).
    pose proof (channel_lookup_valid start_color k Hstart).
    pose proof (channel_lookup_valid end_color k Hend). lia. }
  split.
  { unfold disc_color. cbv zeta.
    repeat (constructor; [apply Hvalid |]).
    constructor; [| constructor].
    destruct (decide (3 < length start_color)%nat); [apply Hvalid | lia]. }
  split; [exact Hbetween |].
  intros size Hsize Hcall. pose proof gradient_colors_checked as Hall.
  rewrite forallb_forall in Hall. apply list_elem_of_In, Hall in Hsize.
  rewrite forallb_forall in Hsize. apply list_elem_of_In, Hsize in Hcall.
  unfold call_colors_agree in Hcall.
  apply (bool_decide_eq_true_1 _).
  apply (Interval.all_between_spec _ _ _ Hcall i). lia.
Qed.

Lemma gradient_colors_are_valid_witness :
  (Forall (fun c => 0 <= c <= 255) (SERENE_PURPLE ++ [76])
   /\ Forall (fun c => 0 <= c <= 255) [0; 0; 0; 0]
   /\ 0 <= 3 < 17 - 5)
  /\ Forall (fun c => 0 <= c <= 255)
       (disc_color (F := Q) 5 17 (SERENE_PURPLE ++ [76]) [0; 0; 0; 0] 3).
Proof.
  assert (Hstart : Forall (fun c => 0 <= c <= 255) (SERENE_PURPLE ++ [76]))
    by (repeat (constructor; [lia |]); constructor).
  assert (Hend : Forall (fun c => 0 <= c <= 255) [0; 0; 0; 0])
    by (repeat (constructor; [lia |]); constructor).
  split; [repeat split; (assumption || lia) |].
  exact (proj1 (gradient_colors_are_valid 5 17 _ _ 3 Hstart Hend ltac:(lia))).
Defined.

(** ** Where the ellipses are drawn *)

(** The bounding boxes of the discs of one call of
    [create_radial_gradient], of the outlines of one concentric circle
    and of the centre stroke, as the loops compute them. *)
Definition gradient_boxes (center : Z * Z) (call : Z * Z * list Z * list Z)
    : list (list float) :=
  let '(start_radius, end_radius, _, _) := call in
  map (fun i => bbox_around center
                  (lerp_radius start_radius end_radius
                     (PrimFloat.div (Z2F i) (Z2F (end_radius - start_radius)))))
      (range (end_radius - start_radius)).

Definition ring_boxes (center : Z * Z) (c : float * float * list Z) : list (list float) :=
  let '(radius, width, _) := c in
  map (fun i => bbox_around center (radius - of_int i / of_int 2)%py)
      (range (trunc width)).

Definition stroke_boxes (center : Z * Z) (scale : float) : list (list float) :=
  map (fun i => bbox_around center
                  (of_int (trunc (center_radius scale)) - of_int i / of_int 2)%py)
      (range (stroke_width scale)).

(** Every box that [draw_breathing_circles_icon] passes to
    [draw.ellipse] at a given size. *)
Definition drawn_boxes (size : Z) : list (list float) :=
  let scale : float := scale_of size in
  let center := (size `div` 2, size `div` 2) in
  flat_map (gradient_boxes center) (gradient_calls size)
  ++ flat_map (ring_boxes center) (circles scale)
  ++ stroke_boxes center scale.

(** The same for [create_zen_icon]: the five circles, then the dot. *)
Definition zen_boxes (size : Z) : list (list float) :=
  map (fun i => GenerateIcons.bbox_around (size `div` 2) (size `div` 2)
                  (GenerateIcons.circle_radius (F := float) size i))
      (range GenerateIcons.num_circles)
  ++ [ GenerateIcons.bbox_around (size `div` 2) (size `div` 2)
         (GenerateIcons.center_radius (F := float) size) ].

(** [x0 <= x1] and [y0 <= y1]: the imaging library refuses a box whose
    corners are the wrong way round. *)
Definition well_formed (box : list float) : bool :=
  match box with
  | [x0; y0; x1; y1] => PrimFloat.leb x0 x1 && PrimFloat.leb y0 y1
  | _ => false
  end.

(** The box lies between the first and the last pixel of the image. *)
Definition inside (size : Z) (box : list float) : bool :=
  match box with
  | [x0; y0; x1; y1] =>
      PrimFloat.leb 0 x0 && PrimFloat.leb 0 y0
      && PrimFloat.leb x1 (Z2F (size - 1)) && PrimFloat.leb y1 (Z2F (size - 1))
  | _ => false
  end.

Definition fits (size : Z) (box : list float) : bool :=
  well_formed box && inside size box.

Lemma foldl_map_compose {A B C} (f : A -> B -> A) (g : C -> B) (a : A) (l : list C) :
  foldl f a (map g l) = foldl (fun acc c => f acc (g c)) a l.
Proof. revert a. induction l as [| c l IH]; intros a; simpl; [reflexivity | apply IH]. Qed.

Lemma foldl_zip_map {A B C D} (f : A -> B * C -> A) (g : D -> B) (h : D -> C)
    (a : A) (l : list D) :
  foldl f a (zip (map g l) (map h l)) = foldl (fun acc d => f acc (g d, h d)) a l.
Proof. revert a. induction l as [| d l IH]; intros a; simpl; [reflexivity | apply IH]. Qed.

Section Replay.
Context `{Rasterizer}.

(** The images are what results from drawing those boxes. *)
Lemma radial_gradient_image_boxes size center start_radius end_radius
    start_color end_color :
  BreathingCircles.radial_gradient_image size center start_radius end_radius
    start_color end_color
  = foldl (fun acc bc => ellipse false bc.1 (Some bc.2) None 1 acc)
      (new RGBA (size, size) (Some [0; 0; 0; 0]))
      (zip (gradient_boxes center (start_radius, end_radius, start_color, end_color))
           (map (disc_color (F := float) start_radius end_radius start_color end_color)
              (range (end_radius - start_radius)))).
Proof.
  unfold BreathingCircles.radial_gradient_image, gradient_boxes.
  rewrite (foldl_zip_map (fun acc bc => ellipse false bc.1 (Some bc.2) None 1 acc)).
  reflexivity.
Qed.

Lemma ring_boxes_replay center c im :
  BreathingCircles.ring center c im
  = foldl (fun acc box => ellipse true box None (Some c.2) 1 acc) im (ring_boxes center c).
Proof.
  destruct c as [[radius width] color]. unfold BreathingCircles.ring, ring_boxes.
  symmetry. apply (foldl_map_compose
    (fun acc box => ellipse true box None (Some color) 1 acc)).
Qed.

Lemma stroke_boxes_replay center scale im :
  BreathingCircles.center_stroke center scale im
  = foldl (fun acc box => ellipse true box None (Some (CALM_BLUE ++ [255])) 1 acc) im
      (stroke_boxes center scale).
Proof.
  unfold BreathingCircles.center_stroke, stroke_boxes.
  symmetry. apply (foldl_map_compose
    (fun acc box => ellipse true box None (Some (CALM_BLUE ++ [255])) 1 acc)).
Qed.

(** The decoration pastes the images of [gradient_calls], in order:
    the glow first, the layers of the centre after the circles. *)
Lemma decoration_gradient_calls size im :
  let scale : float := scale_of size in
  let center := (size `div` 2, size `div` 2) in
  let image_of (call : Z * Z * list Z * list Z) :=
    BreathingCircles.radial_gradient_image size center call.1.1.1 call.1.1.2
      call.1.2 call.2 in
  let pasted (acc : image) (call : Z * Z * list Z * list Z) :=
    paste (image_of call) (image_of call) acc in
  BreathingCircles.decoration size im
  = BreathingCircles.center_stroke center scale
      (foldl pasted
         (foldl (fun acc c => BreathingCircles.ring center c acc)
            (foldl pasted im (take 1 (gradient_calls size))) (circles scale))
         (drop 1 (gradient_calls size))).
Proof. reflexivity. Qed.

Lemma zen_decoration_boxes size im :
  ZenIcon.decoration size im
  = foldl (fun acc e => ellipse false e.1 e.2.1.1 e.2.1.2 e.2.2 acc) im
      (zip (zen_boxes size)
         (map (fun i => (None,
                         Some [255; 255; 255;
                               GenerateIcons.opacity
                                 (PrimFloat.div (Z2F i) (Z2F GenerateIcons.num_circles))],
                         GenerateIcons.outline_width size))
              (range GenerateIcons.num_circles)
          ++ [(Some [255; 255; 255; 230], None, 1)])).
Proof. reflexivity. Qed.

End Replay.

Lemma drawn_boxes_checked :
  Interval.all_between 1 1024 (fun size => forallb (fits size) (drawn_boxes size)) = true.
Proof. vm_compute. reflexivity. Qed.

Lemma fits_spec (size : Z) (box : list float) :
  fits size box = true ->
  exists x0 y0 x1 y1,
    box = [x0; y0; x1; y1]
    /\ PrimFloat.leb x0 x1 = true /\ PrimFloat.leb y0 y1 = true
    /\ PrimFloat.leb 0 x0 = true /\ PrimFloat.leb 0 y0 = true
    /\ PrimFloat.leb x1 (Z2F (size - 1)) = true
    /\ PrimFloat.leb y1 (Z2F (size - 1)) = true.
Proof.
  unfold fits, well_formed, inside.
  destruct box as [| x0 [| y0 [| x1 [| y1 [| ? ?]]]]]; try discriminate.
  rewrite !andb_true_iff. intros [[? ?] [[[? ?] ?] ?]].
  exists x0, y0, x1, y1. auto 10.
Qed.

(** X15: for every size from 1 to 1024, every ellipse that the Breathing
    Circles renderer draws (the discs of the glow and of the centre
    gradient, the outlines of the circles, the centre stroke) has a
    bounding box whose corners are in order, so that the imaging
    library accepts it, and which lies between the first and the last
    pixel of the image, so that nothing is clipped. *)
Theorem breathing_ellipses_fit (size : Z) (box : list float) :
  1 <= size <= 1024 -> box ∈ drawn_boxes size ->
  exists x0 y0 x1 y1,
    box = [x0; y0; x1; y1]
    /\ PrimFloat.leb x0 x1 = true /\ PrimFloat.leb y0 y1 = true
    /\ PrimFloat.leb 0 x0 = true /\ PrimFloat.leb 0 y0 = true
    /\ PrimFloat.leb x1 (Z2F (size - 1)) = true
    /\ PrimFloat.leb y1 (Z2F (size - 1)) = true.
Proof.
  intros Hsize Hbox.
  pose proof (Interval.all_between_spec _ _ _ drawn_boxes_checked size Hsize) as Hall.
  rewrite forallb_forall in Hall. apply fits_spec, Hall, list_elem_of_In, Hbox.
Qed.

Lemma breathing_ellipses_fit_witness :
  (1 <= 20 <= 1024 /\ [6; 6; 14; 14]%float ∈ drawn_boxes 20)
  /\ PrimFloat.leb 14 (Z2F (20 - 1)) = true.
Proof.
  assert (Hbox : [6; 6; 14; 14]%float ∈ drawn_boxes 20)
    by (vm_compute; repeat constructor).
  split; [split; [lia | exact Hbox] |].
  destruct (breathing_ellipses_fit 20 _ ltac:(lia) Hbox)
    as (x0 & y0 & x1 & y1 & [= <- <- <- <-] & _ & _ & _ & _ & Hx1 & _).
  exact Hx1.
Defined.

Definition zen_alphas : list Z :=
  map (fun i => GenerateIcons.opacity (PrimFloat.div (Z2F i) (Z2F GenerateIcons.num_circles)))
      (range GenerateIcons.num_circles).

Lemma zen_boxes_checked :
  Interval.all_between 0 4096 (fun size =>
    forallb well_formed (zen_boxes size)
    && (negb (10 <=? size) || forallb (inside size) (zen_boxes size))) = true.
Proof. vm_compute. reflexivity. Qed.

(** X16: the decoration of the zen icon.  For every size up to 4096 the
    boxes of the five circles and of the centre dot have their corners
    in order; from 10 pixels on they lie between the first and the last
    pixel of the image.  The alpha of the circles decreases outwards,
    from 127 to 25, and the outline is at least one pixel wide. *)
Theorem zen_ellipses_fit (size : Z) (box : list float) :
  0 <= size <= 4096 -> box ∈ zen_boxes size ->
  well_formed box = true
  /\ (10 <= size -> inside size box = true)
  /\ zen_alphas = [127; 102; 76; 51; 25]
  /\ 1 <= GenerateIcons.outline_width size.
Proof.
  intros Hsize Hbox.
  pose proof (Interval.all_between_spec _ _ _ zen_boxes_checked size Hsize) as Hall.
  apply andb_true_iff in Hall as [Hwf Hin].
  rewrite forallb_forall in Hwf.
  split; [apply Hwf, list_elem_of_In, Hbox |].
  split.
  - intros Hbig. apply orb_true_iff in Hin as [Hsmall | Hin].
    + apply negb_true_iff, Z.leb_gt in Hsmall. lia.
    + rewrite forallb_forall in Hin. apply Hin, list_elem_of_In, Hbox.
  - split; [vm_compute; reflexivity |].
    unfold GenerateIcons.outline_width. lia.
Qed.

Lemma zen_ellipses_fit_witness :
  (0 <= 20 <= 4096 /\ [2; 2; 18; 18]%float ∈ zen_boxes 20)
  /\ inside 20 [2; 2; 18; 18]%float = true.
Proof.
  assert (Hbox : [2; 2; 18; 18]%float ∈ zen_boxes 20)
    by (vm_compute; repeat constructor).
  split; [split; [lia | exact Hbox] |].
  exact (proj1 (proj2 (zen_ellipses_fit 20 _ ltac:(lia) Hbox)) ltac:(lia)).
Defined.

End DesignNumbers.
